(** * Quiz coordinator: TCP and UDP servers

    A shallow embedding of [tcp_quiz/server_tcp.py] and
    [udp_quiz/server_udp.py], and the properties of the session
    coordinator proved (or refuted) on it.

    Conventions of the embedding:
    - a Python [dict] is an insertion-ordered association list ([pydict]),
      because the servers iterate [self.clients] (broadcast order,
      leaderboard order before sorting);
    - [time.time()] readings are rationals ([Q]) handed to the handler that
      reads the clock; float rounding is not modelled;
    - Python [int] is [Z] (scores) or [nat] (indices, counters);
    - strings are 8-bit [string]s read as 7-bit ASCII text;
    - every [with self.game_lock] block is one atomic step of the system;
    - a raised Python exception is a [Raise] result that leaves the state as
      it was when the exception was raised. *)

From Stdlib Require Import ZArith QArith Qround Lqa Ascii String
  Sorting.Sorted Sorting.Permutation.
From stdpp Require Import base tactics option list relations pretty.

Local Open Scope Z_scope.
Set Warnings "-clear-no-such-hyp".

(** ** Python primitives used by the servers *)

Module Py.

(** [str.isspace] on ASCII: TAB..CR, FS..US and the space. *)
Definition is_space (c : ascii) : bool :=
  let n := nat_of_ascii c in
  ((9 <=? n)%nat && (n <=? 13)%nat) || ((28 <=? n)%nat && (n <=? 32)%nat).

Definition upper_char (c : ascii) : ascii :=
  let n := nat_of_ascii c in
  if ((97 <=? n)%nat && (n <=? 122)%nat) then ascii_of_nat (n - 32) else c.

Definition lower_char (c : ascii) : ascii :=
  let n := nat_of_ascii c in
  if ((65 <=? n)%nat && (n <=? 90)%nat) then ascii_of_nat (n + 32) else c.

(** [str.upper()] *)
Fixpoint upper (s : string) : string :=
  match s with
  | EmptyString => EmptyString
  | String c s' => String (upper_char c) (upper s')
  end.

(** [str.lower()] *)
Fixpoint lower (s : string) : string :=
  match s with
  | EmptyString => EmptyString
  | String c s' => String (lower_char c) (lower s')
  end.

Fixpoint lstrip_chars (l : list ascii) : list ascii :=
  match l with
  | [] => []
  | c :: l' => if is_space c then lstrip_chars l' else l
  end.

Definition rstrip_chars (l : list ascii) : list ascii :=
  rev (lstrip_chars (rev l)).

(** [str.strip()] *)
Definition strip (s : string) : string :=
  string_of_list_ascii (rstrip_chars (lstrip_chars (list_ascii_of_string s))).

(** Vocabulary for statements about submitted letters: a string made of
    whitespace only, and a character in [A..Z]. *)
Definition all_space (s : string) : Prop :=
  Forall (λ c, is_space c = true) (list_ascii_of_string s).

(** [int(x)] on a float: truncation toward zero. *)
Definition py_int (q : Q) : Z := Z.quot (Qnum q) (Zpos (Qden q)).

(** [list.sort] / [sorted]: a stable sort.  [before x y] says that [x] may
    stay in front of [y]; an element is moved behind exactly those it may
    not precede, so equal keys keep their original order (also under
    [reverse=True], as in Python). *)
Section sort.
Context {A : Type} (before : A → A → bool).

Fixpoint sort_insert (x : A) (l : list A) : list A :=
  match l with
  | [] => [x]
  | y :: l' => if before x y then x :: l else y :: sort_insert x l'
  end.

Fixpoint py_sort (l : list A) : list A :=
  match l with
  | [] => []
  | x :: l' => sort_insert x (py_sort l')
  end.
End sort.

(** An insertion-ordered dictionary. *)
Section dict.
Context {K V : Type} `{EqDecision K}.

Fixpoint dict_get (k : K) (d : list (K * V)) : option V :=
  match d with
  | [] => None
  | (k', v) :: d' => if decide (k = k') then Some v else dict_get k d'
  end.

(** [d[k] = v]: overwrite in place, or append a new key at the end. *)
Fixpoint dict_set (k : K) (v : V) (d : list (K * V)) : list (K * V) :=
  match d with
  | [] => [(k, v)]
  | (k', v') :: d' =>
      if decide (k = k') then (k, v) :: d' else (k', v') :: dict_set k v d'
  end.

(** [del d[k]] *)
Fixpoint dict_del (k : K) (d : list (K * V)) : list (K * V) :=
  match d with
  | [] => []
  | (k', v') :: d' =>
      if decide (k = k') then dict_del k d' else (k', v') :: dict_del k d'
  end.

Definition dict_keys (d : list (K * V)) : list K := d.*1.
Definition dict_mem (k : K) (d : list (K * V)) : bool :=
  bool_decide (is_Some (dict_get k d)).
End dict.

(** [str.split(sep)] for a non-empty separator: cut at each occurrence of
    [sep], scanning from the left; [skip] counts the characters of a
    matched separator still to jump over, [cur] holds the current piece,
    last character first. *)
Fixpoint split_go (sep : string) (s : string) (skip : nat) (cur : list ascii)
    : list string :=
  match s with
  | EmptyString => [string_of_list_ascii (rev cur)]
  | String c s' =>
      match skip with
      | S skip' => split_go sep s' skip' cur
      | O =>
          if String.prefix sep s
          then string_of_list_ascii (rev cur)
               :: split_go sep s' (String.length sep - 1) []
          else split_go sep s' 0 (c :: cur)
      end
  end.

Definition split (sep : string) (s : string) : list string :=
  split_go sep s 0 [].

Definition newline : string := String "010" "".

(** The loop of [load_questions] over [lines[1:]]: the options collected
    so far, and the last answer seen. *)
Fixpoint scan_lines (lines : list string) (options : list string)
    (answer : option string) : list string * option string :=
  match lines with
  | [] => (options, answer)
  | line :: rest =>
      if String.prefix "ANSWER:" line then
        scan_lines rest options
          (Some (strip (nth 1 (split "ANSWER:" line) "")))
      else if bool_decide (strip line = "") then scan_lines rest options answer
      else scan_lines rest (options ++ [strip line]) answer
  end.

(** One turn of the loop of [load_questions] over the blocks: the question
    of the block, if the block has a text, an option and an answer. *)
Definition load_block (block : string)
    : option (string * list string * string) :=
  if bool_decide (strip block = "") then None
  else
    match split newline (strip block) with
    | [] => None
    | question :: rest =>
        match scan_lines rest [] None with
        | (options, Some answer) =>
            if bool_decide (question = "") || bool_decide (options = [])
               || bool_decide (answer = "")
            then None
            else Some (question, options, answer)
        | (_, None) => None
        end
    end.

(** [load_questions], the same in both servers, on the text of
    [questions.txt], or [None] when the file is not there.  The result
    holds, per question, its text, its options and its answer. *)
Definition load_question_records (content : option string)
    : list (string * list string * string) :=
  match content with
  | None => []
  | Some text => omap load_block (split (newline +:+ newline) (strip text))
  end.

(** Exceptions the servers can meet, and a state monad that carries them.
    A [Raise] keeps the state reached so far, as a Python exception keeps
    the mutations done before it. *)
Inductive exn := KeyError | IndexError | TypeError | OSError | RecursionError.

Inductive result (A : Type) :=
  | Ok (a : A)
  | Raise (e : exn).
Arguments Ok {A} a.
Arguments Raise {A} e.

Definition M (S A : Type) : Type := S → result A * S.

#[global] Instance M_ret {S} : MRet (M S) := λ A a s, (Ok a, s).
#[global] Instance M_bind {S} : MBind (M S) := λ A B f m s,
  match m s with
  | (Ok a, s') => f a s'
  | (Raise e, s') => (Raise e, s')
  end.

Definition raise {S A} (e : exn) : M S A := λ s, (Raise e, s).
Definition get {S} : M S S := λ s, (Ok s, s).
Definition modify {S} (f : S → S) : M S unit := λ s, (Ok tt, f s).

(** [try: m except Exception: h] *)
Definition try_except {S A} (m : M S A) (h : exn → M S A) : M S A := λ s,
  match m s with
  | (Ok a, s') => (Ok a, s')
  | (Raise e, s') => h e s'
  end.

(** [for x in l: body x] *)
Fixpoint for_each {S A} (l : list A) (body : A → M S unit) : M S unit :=
  match l with
  | [] => mret tt
  | x :: l' => body x ;; for_each l' body
  end.

(** A property of the state that a computation keeps, whatever it returns
    or raises. *)
Definition preserves {S A} (P : S → Prop) (m : M S A) : Prop :=
  ∀ s r s', m s = (r, s') → P s → P s'.

End Py.

Import Py.

(** ** The connection-oriented server, [tcp_quiz/server_tcp.py] *)

Module Tcp.

Definition QUESTION_TIME_LIMIT : Z := 10.

Record question := Question {
  q_question : string;
  q_options : list string;
  q_answer : string
}.

Definition load_questions (content : option string) : list question :=
  map (λ r, Question r.1.1 r.1.2 r.2) (load_question_records content).

(** One value of [self.clients]; [conn] names the client's socket object. *)
Record client := Client {
  conn : nat;
  addr : string * N;
  name : option string;
  score : Z;
  answers : list string;
  answer_times : list Q
}.

Record server := Server {
  questions : list question;
  clients : list (nat * client);
  connection_counter : nat;
  active_game : bool;
  current_question_index : nat;
  question_start_time : option Q;
  host_conn_id : option nat
}.

Record entry := Entry { e_name : option string; e_score : Z }.

(** Server-to-client messages: the constructor is the ['type'], its
    arguments the ['data'] fields.  The envelope's ['timestamp'] (a clock
    reading no code path reads back) is left out; [time_taken] is kept
    unrounded. *)
Inductive payload :=
  | error (message : string)
  | registered (message : string) (player_count : nat) (is_host : bool)
  | player_joined (player_name : string) (total_players : nat)
  | game_start (message : string) (total_questions : nat)
  | question_msg (question_number total_questions : nat) (text : string)
      (options : list string) (time_limit : Z)
  | answer_result (correct : bool) (correct_answer : string) (points : Z)
      (total_score : Z) (time_taken : Q)
  | question_end (correct_answer : string) (question_number : nat)
  | leaderboard (board : list entry) (round total_rounds : nat)
  | game_end (board : list entry) (message : string)
  | status (active : bool) (player_count : nat) (current_question : nat)
  | host_update (host_name : option string).

(** Decoded client-to-server lines: [data.get] of the one key each handler
    reads, or what made the line unusable. *)
Inductive request :=
  | Register (name : option string)
  | Answer (answer : option string)
  | StartGame
  | GetStatus
  | UnknownType
  | InvalidJson.

(** Program points of the [game_loop] thread. *)
Inductive loop_pc :=
  | Head (i : nat)    (* top of the [for], about to test [active_game] *)
  | Begin (i : nat)   (* about to take the lock and stamp round [i] *)
  | Send (i : nat)    (* about to broadcast question [i] *)
  | Close (i : nat)   (* slept; about to close round [i] under the lock *)
  | Finish.           (* about to call [end_game] *)

Inductive thread :=
  | StartGameThread
  | GameLoopThread (pc : loop_pc).

(** A [sendall] on a socket, in the order they happen, with whether the
    write went through. *)
Record write := Sendall { w_conn : nat; w_msg : payload; w_ok : bool }.

(** The server object together with its environment: the writes made so
    far, the sockets whose peer is gone, the sockets the server closed and
    the background threads started and not yet finished. *)
Record world := World {
  self : server;
  wire : list write;
  dead : list nat;
  closed : list nat;
  pool : list thread
}.

Definition set_self (f : server → server) (w : world) : world :=
  World (f (self w)) (wire w) (dead w) (closed w) (pool w).
Definition set_clients (f : list (nat * client) → list (nat * client))
    (s : server) : server :=
  Server (questions s) (f (clients s)) (connection_counter s) (active_game s)
    (current_question_index s) (question_start_time s) (host_conn_id s).
Definition set_active_game (b : bool) (s : server) : server :=
  Server (questions s) (clients s) (connection_counter s) b
    (current_question_index s) (question_start_time s) (host_conn_id s).
Definition set_current_question_index (i : nat) (s : server) : server :=
  Server (questions s) (clients s) (connection_counter s) (active_game s)
    i (question_start_time s) (host_conn_id s).
Definition set_question_start_time (t : option Q) (s : server) : server :=
  Server (questions s) (clients s) (connection_counter s) (active_game s)
    (current_question_index s) t (host_conn_id s).
Definition set_host_conn_id (h : option nat) (s : server) : server :=
  Server (questions s) (clients s) (connection_counter s) (active_game s)
    (current_question_index s) (question_start_time s) h.
Definition set_connection_counter (n : nat) (s : server) : server :=
  Server (questions s) (clients s) n (active_game s)
    (current_question_index s) (question_start_time s) (host_conn_id s).

Definition spawn (t : thread) : M world unit :=
  modify (λ w, World (self w) (wire w) (dead w) (closed w) (pool w ++ [t])).

(** [conn.sendall(...)]: raises when the peer is gone or the socket was
    closed. *)
Definition sendall (c : nat) (p : payload) : M world unit := λ w,
  let ok := negb (bool_decide (c ∈ dead w ∨ c ∈ closed w)) in
  let w' := World (self w) (wire w ++ [Sendall c p ok]) (dead w) (closed w)
              (pool w) in
  if ok then (Ok tt, w') else (Raise OSError, w').

(** [conn.close()] inside [try/except: pass]. *)
Definition close (c : nat) : M world unit :=
  modify (λ w, World (self w) (wire w) (dead w) (c :: closed w) (pool w)).

(** [send_message]: the write sits in a [try] whose handler only prints. *)
Definition send_message (c : nat) (p : payload) : M world unit :=
  try_except (sendall c p) (λ _, mret tt).

(** Vocabulary for statements about writes: the record of a [sendall] of
    [p] on socket [c] in world [w], and [w] with more writes recorded. *)
Definition sent (w : world) (c : nat) (p : payload) : write :=
  Sendall c p (negb (bool_decide (c ∈ dead w ∨ c ∈ closed w))).
Definition add_wire (l : list write) (w : world) : world :=
  World (self w) (wire w ++ l) (dead w) (closed w) (pool w).

(** The writes one broadcast of [p] makes over the snapshot [items]. *)
Fixpoint broadcast_writes (w : world) (items : list (nat * client))
    (p : payload) (exclude_conn_id : option nat) : list write :=
  match items with
  | [] => []
  | (conn_id, c) :: rest =>
      (if decide (Some conn_id = exclude_conn_id) then []
       else [sent w (conn c) p])
      ++ broadcast_writes w rest p exclude_conn_id
  end.

(** The loop of [broadcast_message] over the snapshot
    [list(self.clients.items())]; it returns the list [disconnected]. *)
Fixpoint broadcast_loop (items : list (nat * client)) (p : payload)
    (exclude_conn_id : option nat) : M world (list nat) :=
  match items with
  | [] => mret []
  | (conn_id, c) :: rest =>
      d ← (if decide (Some conn_id = exclude_conn_id) then mret []
           else try_except (send_message (conn c) p ;; mret [])
                  (λ _, mret [conn_id]));
      ds ← broadcast_loop rest p exclude_conn_id;
      mret (d ++ ds)
  end.

(** [broadcast_message], with the [remove_client] it calls on the clients
    collected in [disconnected] taken as an argument. *)
Definition broadcast_with (remove : nat → M world unit) (p : payload)
    (exclude_conn_id : option nat) : M world unit :=
  w ← get;
  disconnected ← broadcast_loop (clients (self w)) p exclude_conn_id;
  for_each disconnected remove.

(** [sorted(self.clients.keys())[0]] *)
Definition lowest_conn_id (cs : list (nat * client)) : option nat :=
  head (py_sort Nat.leb (dict_keys cs)).

(** [remove_client] and [broadcast_message] call each other; each nested
    [remove_client] has deleted a client first, so the depth is bounded by
    the size of the registry.  Running out of [fuel] is Python's
    recursion limit. *)
Fixpoint remove_client_rec (fuel : nat) (conn_id : nat) : M world unit :=
  match fuel with
  | O => raise RecursionError
  | S fuel' =>
      w ← get;
      match dict_get conn_id (clients (self w)) with
      | None => mret tt
      | Some c =>
          close (conn c) ;;
          modify (set_self (set_clients (dict_del conn_id))) ;;
          w ← get;
          if decide (host_conn_id (self w) = Some conn_id) then
            match clients (self w) with
            | _ :: _ =>
                match lowest_conn_id (clients (self w)) with
                | Some new_host_id =>
                    modify (set_self (set_host_conn_id (Some new_host_id))) ;;
                    w ← get;
                    match dict_get new_host_id (clients (self w)) with
                    | Some new_host =>
                        broadcast_with (remove_client_rec fuel')
                          (host_update (name new_host)) None
                    | None => raise KeyError
                    end
                | None => raise IndexError
                end
            | [] => modify (set_self (set_host_conn_id None))
            end
          else mret tt
      end
  end.

Definition remove_client (conn_id : nat) : M world unit :=
  w ← get;
  remove_client_rec (S (length (clients (self w)))) conn_id.

Definition broadcast_message (p : payload) (exclude_conn_id : option nat)
    : M world unit :=
  w ← get;
  broadcast_with (remove_client_rec (length (clients (self w)))) p
    exclude_conn_id.

(** [self.clients[conn_id][...] = ...]; a missing key raises. *)
Definition update_client (conn_id : nat) (f : client → client)
    : M world unit :=
  w ← get;
  match dict_get conn_id (clients (self w)) with
  | Some c => modify (set_self (set_clients (dict_set conn_id (f c))))
  | None => raise KeyError
  end.

Definition reset_client (c : client) : client :=
  Client (conn c) (addr c) (name c) 0 [] [].

Definition handle_client_register (conn_id c : nat) (data_name : option string)
    : M world unit :=
  w ← get;
  if active_game (self w) then
    send_message c (error "Game already in progress")
  else
    let player_name := default ("Player_" +:+ pretty conn_id) data_name in
    update_client conn_id
      (λ cl, Client (conn cl) (addr cl) (Some player_name) 0 [] []) ;;
    w ← get;
    send_message c
      (registered ("Welcome " +:+ player_name +:+ "!")
         (length (clients (self w)))
         (bool_decide (Some conn_id = host_conn_id (self w)))) ;;
    w ← get;
    broadcast_message
      (player_joined player_name (length (clients (self w)))) (Some conn_id).

(** [max(1, int((QUESTION_TIME_LIMIT - time_taken) / 5) + 1)] *)
Definition speed_points (time_taken : Q) : Z :=
  Z.max 1 (py_int ((inject_Z QUESTION_TIME_LIMIT - time_taken) / 5)%Q + 1).

Definition handle_client_answer (conn_id c : nat) (data_answer : option string)
    (now : Q) : M world unit :=
  w ← get;
  match dict_get conn_id (clients (self w)) with
  | None => mret tt
  | Some cl =>
      if negb (active_game (self w))
         || (length (questions (self w)) <=? current_question_index (self w))%nat
      then mret tt
      else if (current_question_index (self w) <? length (answers cl))%nat
      then mret tt
      else
        let answer := strip (upper (default "" data_answer)) in
        match questions (self w) !! current_question_index (self w) with
        | None => raise IndexError
        | Some q =>
            let correct_answer := strip (q_answer q) in
            let is_correct := bool_decide (answer = correct_answer) in
            match question_start_time (self w) with
            | None => raise TypeError
            | Some started =>
                let time_taken := (now - started)%Q in
                let points := if is_correct then speed_points time_taken else 0 in
                let cl' := Client (conn cl) (addr cl) (name cl)
                             (score cl + points) (answers cl ++ [answer])
                             (answer_times cl ++ [time_taken]) in
                modify (set_self (set_clients (dict_set conn_id cl'))) ;;
                send_message c
                  (answer_result is_correct correct_answer points (score cl')
                     time_taken)
            end
        end
  end.

Definition start_game : M world unit :=
  w ← get;
  if (length (clients (self w)) =? 0)%nat then mret tt
  else if active_game (self w) then mret tt
  else
    modify (set_self (set_active_game true)) ;;
    modify (set_self (set_current_question_index 0)) ;;
    modify (set_self (set_clients (map (λ kc, (kc.1, reset_client kc.2))))) ;;
    w ← get;
    broadcast_message
      (game_start "Game starting!" (length (questions (self w)))) None ;;
    spawn (GameLoopThread (Head 0)).

(** The leaderboard of [game_loop] and [end_game]: one entry per item of
    [self.clients], then [sort(key=score, reverse=True)]. *)
Definition entry_of (c : client) : entry := Entry (name c) (score c).
Definition by_score_desc (x y : entry) : bool := (e_score y <=? e_score x)%Z.
Definition make_leaderboard (cs : list (nat * client)) : list entry :=
  py_sort by_score_desc (map (λ kc, entry_of kc.2) cs).

Definition end_game : M world unit :=
  modify (set_self (set_active_game false)) ;;
  w ← get;
  broadcast_message
    (game_end (make_leaderboard (clients (self w))) "Game finished!") None ;;
  modify (set_self (set_current_question_index 0)).

(** One step of the [game_loop] thread from program point [pc]; the result
    is the next program point, [None] once the thread has returned. *)
Definition game_loop_step (pc : loop_pc) (now : Q) : M world (option loop_pc) :=
  match pc with
  | Head i =>
      w ← get;
      match questions (self w) !! i with
      | None => mret (Some Finish)
      | Some _ =>
          if active_game (self w) then mret (Some (Begin i))
          else mret (Some Finish)
      end
  | Begin i =>
      modify (set_self (set_current_question_index i)) ;;
      modify (set_self (set_question_start_time (Some now))) ;;
      mret (Some (Send i))
  | Send i =>
      w ← get;
      match questions (self w) !! i with
      | None => raise KeyError
      | Some q =>
          broadcast_message
            (question_msg (i + 1) (length (questions (self w)))
               (q_question q) (q_options q) QUESTION_TIME_LIMIT) None ;;
          mret (Some (Close i))
      end
  | Close i =>
      w ← get;
      match questions (self w) !! i with
      | None => raise KeyError
      | Some q =>
          (if active_game (self w) then
             broadcast_message (question_end (q_answer q) (i + 1)) None ;;
             w ← get;
             broadcast_message
               (leaderboard (make_leaderboard (clients (self w))) (i + 1)
                  (length (questions (self w)))) None
           else mret tt) ;;
          mret (Some (Head (S i)))
      end
  | Finish => end_game ;; mret None
  end.

Definition handle_request_start_game (conn_id c : nat) : M world unit :=
  w ← get;
  if bool_decide (host_conn_id (self w) = None
                  ∨ Some conn_id ≠ host_conn_id (self w)) then
    send_message c (error "Only the host can start the game")
  else if negb (dict_mem conn_id (clients (self w))) then
    send_message c (error "Not registered")
  else if negb (active_game (self w))
          && (0 <? length (clients (self w)))%nat then
    spawn StartGameThread
  else send_message c (error "Cannot start game now").

(** The three parts of [handle_client]: the registration of the accepted
    connection, the handling of one decoded line, and the [finally]. *)
Definition handle_client_open (c : nat) (a : string * N) : M world nat :=
  w ← get;
  let conn_id := connection_counter (self w) in
  modify (set_self (set_connection_counter (conn_id + 1))) ;;
  modify (set_self (set_clients (dict_set conn_id (Client c a None 0 [] [])))) ;;
  w ← get;
  (if decide (host_conn_id (self w) = None)
   then modify (set_self (set_host_conn_id (Some conn_id)))
   else mret tt) ;;
  mret conn_id.

Definition handle_client_message (conn_id c : nat) (req : request) (now : Q)
    : M world unit :=
  try_except
    match req with
    | Register data_name => handle_client_register conn_id c data_name
    | Answer data_answer => handle_client_answer conn_id c data_answer now
    | StartGame => handle_request_start_game conn_id c
    | GetStatus =>
        w ← get;
        send_message c
          (status (active_game (self w)) (length (clients (self w)))
             (current_question_index (self w)))
    | UnknownType => send_message c (error "Unknown message type")
    | InvalidJson => send_message c (error "Invalid JSON")
    end
    (λ _, mret tt).

Definition handle_client_close (conn_id : nat) : M world unit :=
  remove_client conn_id.

(** What a background thread does when it is scheduled; a [game_loop]
    thread that has not returned goes back to the pool at its next program
    point. *)
Definition run_thread (t : thread) (now : Q) : M world unit :=
  match t with
  | StartGameThread => start_game
  | GameLoopThread pc =>
      next ← game_loop_step pc now;
      match next with
      | Some pc' => spawn (GameLoopThread pc')
      | None => mret tt
      end
  end.

Definition set_pool (ts : list thread) (w : world) : world :=
  World (self w) (wire w) (dead w) (closed w) ts.
Definition peer_gone (c : nat) (w : world) : world :=
  World (self w) (wire w) (c :: dead w) (closed w) (pool w).

(** [TCPQuizServer()] with the question bank [qs] loaded and shuffled. *)
Definition init (qs : list question) : world :=
  World (Server qs [] 0 false 0 None None) [] [] [] [].

(** The server as a transition system.  A step is one of: a connection is
    accepted; some connection thread handles a line; a connection thread
    reaches its [finally]; a peer goes away; a background thread runs up to
    its next program point.  [step_message] and [step_close] do not ask
    that [conn_id] and [c] belong to an open connection, so the relation
    has every run of the server and more. *)
Inductive step : world → world → Prop :=
  | step_open c a w r w' :
      handle_client_open c a w = (r, w') → step w w'
  | step_message conn_id c req now w r w' :
      handle_client_message conn_id c req now w = (r, w') → step w w'
  | step_close conn_id w r w' :
      handle_client_close conn_id w = (r, w') → step w w'
  | step_peer_gone c w :
      step w (peer_gone c w)
  | step_thread t ts1 ts2 now w r w' :
      pool w = ts1 ++ t :: ts2 →
      run_thread t now (set_pool (ts1 ++ ts2) w) = (r, w') → step w w'.

Definition reachable (qs : list question) (w : world) : Prop :=
  rtc step (init qs) w.

(** Scripts: a run of the transition system written down as the list of
    its steps, [Run i] scheduling the [i]-th thread of the pool. *)
Inductive action :=
  | Open (c : nat) (a : string * N)
  | Message (conn_id c : nat) (req : request) (now : Q)
  | Hangup (conn_id : nat)
  | PeerGone (c : nat)
  | Run (i : nat) (now : Q).

Definition act (a : action) (w : world) : option world :=
  match a with
  | Open c a => Some (handle_client_open c a w).2
  | Message conn_id c req now =>
      Some (handle_client_message conn_id c req now w).2
  | Hangup conn_id => Some (handle_client_close conn_id w).2
  | PeerGone c => Some (peer_gone c w)
  | Run i now =>
      match pool w !! i with
      | Some t => Some (run_thread t now (set_pool (delete i (pool w)) w)).2
      | None => None
      end
  end.

Fixpoint play (script : list action) (w : world) : option world :=
  match script with
  | [] => Some w
  | a :: script' =>
      match act a w with
      | Some w' => play script' w'
      | None => None
      end
  end.

(** The world a script leads to from a fresh server. *)
Definition run_script (qs : list question) (script : list action) : world :=
  default (init qs) (play script (init qs)).

(** The part of the world the round timeline lives in. *)
Definition game_view (w : world)
    : list question * bool * nat * option Q * list thread :=
  (questions (self w), active_game (self w), current_question_index (self w),
   question_start_time (self w), pool w).

(** Who is in the registry, and who is host. *)
Definition keys_host (w : world) : list nat * option nat :=
  (dict_keys (clients (self w)), host_conn_id (self w)).

(** The host is a key of the registry, and there is none exactly when the
    registry is empty. *)
Definition host_inv (w : world) : Prop :=
  match host_conn_id (self w) with
  | None => dict_keys (clients (self w)) = []
  | Some h => h ∈ dict_keys (clients (self w))
  end.

(** The [game_loop] threads of a pool, by program point. *)
Definition loops (ts : list thread) : list loop_pc :=
  omap (λ t, match t with
             | GameLoopThread pc => Some pc
             | StartGameThread => None
             end) ts.

(** Round [i] has been begun: the index points at it, it is a question of
    the bank, and its start has been stamped. *)
Definition round_open (i : nat) (s : server) : Prop :=
  current_question_index s = i
  ∧ (i < length (questions s))%nat
  ∧ question_start_time s ≠ None.

(** What the server state looks like when the [game_loop] thread stands at
    [pc]. *)
Definition pc_inv (pc : loop_pc) (s : server) : Prop :=
  match pc with
  | Head 0 => current_question_index s = 0%nat
  | Begin 0 =>
      current_question_index s = 0%nat ∧ (0 < length (questions s))%nat
  | Head (S i) => round_open i s
  | Begin (S i) => round_open i s ∧ (S i < length (questions s))%nat
  | Send i | Close i => round_open i s
  | Finish =>
      (questions s = [] ∧ current_question_index s = 0%nat)
      ∨ round_open (current_question_index s) s
  end.

(** A game is active exactly while one [game_loop] thread is alive, and the
    state matches the program point of that thread. *)
Definition timeline_inv (w : world) : Prop :=
  match loops (pool w) with
  | [] => active_game (self w) = false
  | [pc] => active_game (self w) = true ∧ pc_inv pc (self w)
  | _ => False
  end.

(** The [game_loop] thread of the current game has not stamped its first
    round yet. *)
Definition before_first_round (qs : list question) (pc : loop_pc) : bool :=
  match pc with
  | Head 0 | Begin 0 => true
  | Finish => bool_decide (qs = [])
  | _ => false
  end.
Definition first_round_pending (w : world) : bool :=
  existsb (before_first_round (questions (self w))) (loops (pool w)).

(** A player record is sound: the score is not negative, every recorded
    answer has its time, there are no more answers than questions, nor,
    while a game runs, than rounds begun. *)
Definition client_ok (s : server) (c : client) : Prop :=
  0 <= score c
  ∧ length (answers c) = length (answer_times c)
  ∧ (length (answers c) ≤ length (questions s))%nat
  ∧ (active_game s = true →
     (length (answers c) ≤ S (current_question_index s))%nat).
Definition players_inv (w : world) : Prop :=
  Forall (λ kc, client_ok (self w) kc.2) (clients (self w)).

(** Connection ids are handed out once: the keys of the registry are
    distinct and below the counter. *)
Definition ids_inv (w : world) : Prop :=
  NoDup (dict_keys (clients (self w)))
  ∧ Forall (λ k, (k < connection_counter (self w))%nat)
      (dict_keys (clients (self w))).

(** The question bank is the one loaded at start, ids are distinct and
    players are sound. *)
Definition data_inv (qs : list question) (w : world) : Prop :=
  questions (self w) = qs ∧ ids_inv w ∧ players_inv w.



End Tcp.

(** ** The connectionless server, [udp_quiz/server_udp.py] *)

Module Udp.

Definition QUESTION_TIME_LIMIT : Z := 10.

(** [UDP_REBROADCAST_EVERY] and [UDP_HEARTBEAT_EVERY], read from the
    environment when the module is loaded. *)
Record config := Config {
  REBROADCAST_INTERVAL : Q;
  HEARTBEAT_INTERVAL : Q
}.

Definition address : Type := string * N.

Record question := Question {
  q_question : string;
  q_options : list string;
  q_answer : string
}.

Definition load_questions (content : option string) : list question :=
  map (λ r, Question r.1.1 r.1.2 r.2) (load_question_records content).

Record client := Client {
  name : string;
  score : Z;
  answers : list string;
  answer_times : list Q
}.

Record server := Server {
  questions : list question;
  clients : list (address * client);
  active_game : bool;
  current_question_index : nat;
  question_start_time : option Q;
  seq : Z;
  _last_rebroadcast : Q;
  _last_heartbeat : Q
}.

Record entry := Entry { e_name : string; e_score : Z; e_address : string }.

(** Server-to-client messages, as in the other server; ['timestamp'] is
    left out and [time_taken] kept unrounded. *)
Inductive payload :=
  | error (message : string)
  | registered (message : string) (player_count : nat)
  | game_start (message : string) (total_questions : nat)
  | question_msg (question_number total_questions : nat) (text : string)
      (options : list string) (time_limit : Z)
  | answer_result (correct : bool) (correct_answer : string) (points : Z)
      (total_score : Z) (time_taken : Q)
  | question_end (correct_answer : string) (question_number : nat)
  | game_end (board : list entry) (message : string)
  | status (active : bool) (player_count : nat) (current_question : nat)
  | heartbeat (note : string).

Inductive request :=
  | Register (name : option string)
  | Answer (answer : option string)
  | StartGame
  | GetStatus
  | UnknownType
  | InvalidJson.

(** Program points of the [game_loop] thread; [Window i start] is the top
    of the rebroadcast loop of round [i], with its local [start]. *)
Inductive loop_pc :=
  | Head (i : nat)
  | Begin (i : nat)
  | Send (i : nat)
  | Window (i : nat) (start : Q)
  | Close (i : nat)
  | Finish.

Inductive thread :=
  | StartGameThread
  | GameLoopThread (pc : loop_pc).

(** A datagram handed to [sendto], in the order they are built, with the
    ['seq'] of its envelope and whether [sendto] went through. *)
Record datagram := Datagram {
  d_to : address;
  d_seq : Z;
  d_msg : payload;
  d_ok : bool
}.

Record world := World {
  self : server;
  cfg : config;
  wire : list datagram;
  unreachable : list address;
  pool : list thread
}.

Definition set_self (f : server → server) (w : world) : world :=
  World (f (self w)) (cfg w) (wire w) (unreachable w) (pool w).
Definition set_clients (f : list (address * client) → list (address * client))
    (s : server) : server :=
  Server (questions s) (f (clients s)) (active_game s)
    (current_question_index s) (question_start_time s) (seq s)
    (_last_rebroadcast s) (_last_heartbeat s).
Definition set_active_game (b : bool) (s : server) : server :=
  Server (questions s) (clients s) b
    (current_question_index s) (question_start_time s) (seq s)
    (_last_rebroadcast s) (_last_heartbeat s).
Definition set_current_question_index (i : nat) (s : server) : server :=
  Server (questions s) (clients s) (active_game s)
    i (question_start_time s) (seq s)
    (_last_rebroadcast s) (_last_heartbeat s).
Definition set_question_start_time (t : option Q) (s : server) : server :=
  Server (questions s) (clients s) (active_game s)
    (current_question_index s) t (seq s)
    (_last_rebroadcast s) (_last_heartbeat s).
Definition set_seq (n : Z) (s : server) : server :=
  Server (questions s) (clients s) (active_game s)
    (current_question_index s) (question_start_time s) n
    (_last_rebroadcast s) (_last_heartbeat s).
Definition set_last_rebroadcast (t : Q) (s : server) : server :=
  Server (questions s) (clients s) (active_game s)
    (current_question_index s) (question_start_time s) (seq s)
    t (_last_heartbeat s).
Definition set_last_heartbeat (t : Q) (s : server) : server :=
  Server (questions s) (clients s) (active_game s)
    (current_question_index s) (question_start_time s) (seq s)
    (_last_rebroadcast s) t.

Definition spawn (t : thread) : M world unit :=
  modify (λ w, World (self w) (cfg w) (wire w) (unreachable w) (pool w ++ [t])).

(** [_next_seq]: [self.seq += 1; return self.seq] *)
Definition _next_seq : M world Z :=
  modify (set_self (λ s, set_seq (seq s + 1) s)) ;;
  w ← get;
  mret (seq (self w)).

(** [self.sock.sendto(payload, address)] of the envelope carrying [n]. *)
Definition sendto (a : address) (n : Z) (p : payload) : M world unit := λ w,
  let ok := negb (bool_decide (a ∈ unreachable w)) in
  let w' := World (self w) (cfg w) (wire w ++ [Datagram a n p ok])
              (unreachable w) (pool w) in
  if ok then (Ok tt, w') else (Raise OSError, w').

(** [send_message]: the envelope, with its fresh ['seq'], is built before
    the [try]. *)
Definition send_message (a : address) (p : payload) : M world unit :=
  n ← _next_seq;
  try_except (sendto a n p) (λ _, mret tt).

Fixpoint broadcast_loop (keys : list address) (p : payload)
    (exclude_address : option address) : M world unit :=
  match keys with
  | [] => mret tt
  | a :: rest =>
      (if decide (Some a = exclude_address) then mret tt
       else send_message a p) ;;
      broadcast_loop rest p exclude_address
  end.

Definition broadcast_message (p : payload) (exclude_address : option address)
    : M world unit :=
  w ← get;
  broadcast_loop (dict_keys (clients (self w))) p exclude_address.

Definition handle_client_register (a : address) (data_name : option string)
    : M world unit :=
  w ← get;
  if active_game (self w) then
    send_message a (error "Game already in progress")
  else
    let player_name := default ("Player_" +:+ pretty a.2) data_name in
    modify (set_self (set_clients (dict_set a (Client player_name 0 [] [])))) ;;
    w ← get;
    send_message a
      (registered ("Welcome " +:+ player_name +:+ "!")
         (length (clients (self w)))).

(** [max(1, int((QUESTION_TIME_LIMIT - time_taken) / 5) + 1)] *)
Definition speed_points (time_taken : Q) : Z :=
  Z.max 1 (py_int ((inject_Z QUESTION_TIME_LIMIT - time_taken) / 5)%Q + 1).

Definition handle_client_answer (a : address) (data_answer : option string)
    (now : Q) : M world unit :=
  w ← get;
  match dict_get a (clients (self w)) with
  | None => mret tt
  | Some cl =>
      if negb (active_game (self w))
         || (length (questions (self w)) <=? current_question_index (self w))%nat
      then mret tt
      else if (current_question_index (self w) <? length (answers cl))%nat
      then mret tt
      else
        let answer := strip (upper (default "" data_answer)) in
        match questions (self w) !! current_question_index (self w) with
        | None => raise IndexError
        | Some q =>
            let correct_answer := strip (q_answer q) in
            let is_correct := bool_decide (answer = correct_answer) in
            match question_start_time (self w) with
            | None => raise TypeError
            | Some started =>
                let time_taken := (now - started)%Q in
                let points := if is_correct then speed_points time_taken else 0 in
                let cl' := Client (name cl) (score cl + points)
                             (answers cl ++ [answer])
                             (answer_times cl ++ [time_taken]) in
                modify (set_self (set_clients (dict_set a cl'))) ;;
                send_message a
                  (answer_result is_correct correct_answer points (score cl')
                     time_taken)
            end
        end
  end.

Definition reset_client (c : client) : client := Client (name c) 0 [] [].

Definition start_game : M world unit :=
  w ← get;
  if (length (clients (self w)) =? 0)%nat then mret tt
  else if active_game (self w) then mret tt
  else
    modify (set_self (set_active_game true)) ;;
    modify (set_self (set_current_question_index 0)) ;;
    modify (set_self (set_clients (map (λ kc, (kc.1, reset_client kc.2))))) ;;
    w ← get;
    broadcast_message
      (game_start "Game starting!" (length (questions (self w)))) None ;;
    spawn (GameLoopThread (Head 0)).

(** The final leaderboard: one entry per item of [self.clients], with the
    address printed as [host:port], then [sort(key=score, reverse=True)]. *)
Definition entry_of (kc : address * client) : entry :=
  Entry (name kc.2) (score kc.2) (kc.1.1 +:+ ":" +:+ pretty kc.1.2).
Definition by_score_desc (x y : entry) : bool := (e_score y <=? e_score x)%Z.
Definition make_leaderboard (cs : list (address * client)) : list entry :=
  py_sort by_score_desc (map entry_of cs).

Definition end_game : M world unit :=
  modify (set_self (set_active_game false)) ;;
  w ← get;
  broadcast_message
    (game_end (make_leaderboard (clients (self w))) "Game finished!") None ;;
  modify (set_self (set_current_question_index 0)).

Definition handle_request_start_game (a : address) : M world unit :=
  w ← get;
  if negb (dict_mem a (clients (self w))) then
    send_message a (error "Not registered")
  else if negb (active_game (self w))
          && (0 <? length (clients (self w)))%nat then
    spawn StartGameThread
  else send_message a (error "Cannot start game now").

Definition game_loop_step (pc : loop_pc) (now : Q) : M world (option loop_pc) :=
  match pc with
  | Head i =>
      w ← get;
      match questions (self w) !! i with
      | None => mret (Some Finish)
      | Some _ =>
          if active_game (self w) then mret (Some (Begin i))
          else mret (Some Finish)
      end
  | Begin i =>
      modify (set_self (set_current_question_index i)) ;;
      modify (set_self (set_question_start_time (Some now))) ;;
      mret (Some (Send i))
  | Send i =>
      w ← get;
      match questions (self w) !! i with
      | None => raise IndexError
      | Some q =>
          broadcast_message
            (question_msg (i + 1) (length (questions (self w)))
               (q_question q) (q_options q) QUESTION_TIME_LIMIT) None ;;
          modify (set_self (set_last_rebroadcast 0%Q)) ;;
          mret (Some (Window i now))
      end
  | Window i start =>
      w ← get;
      let elapsed := (now - start)%Q in
      if Qle_bool (inject_Z QUESTION_TIME_LIMIT) elapsed then
        mret (Some (Close i))
      else
        match questions (self w) !! i with
        | None => raise IndexError
        | Some q =>
            (if Qle_bool (REBROADCAST_INTERVAL (cfg w))
                  (elapsed - _last_rebroadcast (self w))%Q then
               broadcast_message
                 (question_msg (i + 1) (length (questions (self w)))
                    (q_question q) (q_options q) QUESTION_TIME_LIMIT) None ;;
               modify (set_self (set_last_rebroadcast elapsed))
             else mret tt) ;;
            mret (Some (Window i start))
        end
  | Close i =>
      w ← get;
      match questions (self w) !! i with
      | None => raise IndexError
      | Some q =>
          (if active_game (self w) then
             broadcast_message (question_end (q_answer q) (i + 1)) None
           else mret tt) ;;
          mret (Some (Head (S i)))
      end
  | Finish => end_game ;; mret None
  end.

(** [str(e)] for the exceptions a handler can let escape. *)
Definition exn_str (e : exn) : string :=
  match e with
  | TypeError => "unsupported operand type(s) for -: 'float' and 'NoneType'"
  | IndexError => "list index out of range"
  | KeyError => "KeyError"
  | OSError => "OSError"
  | RecursionError => "maximum recursion depth exceeded"
  end.

(** The two halves of one turn of [run]: the heartbeat test, and the
    handling of a received datagram. *)
Definition heartbeat_tick (now : Q) : M world unit :=
  w ← get;
  if Qle_bool (HEARTBEAT_INTERVAL (cfg w)) (now - _last_heartbeat (self w))%Q
     && (0 <? length (clients (self w)))%nat
  then
    broadcast_message (heartbeat "server heartbeat") None ;;
    modify (set_self (set_last_heartbeat now))
  else mret tt.

Definition handle_datagram (a : address) (req : request) (now : Q)
    : M world unit :=
  try_except
    match req with
    | Register data_name => handle_client_register a data_name
    | Answer data_answer => handle_client_answer a data_answer now
    | StartGame => handle_request_start_game a
    | GetStatus =>
        w ← get;
        send_message a
          (status (active_game (self w)) (length (clients (self w)))
             (current_question_index (self w)))
    | UnknownType => send_message a (error "Unknown message type")
    | InvalidJson => send_message a (error "Invalid JSON")
    end
    (λ e, send_message a (error (exn_str e))).

Definition run_thread (t : thread) (now : Q) : M world unit :=
  match t with
  | StartGameThread => start_game
  | GameLoopThread pc =>
      next ← game_loop_step pc now;
      match next with
      | Some pc' => spawn (GameLoopThread pc')
      | None => mret tt
      end
  end.

Definition set_pool (ts : list thread) (w : world) : world :=
  World (self w) (cfg w) (wire w) (unreachable w) ts.
Definition set_unreachable (l : list address) (w : world) : world :=
  World (self w) (cfg w) (wire w) l (pool w).

(** [UDPQuizServer()] with the question bank [qs] loaded and shuffled. *)
Definition init (c : config) (qs : list question) : world :=
  World (Server qs [] false 0 None 0 0%Q 0%Q) c [] [] [].

(** The server as a transition system: a heartbeat test, a datagram
    handled, a change of which addresses can be written to, or a background
    thread run up to its next program point. *)
Inductive step : world → world → Prop :=
  | step_heartbeat now w r w' :
      heartbeat_tick now w = (r, w') → step w w'
  | step_datagram a req now w r w' :
      handle_datagram a req now w = (r, w') → step w w'
  | step_network l w :
      step w (set_unreachable l w)
  | step_thread t ts1 ts2 now w r w' :
      pool w = ts1 ++ t :: ts2 →
      run_thread t now (set_pool (ts1 ++ ts2) w) = (r, w') → step w w'.

Definition reachable (c : config) (qs : list question) (w : world) : Prop :=
  rtc step (init c qs) w.

(** Scripts: a run of the transition system written down as the list of
    its steps, [Run i] scheduling the [i]-th thread of the pool. *)
Inductive action :=
  | Heartbeat (now : Q)
  | Receive (a : address) (req : request) (now : Q)
  | Network (l : list address)
  | Run (i : nat) (now : Q).

Definition act (a : action) (w : world) : option world :=
  match a with
  | Heartbeat now => Some (heartbeat_tick now w).2
  | Receive a req now => Some (handle_datagram a req now w).2
  | Network l => Some (set_unreachable l w)
  | Run i now =>
      match pool w !! i with
      | Some t => Some (run_thread t now (set_pool (delete i (pool w)) w)).2
      | None => None
      end
  end.

Fixpoint play (script : list action) (w : world) : option world :=
  match script with
  | [] => Some w
  | a :: script' =>
      match act a w with
      | Some w' => play script' w'
      | None => None
      end
  end.

(** The world a script leads to from a fresh server. *)
Definition run_script (c : config) (qs : list question)
    (script : list action) : world :=
  default (init c qs) (play script (init c qs)).

(** The [game_loop] threads of a pool, by program point. *)
Definition loops (ts : list thread) : list loop_pc :=
  omap (λ t, match t with
             | GameLoopThread pc => Some pc
             | StartGameThread => None
             end) ts.

(** The part of the world the round timeline lives in. *)
Definition timeline_view (w : world)
    : list question * bool * nat * option Q * list loop_pc :=
  (questions (self w), active_game (self w), current_question_index (self w),
   question_start_time (self w), loops (pool w)).

Definition round_open (i : nat) (s : server) : Prop :=
  current_question_index s = i
  ∧ (i < length (questions s))%nat
  ∧ question_start_time s ≠ None.

Definition pc_inv (pc : loop_pc) (s : server) : Prop :=
  match pc with
  | Head 0 => current_question_index s = 0%nat
  | Begin 0 =>
      current_question_index s = 0%nat ∧ (0 < length (questions s))%nat
  | Head (S i) => round_open i s
  | Begin (S i) => round_open i s ∧ (S i < length (questions s))%nat
  | Send i | Window i _ | Close i => round_open i s
  | Finish =>
      (questions s = [] ∧ current_question_index s = 0%nat)
      ∨ round_open (current_question_index s) s
  end.

Definition timeline_inv (w : world) : Prop :=
  match loops (pool w) with
  | [] => active_game (self w) = false
  | [pc] => active_game (self w) = true ∧ pc_inv pc (self w)
  | _ => False
  end.

Definition before_first_round (qs : list question) (pc : loop_pc) : bool :=
  match pc with
  | Head 0 | Begin 0 => true
  | Finish => bool_decide (qs = [])
  | _ => false
  end.
Definition first_round_pending (w : world) : bool :=
  existsb (before_first_round (questions (self w))) (loops (pool w)).



(** Vocabulary for statements about datagrams: the record of a [sendto] of
    [p] with sequence number [n] to [a] in world [w], and the world after
    one [send_message]. *)
Definition sent (w : world) (a : address) (n : Z) (p : payload) : datagram :=
  Datagram a n p (negb (bool_decide (a ∈ unreachable w))).
Definition after_send (a : address) (p : payload) (w : world) : world :=
  World (set_seq (seq (self w) + 1) (self w)) (cfg w)
    (wire w ++ [sent w a (seq (self w) + 1) p]) (unreachable w) (pool w).
Definition after_broadcast (keys : list address) (p : payload)
    (exclude_address : option address) (w : world) : world :=
  foldl (λ w a, if decide (Some a = exclude_address) then w
                else after_send a p w) w keys.

(** The session state proper: the server object without its sequence
    counter and its rebroadcast and heartbeat stamps. *)
Definition core (s : server)
    : list question * list (address * client) * bool * nat * option Q :=
  (questions s, clients s, active_game s, current_question_index s,
   question_start_time s).

(** A player record is sound: the score is not negative, every recorded
    answer has its time, there are no more answers than questions, nor,
    while a game runs, than rounds begun. *)
Definition client_ok (s : server) (c : client) : Prop :=
  0 <= score c
  ∧ length (answers c) = length (answer_times c)
  ∧ (length (answers c) ≤ length (questions s))%nat
  ∧ (active_game s = true →
     (length (answers c) ≤ S (current_question_index s))%nat).
Definition players_inv (w : world) : Prop :=
  Forall (λ kc, client_ok (self w) kc.2) (clients (self w)).

(** The question bank is the one loaded at start, addresses are distinct
    and players are sound. *)
Definition data_inv (qs : list question) (w : world) : Prop :=
  questions (self w) = qs
  ∧ NoDup (dict_keys (clients (self w)))
  ∧ players_inv w.

End Udp.

(** ** The text client of the connection-oriented game,
    [tcp_quiz/client_tcp.py] *)

Module TcpClient.

(** [self.current_question]: the data of the last [question] message, with
    the ['answered'] key the client adds to it. *)
Record shown := Shown {
  question_number : nat;
  total_questions : nat;
  text : string;
  options : list string;
  time_limit : Z;
  answered : bool
}.

(** The attributes of [TCPQuizClient] the handlers read and write. *)
Record client := Client {
  registered : bool;
  game_active : bool;
  current_question : option shown;
  question_start_time : option Q;
  running : bool
}.

Definition init : client := Client false false None None true.

Definition set_current_question (q : option shown) (s : client) : client :=
  Client (registered s) (game_active s) q (question_start_time s) (running s).

(** [handle_message], received at time [now]; what it prints is left out.
    There is no branch for [leaderboard] and [host_update]. *)
Definition handle_message (m : Tcp.payload) (now : Q) (s : client) : client :=
  match m with
  | Tcp.registered _ _ _ =>
      Client true (game_active s) (current_question s)
        (question_start_time s) (running s)
  | Tcp.game_start _ _ =>
      Client (registered s) true (current_question s)
        (question_start_time s) (running s)
  | Tcp.question_msg n t x o l =>
      Client (registered s) (game_active s) (Some (Shown n t x o l false))
        (Some now) (running s)
  | Tcp.answer_result _ _ _ _ _ => set_current_question None s
  | Tcp.question_end _ _ => set_current_question None s
  | Tcp.game_end _ _ =>
      Client (registered s) false None (question_start_time s) (running s)
  | _ => s
  end.

(** [if self.question_start_time: ... if elapsed > time_limit]: the test is
    skipped for [None] and for the float [0.0]. *)
Definition too_late (start : option Q) (now : Q) (limit : Z) : bool :=
  match start with
  | Some t0 =>
      negb (Qeq_bool t0 0) && negb (Qle_bool (now - t0) (inject_Z limit))
  | None => false
  end.

(** [submit_answer]: the messages handed to [send_message], and the state
    afterwards. *)
Definition submit_answer (answer : string) (now : Q) (s : client)
    : list Tcp.request * client :=
  if negb (game_active s) then ([], s)
  else
    match current_question s with
    | None => ([], s)
    | Some q =>
        if answered q then ([], s)
        else if too_late (question_start_time s) now (time_limit q)
        then ([], s)
        else
          ([Tcp.Answer (Some (strip (upper answer)))],
           set_current_question
             (Some (Shown (question_number q) (total_questions q) (text q)
                      (options q) (time_limit q) true)) s)
    end.

(** One turn of the input loop of [start] on the line [raw]. *)
Definition command (raw : string) (now : Q) (s : client)
    : list Tcp.request * client :=
  let user_input := lower (strip raw) in
  if bool_decide (user_input = "quit") then
    ([], Client (registered s) (game_active s) (current_question s)
           (question_start_time s) false)
  else if bool_decide (user_input = "start") then
    (if registered s then [Tcp.StartGame] else [], s)
  else if bool_decide (user_input = "status") then ([Tcp.GetStatus], s)
  else if negb (bool_decide (user_input = ""))
          && bool_decide (upper user_input ∈ ["A"; "B"; "C"; "D"]) then
    if game_active s then submit_answer user_input now s else ([], s)
  else ([], s).

(** What happens to the client, in order: a message from the server is
    handled by the receiver thread, or the input loop reads a line. *)
Inductive event :=
  | Receive (m : Tcp.payload) (now : Q)
  | Line (raw : string) (now : Q).

Definition react (e : event) (s : client) : list Tcp.request * client :=
  match e with
  | Receive m now => ([], handle_message m now s)
  | Line raw now => command raw now s
  end.

(** All the messages sent during a run of events, and the state at its
    end. *)
Fixpoint session (evs : list event) (s : client)
    : list Tcp.request * client :=
  match evs with
  | [] => ([], s)
  | e :: evs' =>
      let r := react e s in
      let r' := session evs' r.2 in
      (r.1 ++ r'.1, r'.2)
  end.

Definition is_answer (r : Tcp.request) : bool :=
  match r with Tcp.Answer _ => true | _ => false end.
Definition is_question (e : event) : bool :=
  match e with
  | Receive (Tcp.question_msg _ _ _ _ _) _ => true
  | _ => false
  end.

(** A question is held that has not been answered. *)
Definition pending (s : client) : bool :=
  match current_question s with
  | Some q => negb (answered q)
  | None => false
  end.

End TcpClient.

(** ** The text client of the connectionless game,
    [udp_quiz/client_udp.py] *)

Module UdpClient.

(** [self.current_question]: the data of the last [question] message. *)
Record shown := Shown {
  question_number : nat;
  total_questions : nat;
  text : string;
  options : list string;
  time_limit : Z
}.

Record client := Client {
  registered : bool;
  game_active : bool;
  current_question : option shown;
  question_start_time : option Q;
  running : bool
}.

Definition init : client := Client false false None None true.

Definition set_current_question (q : option shown) (s : client) : client :=
  Client (registered s) (game_active s) q (question_start_time s) (running s).

(** [handle_message], received at time [now]; what it prints is left out.
    There is no branch for [heartbeat]. *)
Definition handle_message (m : Udp.payload) (now : Q) (s : client) : client :=
  match m with
  | Udp.registered _ _ =>
      Client true (game_active s) (current_question s)
        (question_start_time s) (running s)
  | Udp.game_start _ _ =>
      Client (registered s) true (current_question s)
        (question_start_time s) (running s)
  | Udp.question_msg n t x o l =>
      Client (registered s) (game_active s) (Some (Shown n t x o l))
        (Some now) (running s)
  | Udp.game_end _ _ =>
      Client (registered s) false None (question_start_time s) (running s)
  | _ => s
  end.

Definition too_late (start : option Q) (now : Q) (limit : Z) : bool :=
  match start with
  | Some t0 =>
      negb (Qeq_bool t0 0) && negb (Qle_bool (now - t0) (inject_Z limit))
  | None => false
  end.

(** [submit_answer]: the current question is cleared once the answer has
    been handed to [send_message]. *)
Definition submit_answer (answer : string) (now : Q) (s : client)
    : list Udp.request * client :=
  if negb (game_active s) then ([], s)
  else
    match current_question s with
    | None => ([], s)
    | Some q =>
        if too_late (question_start_time s) now (time_limit q) then ([], s)
        else
          ([Udp.Answer (Some (strip (upper answer)))],
           set_current_question None s)
    end.

Definition command (raw : string) (now : Q) (s : client)
    : list Udp.request * client :=
  let user_input := lower (strip raw) in
  if bool_decide (user_input = "quit") then
    ([], Client (registered s) (game_active s) (current_question s)
           (question_start_time s) false)
  else if bool_decide (user_input = "start") then
    (if registered s then [Udp.StartGame] else [], s)
  else if bool_decide (user_input = "status") then ([Udp.GetStatus], s)
  else if negb (bool_decide (user_input = ""))
          && bool_decide (upper user_input ∈ ["A"; "B"; "C"; "D"]) then
    if game_active s then submit_answer user_input now s else ([], s)
  else ([], s).

(** What happens to the client, in order: a message from the server is
    handled by the receiver thread, or the input loop reads a line. *)
Inductive event :=
  | Receive (m : Udp.payload) (now : Q)
  | Line (raw : string) (now : Q).

Definition react (e : event) (s : client) : list Udp.request * client :=
  match e with
  | Receive m now => ([], handle_message m now s)
  | Line raw now => command raw now s
  end.

(** All the messages sent during a run of events, and the state at its
    end. *)
Fixpoint session (evs : list event) (s : client)
    : list Udp.request * client :=
  match evs with
  | [] => ([], s)
  | e :: evs' =>
      let r := react e s in
      let r' := session evs' r.2 in
      (r.1 ++ r'.1, r'.2)
  end.

Definition is_answer (r : Udp.request) : bool :=
  match r with Udp.Answer _ => true | _ => false end.
Definition is_question (e : event) : bool :=
  match e with
  | Receive (Udp.question_msg _ _ _ _ _) _ => true
  | _ => false
  end.

(** A question is held that has not been answered. *)
Definition pending (s : client) : bool :=
  match current_question s with
  | Some _ => true
  | None => false
  end.

End UdpClient.

(** ** Two small games, as scripts *)

Module Scenario.

(** Connection-oriented: Alice (connection 0, socket 10) and Bob
    (connection 1, socket 11) register, Alice starts a two-question game. *)
Definition tcp_bank : list Tcp.question :=
  [ Tcp.Question "2 + 2 = ?" ["A) 3"; "B) 4"] "B";
    Tcp.Question "Capital of France?" ["A) Paris"; "B) Rome"] "A" ].

Definition tcp_lobby : list Tcp.action :=
  [ Tcp.Open 10 ("10.0.0.1", 5000%N);
    Tcp.Open 11 ("10.0.0.2", 5001%N);
    Tcp.Message 0 10 (Tcp.Register (Some "Alice")) 1;
    Tcp.Message 1 11 (Tcp.Register (Some "Bob")) 2 ].

(** [start_game] has run; [game_loop] has not started its first round. *)
Definition tcp_started : list Tcp.action :=
  tcp_lobby ++ [ Tcp.Message 0 10 Tcp.StartGame 3; Tcp.Run 0 4 ].

(** Round 0 stamped at time 100, its question sent. *)
Definition tcp_round0 : list Tcp.action :=
  tcp_started ++ [ Tcp.Run 0 5; Tcp.Run 0 100; Tcp.Run 0 100 ].

(** Round 0 closed at time 110; nobody answered. *)
Definition tcp_round0_closed : list Tcp.action :=
  tcp_round0 ++ [ Tcp.Run 0 110 ].

(** Round 1 stamped at time 112, its question sent. *)
Definition tcp_round1 : list Tcp.action :=
  tcp_round0_closed ++ [ Tcp.Run 0 112; Tcp.Run 0 112; Tcp.Run 0 112 ].

(** Connectionless: the same game with two addresses. *)
Definition udp_config : Udp.config := Udp.Config 2 2.
Definition alice : Udp.address := ("10.0.0.1", 40000%N).
Definition bob : Udp.address := ("10.0.0.2", 40001%N).
Definition stranger : Udp.address := ("10.0.0.9", 40009%N).

Definition udp_bank : list Udp.question :=
  [ Udp.Question "2 + 2 = ?" ["A) 3"; "B) 4"] "B";
    Udp.Question "Capital of France?" ["A) Paris"; "B) Rome"] "A" ].

Definition udp_lobby : list Udp.action :=
  [ Udp.Receive alice (Udp.Register (Some "Alice")) 1;
    Udp.Receive bob (Udp.Register (Some "Bob")) 2 ].

Definition udp_started : list Udp.action :=
  udp_lobby ++ [ Udp.Receive alice Udp.StartGame 3; Udp.Run 0 4 ].

Definition udp_round0 : list Udp.action :=
  udp_started ++ [ Udp.Run 0 5; Udp.Run 0 100; Udp.Run 0 100 ].

Definition udp_round0_closed : list Udp.action :=
  udp_round0 ++ [ Udp.Run 0 110; Udp.Run 0 110 ].

Definition udp_round1 : list Udp.action :=
  udp_round0_closed ++ [ Udp.Run 0 112; Udp.Run 0 112; Udp.Run 0 112 ].

End Scenario.

(** * Properties *)

(** ** Facts about the Python primitives *)

Module PyFacts.

Ltac munfold :=
  unfold mbind, mret, M_bind, M_ret, get, modify, raise, try_except in *.

Section sort_facts.
Context {A : Type} (before : A → A → bool).
Hypothesis before_total : ∀ x y, before x y = false → before y x = true.

Lemma sort_insert_perm x l : Permutation (x :: l) (sort_insert before x l).
Proof.
  induction l as [|y l IH]; simpl; [done|].
  destruct (before x y); [done|].
  rewrite perm_swap. by constructor.
Qed.

Lemma py_sort_perm l : Permutation l (py_sort before l).
Proof.
  induction l as [|x l IH]; simpl; [done|].
  rewrite <- sort_insert_perm. by constructor.
Qed.

Lemma sort_insert_hd x l a :
  HdRel (λ u v, before u v = true) a l → before a x = true →
  HdRel (λ u v, before u v = true) a (sort_insert before x l).
Proof.
  intros Hl Hx. destruct l as [|y l]; simpl; [by constructor|].
  destruct (before x y); constructor; [done|]. by inversion Hl.
Qed.

Lemma sort_insert_sorted x l :
  Sorted (λ u v, before u v = true) l →
  Sorted (λ u v, before u v = true) (sort_insert before x l).
Proof.
  induction 1 as [|y l Hs IH Hhd]; simpl.
  - repeat constructor.
  - destruct (before x y) eqn:E.
    + constructor; [by constructor|by constructor].
    + constructor; [done|]. apply sort_insert_hd; auto.
Qed.

Lemma py_sort_sorted l : Sorted (λ u v, before u v = true) (py_sort before l).
Proof.
  induction l as [|x l IH]; simpl; [constructor|].
  by apply sort_insert_sorted.
Qed.
End sort_facts.

(** The sort is stable: the elements of a class whose members may all stay
    in front of each other come out in their original order. *)
Section sort_stable.
Context {A : Type} (before : A → A → bool).
Context (P : A → Prop) `{∀ x, Decision (P x)}.
Hypothesis class_kept : ∀ x y, P x → P y → before x y = true.

Lemma sort_insert_filter x l :
  filter P (sort_insert before x l) = filter P (x :: l).
Proof.
  induction l as [|y l IH]; simpl; [done|].
  destruct (before x y) eqn:E; [done|].
  rewrite (filter_cons P y), IH, !(filter_cons P x), (filter_cons P y).
  repeat case_decide; try done.
  rewrite class_kept in E by done. done.
Qed.

Lemma py_sort_filter l : filter P (py_sort before l) = filter P l.
Proof.
  induction l as [|x l IH]; simpl; [done|].
  rewrite sort_insert_filter, !filter_cons, IH. done.
Qed.
End sort_stable.

Lemma py_sort_length {A} (before : A → A → bool) l :
  length (py_sort before l) = length l.
Proof. symmetry. apply Permutation_length, py_sort_perm. Qed.

(** The head of an ascending sort of numbers is their minimum. *)
Lemma head_sort_min (l : list nat) h :
  head (py_sort Nat.leb l) = Some h → h ∈ l ∧ ∀ k, k ∈ l → (h ≤ k)%nat.
Proof.
  intros Hh.
  assert (Hs : Sorted (λ u v, Nat.leb u v = true) (py_sort Nat.leb l)).
  { apply py_sort_sorted. intros x y H.
    apply Nat.leb_le. apply Nat.leb_gt in H. lia. }
  apply Sorted_StronglySorted in Hs.
  2:{ intros x y z H1 H2. apply Nat.leb_le. apply Nat.leb_le in H1, H2. lia. }
  pose proof (py_sort_perm Nat.leb l) as Hp.
  destruct (py_sort Nat.leb l) as [|h' t] eqn:E; simplify_eq/=.
  split.
  - rewrite Hp. left.
  - intros k Hk. rewrite Hp in Hk. apply StronglySorted_inv in Hs as [_ Hall].
    apply elem_of_cons in Hk as [->|Hk]; [done|].
    apply Nat.leb_le. by eapply (proj1 (Forall_forall _ _) Hall).
Qed.

Lemma head_sort_is_Some {A} (before : A → A → bool) l :
  l ≠ [] → is_Some (head (py_sort before l)).
Proof.
  intros Hl. pose proof (py_sort_length before l) as Hlen.
  destruct (py_sort before l); simpl; [|by eexists].
  destruct l; simplify_eq/=.
Qed.

(** [int()] of a float is its floor when it is not negative, and is not
    positive when it is negative. *)
Lemma py_int_floor (q : Q) : (0 <= q)%Q → py_int q = Qfloor q.
Proof.
  destruct q as [n d]. unfold Qle, py_int, Qfloor. simpl. intros H.
  apply Z.quot_div_nonneg; lia.
Qed.

Lemma py_int_neg (q : Q) : (q < 0)%Q → py_int q <= 0.
Proof.
  destruct q as [n d]. unfold Qlt, py_int. simpl. intros H.
  assert (Hn : 0 <= - n) by lia.
  pose proof (Z.quot_pos (- n) (Z.pos d) Hn ltac:(lia)) as Hq.
  rewrite Z.quot_opp_l in Hq by lia. lia.
Qed.

Lemma Qdiv5_nonneg (x : Q) : (0 <= x)%Q → (0 <= x / 5)%Q.
Proof. intros H. apply Qle_shift_div_l; [reflexivity|]. by rewrite Qmult_0_l. Qed.

Lemma Qdiv5_neg (x : Q) : (x < 0)%Q → (x / 5 < 0)%Q.
Proof. intros H. apply Qlt_shift_div_r; [reflexivity|]. by rewrite Qmult_0_l. Qed.

Lemma Qminus_neg (a b : Q) : (a < b)%Q → (a - b < 0)%Q.
Proof.
  intros H. apply Qlt_minus_iff in H. apply Qlt_minus_iff.
  eapply Qlt_le_trans; [exact H|]. apply Qle_lteq. right. ring.
Qed.

(** Strings. *)








Lemma lstrip_chars_spaces l1 l2 :
  Forall (λ c, is_space c = true) l1 →
  lstrip_chars (l1 ++ l2) = lstrip_chars l2.
Proof. induction 1 as [|c l1 Hc _ IH]; simpl; [done|]. by rewrite Hc. Qed.


(** *** [strip] is idempotent *)

Lemma lstrip_chars_head l :
  match lstrip_chars l with
  | [] => True
  | c :: _ => is_space c = false
  end.
Proof.
  induction l as [|c l IH]; simpl; [done|].
  destruct (is_space c) eqn:E; [done|]. by rewrite E.
Qed.

Lemma lstrip_chars_fixed l :
  match l with [] => True | c :: _ => is_space c = false end →
  lstrip_chars l = l.
Proof. destruct l as [|c l]; simpl; [done|]. by intros ->. Qed.

Lemma lstrip_chars_idemp l : lstrip_chars (lstrip_chars l) = lstrip_chars l.
Proof. apply lstrip_chars_fixed, lstrip_chars_head. Qed.

Lemma lstrip_chars_split l :
  ∃ sp, l = sp ++ lstrip_chars l ∧ Forall (λ c, is_space c = true) sp.
Proof.
  induction l as [|c l (sp & Hl & Hsp)]; simpl; [by exists []|].
  destruct (is_space c) eqn:E.
  - exists (c :: sp). split; [by rewrite Hl at 1|by constructor].
  - by exists [].
Qed.

Lemma rstrip_chars_idemp l : rstrip_chars (rstrip_chars l) = rstrip_chars l.
Proof. unfold rstrip_chars. by rewrite rev_involutive, lstrip_chars_idemp. Qed.

Lemma rstrip_chars_head c l :
  is_space c = false → ∃ l', rstrip_chars (c :: l) = c :: l'.
Proof.
  intros Hc. unfold rstrip_chars.
  destruct (lstrip_chars_split (rev (c :: l))) as (sp & Hl & Hsp).
  apply (f_equal (@rev ascii)) in Hl.
  rewrite rev_involutive, rev_app_distr in Hl.
  destruct (rev (lstrip_chars (rev (c :: l)))) as [|c' l'] eqn:E.
  - simpl in Hl. apply Forall_rev in Hsp. rewrite <- Hl in Hsp.
    apply Forall_cons in Hsp as [Hsp _]. congruence.
  - simpl in Hl. injection Hl as <- _. by exists l'.
Qed.

Lemma strip_chars_idemp l :
  rstrip_chars (lstrip_chars (rstrip_chars (lstrip_chars l)))
  = rstrip_chars (lstrip_chars l).
Proof.
  pose proof (lstrip_chars_head l) as Hh.
  destruct (lstrip_chars l) as [|c m]; [done|].
  destruct (rstrip_chars_head c m Hh) as (l' & Hr).
  rewrite <- (rstrip_chars_idemp (c :: m)) at 2. f_equal.
  rewrite Hr. apply lstrip_chars_fixed. done.
Qed.

Lemma strip_idemp s : strip (strip s) = strip s.
Proof.
  unfold strip. rewrite list_ascii_of_string_of_list_ascii.
  by rewrite strip_chars_idemp.
Qed.

Lemma strip_all_space s : all_space s → strip s = "".
Proof.
  unfold all_space, strip. intros H.
  rewrite <- (app_nil_r (list_ascii_of_string s)).
  by rewrite lstrip_chars_spaces.
Qed.

(** *** [load_questions] *)

Lemma scan_lines_inv lines options answer options' answer' :
  scan_lines lines options answer = (options', answer') →
  Forall (λ o, o ≠ "" ∧ strip o = o) options →
  (∀ a, answer = Some a → strip a = a) →
  Forall (λ o, o ≠ "" ∧ strip o = o) options'
  ∧ (∀ a, answer' = Some a → strip a = a).
Proof.
  revert options answer.
  induction lines as [|line rest IH]; intros options answer; simpl.
  - by intros [= <- <-].
  - destruct (String.prefix "ANSWER:" line).
    + intros Hs Ho Ha. apply (IH _ _ Hs Ho).
      intros a [= <-]. apply strip_idemp.
    + case_bool_decide as Hb.
      * apply IH.
      * intros Hs Ho Ha. apply (IH _ _ Hs); [|done].
        apply Forall_app. split; [done|].
        constructor; [|done]. split; [done|apply strip_idemp].
Qed.

Lemma load_block_well_formed block q opts a :
  load_block block = Some (q, opts, a) →
  q ≠ "" ∧ opts ≠ []
  ∧ Forall (λ o, o ≠ "" ∧ strip o = o) opts
  ∧ a ≠ "" ∧ strip a = a.
Proof.
  unfold load_block. case_bool_decide; [done|].
  destruct (split newline (strip block)) as [|question rest]; [done|].
  destruct (scan_lines rest [] None) as [options [answer|]] eqn:E; [|done].
  destruct (scan_lines_inv _ _ _ _ _ E) as [Ho Ha]; [done..|].
  repeat case_bool_decide; simpl; try done.
  intros [= <- <- <-]. auto 10.
Qed.

Lemma load_question_records_well_formed content q opts a :
  (q, opts, a) ∈ load_question_records content →
  q ≠ "" ∧ opts ≠ []
  ∧ Forall (λ o, o ≠ "" ∧ strip o = o) opts
  ∧ a ≠ "" ∧ strip a = a.
Proof.
  destruct content as [text|]; simpl; [|by intros ?%elem_of_nil].
  intros (block & _ & Hb)%list_elem_of_omap.
  by apply (load_block_well_formed block).
Qed.

Lemma load_question_records_blank text :
  all_space text → load_question_records (Some text) = [].
Proof. intros H. simpl. by rewrite strip_all_space. Qed.

(** The lines of a block: option lines, then the answer line. *)
Lemma scan_lines_options opts rest options answer :
  Forall (λ o, String.prefix "ANSWER:" o = false ∧ strip o ≠ "") opts →
  scan_lines (opts ++ rest) options answer
  = scan_lines rest (options ++ map strip opts) answer.
Proof.
  intros H. revert options.
  induction H as [|o opts [Hp Hs] _ IH]; intros options; simpl.
  - by rewrite app_nil_r.
  - rewrite Hp. rewrite bool_decide_eq_false_2 by done.
    rewrite IH. by rewrite <- app_assoc.
Qed.

Lemma split_answer_tag a :
  String.prefix "ANSWER:" ("ANSWER:" +:+ a) = true
  ∧ split "ANSWER:" ("ANSWER:" +:+ a) = "" :: split "ANSWER:" a.
Proof. by destruct a. Qed.

Lemma load_block_parses block q opts a :
  split newline (strip block) = q :: opts ++ ["ANSWER:" +:+ a] →
  q ≠ "" → opts ≠ [] →
  Forall (λ o, String.prefix "ANSWER:" o = false ∧ strip o ≠ "") opts →
  split "ANSWER:" a = [a] → strip a ≠ "" →
  load_block block = Some (q, map strip opts, strip a).
Proof.
  intros Hlines Hq Hopts Hall Ha Hna. unfold load_block.
  case_bool_decide as Hb.
  { rewrite Hb in Hlines. vm_compute in Hlines. destruct opts; simplify_eq. }
  rewrite Hlines, scan_lines_options by done.
  unfold scan_lines.
  destruct (split_answer_tag a) as [-> ->]. rewrite Ha. simpl.
  rewrite (bool_decide_eq_false_2 (q = "")) by done.
  rewrite (bool_decide_eq_false_2 (strip a = "")) by done.
  rewrite bool_decide_eq_false_2; [done|].
  destruct opts; [done|]. simpl. discriminate.
Qed.

(** *** The points formula *)

Lemma py_int_ceiling (q : Q) : (q <= 0)%Q → py_int q = Qceiling q.
Proof.
  destruct q as [n d]. unfold Qle, py_int, Qceiling, Qfloor, Qopp. simpl.
  intros H. rewrite <- (Z.opp_involutive n) at 1.
  rewrite Z.quot_opp_l by lia. f_equal. apply Z.quot_div_nonneg; lia.
Qed.

Lemma py_int_mono (x y : Q) : (x <= y)%Q → py_int x <= py_int y.
Proof.
  intros Hxy. destruct (Qlt_le_dec x 0) as [Hx|Hx], (Qlt_le_dec y 0) as [Hy|Hy].
  - rewrite !py_int_ceiling by lra. by apply Qceiling_resp_le.
  - pose proof (py_int_neg x Hx). rewrite (py_int_floor y Hy).
    pose proof (Qfloor_resp_le 0 y Hy) as Hf.
    change (Qfloor 0) with 0 in Hf. lia.
  - lra.
  - rewrite !py_int_floor by done. by apply Qfloor_resp_le.
Qed.

(** [max(1, int((10 - e) / 5) + 1)], as a function of [e]. *)
Lemma points_table (e : Q) :
  let p := Z.max 1 (py_int ((inject_Z 10 - e) / 5) + 1) in
  ((e <= 0)%Q → 3 <= p)
  ∧ ((e == 0)%Q → p = 3)
  ∧ ((0 < e)%Q → (e <= 5)%Q → p = 2)
  ∧ ((5 < e)%Q → p = 1).
Proof.
  cbv zeta. change (inject_Z 10) with 10%Q. repeat split.
  - intros He.
    assert (H : (2 <= (10 - e) / 5)%Q) by (apply Qle_shift_div_l; [reflexivity|lra]).
    apply py_int_mono in H. change (py_int 2) with 2 in H. lia.
  - intros He.
    assert (H1 : (2 <= (10 - e) / 5)%Q) by (apply Qle_shift_div_l; [reflexivity|lra]).
    assert (H2 : ((10 - e) / 5 <= 2)%Q) by (apply Qle_shift_div_r; [reflexivity|lra]).
    apply py_int_mono in H1, H2. change (py_int 2) with 2 in *. lia.
  - intros H0 H5.
    assert (H1 : (1 <= (10 - e) / 5)%Q) by (apply Qle_shift_div_l; [reflexivity|lra]).
    assert (H2 : ((10 - e) / 5 < 2)%Q) by (apply Qlt_shift_div_r; [reflexivity|lra]).
    rewrite py_int_floor by lra.
    pose proof (Qfloor_resp_le _ _ H1) as Hlo. change (Qfloor 1) with 1 in Hlo.
    pose proof (Qfloor_le ((10 - e) / 5)) as Hf.
    assert (Hhi : (inject_Z (Qfloor ((10 - e) / 5)) < inject_Z 2)%Q).
    { change (inject_Z 2) with 2%Q. lra. }
    rewrite <- Zlt_Qlt in Hhi. lia.
  - intros H5.
    assert (H : ((10 - e) / 5 <= 1 # 1)%Q) by (apply Qle_shift_div_r; [reflexivity|lra]).
    destruct (Qlt_le_dec ((10 - e) / 5) 0) as [Hn|Hn].
    + pose proof (py_int_neg _ Hn). lia.
    + rewrite py_int_floor by done.
      assert (H2 : ((10 - e) / 5 < 1)%Q) by (apply Qlt_shift_div_r; [reflexivity|lra]).
      pose proof (Qfloor_le ((10 - e) / 5)) as Hf.
      assert (Hhi : (inject_Z (Qfloor ((10 - e) / 5)) < inject_Z 1)%Q).
      { change (inject_Z 1) with 1%Q. lra. }
      rewrite <- Zlt_Qlt in Hhi. lia.
Qed.

Lemma points_antitone (e1 e2 : Q) :
  (e1 <= e2)%Q →
  Z.max 1 (py_int ((inject_Z 10 - e2) / 5) + 1)
  <= Z.max 1 (py_int ((inject_Z 10 - e1) / 5) + 1).
Proof.
  intros H.
  assert (Hq : ((inject_Z 10 - e2) / 5 <= (inject_Z 10 - e1) / 5)%Q).
  { change (inject_Z 10) with 10%Q. unfold Qdiv.
    apply Qmult_le_compat_r; [lra|discriminate]. }
  apply py_int_mono in Hq. lia.
Qed.

(** Rules for [preserves], one per construct of the monad. *)
Section preserves.
Context {S : Type} (P : S → Prop).

Lemma preserves_ret {A} (a : A) : preserves P (mret a : M S A).
Proof. by intros s r s' [= <- <-]. Qed.

Lemma preserves_raise {A} e : preserves P (raise e : M S A).
Proof. by intros s r s' [= <- <-]. Qed.

Lemma preserves_get : preserves P (get : M S S).
Proof. by intros s r s' [= <- <-]. Qed.

Lemma preserves_modify f : (∀ s, P s → P (f s)) → preserves P (modify f).
Proof. intros Hf s r s' [= <- <-]. apply Hf. Qed.

Lemma preserves_bind {A B} (m : M S A) (k : A → M S B) :
  preserves P m → (∀ a, preserves P (k a)) → preserves P (m ≫= k).
Proof.
  intros Hm Hk s r s'. munfold. destruct (m s) as [[a|e] s1] eqn:E.
  - intros H1 HP. eapply Hk; [done|]. by eapply Hm.
  - intros [= <- <-]. by eapply Hm.
Qed.

Lemma preserves_try {A} (m : M S A) (h : exn → M S A) :
  preserves P m → (∀ e, preserves P (h e)) → preserves P (try_except m h).
Proof.
  intros Hm Hh s r s'. munfold. destruct (m s) as [[a|e] s1] eqn:E.
  - intros [= <- <-]. by eapply Hm.
  - intros H1 HP. eapply Hh; [done|]. by eapply Hm.
Qed.

Lemma preserves_for_each {A} (l : list A) (body : A → M S unit) :
  (∀ x, preserves P (body x)) → preserves P (for_each l body).
Proof.
  intros Hb. induction l as [|x l IH]; simpl.
  - apply preserves_ret.
  - apply preserves_bind; [apply Hb|by intros _].
Qed.
End preserves.

Lemma StronglySorted_weaken {A} (R R' : A → A → Prop) l :
  (∀ x y, R x y → R' x y) → StronglySorted R l → StronglySorted R' l.
Proof.
  intros HR. induction 1 as [|a l Hs IH Hall]; constructor; [done|].
  eapply Forall_impl; [done|]. auto.
Qed.


(** Dictionaries. *)
Section dict_facts.
Context {K V : Type} `{EqDecision K}.
Implicit Types (d : list (K * V)) (k : K) (v : V).

Lemma dict_get_set_eq k v d : dict_get k (dict_set k v d) = Some v.
Proof.
  induction d as [|[k' v'] d IH]; simpl; repeat case_decide; simpl;
    repeat case_decide; congruence.
Qed.

Lemma dict_get_set_ne k k' v d :
  k ≠ k' → dict_get k' (dict_set k v d) = dict_get k' d.
Proof.
  intros Hne. induction d as [|[k2 v2] d IH]; simpl; repeat case_decide;
    simpl; repeat case_decide; congruence.
Qed.

Lemma dict_get_del_eq k d : dict_get k (dict_del k d) = None.
Proof.
  induction d as [|[k' v'] d IH]; simpl; repeat case_decide; simpl;
    repeat case_decide; congruence.
Qed.

Lemma dict_get_del_ne k k' d :
  k ≠ k' → dict_get k' (dict_del k d) = dict_get k' d.
Proof.
  intros Hne. induction d as [|[k2 v2] d IH]; simpl; repeat case_decide;
    simpl; repeat case_decide; congruence.
Qed.

Lemma dict_get_keys k d : is_Some (dict_get k d) ↔ k ∈ dict_keys d.
Proof.
  unfold dict_keys. induction d as [|[k' v'] d IH]; simpl.
  - split; [by intros [? ?]|by intros ?%elem_of_nil].
  - rewrite elem_of_cons. case_decide as Hk.
    + split; [by left|by eexists].
    + rewrite IH. split; [by right|]. by intros [?|?].
Qed.

Lemma dict_get_elem k v d : dict_get k d = Some v → (k, v) ∈ d.
Proof.
  induction d as [|[k' v'] d IH]; simpl; [done|].
  case_decide; intros; simplify_eq; [left|right; auto].
Qed.

Lemma dict_keys_set_present k v d :
  is_Some (dict_get k d) → dict_keys (dict_set k v d) = dict_keys d.
Proof.
  unfold dict_keys. induction d as [|[k' v'] d IH]; simpl.
  - by intros [? ?].
  - case_decide; simpl; [by subst|]. intros Hd. f_equal. by apply IH.
Qed.

Lemma dict_set_length_present k v d :
  is_Some (dict_get k d) → length (dict_set k v d) = length d.
Proof.
  intros H. apply dict_keys_set_present with (v := v) in H.
  unfold dict_keys in H. apply (f_equal length) in H.
  by rewrite !length_fmap in H.
Qed.

Lemma dict_del_elem k' v' k d :
  (k', v') ∈ dict_del k d ↔ (k', v') ∈ d ∧ k' ≠ k.
Proof.
  induction d as [|[k2 v2] d IH]; simpl.
  - rewrite elem_of_nil. naive_solver.
  - case_decide; rewrite ?elem_of_cons, IH; naive_solver.
Qed.

Lemma dict_keys_del k' k d : k' ∈ dict_keys (dict_del k d) ↔ k' ∈ dict_keys d ∧ k' ≠ k.
Proof.
  rewrite <- !dict_get_keys. destruct (decide (k = k')) as [->|Hne].
  - rewrite dict_get_del_eq. split; [by intros [? ?]|naive_solver].
  - rewrite dict_get_del_ne by done. naive_solver.
Qed.

Lemma dict_keys_set k k' v d :
  k' ∈ dict_keys (dict_set k v d) ↔ k' = k ∨ k' ∈ dict_keys d.
Proof.
  rewrite <- !dict_get_keys. destruct (decide (k = k')) as [->|Hne].
  - rewrite dict_get_set_eq. split; [by left|by eexists].
  - rewrite dict_get_set_ne by done. split; [by right|]. by intros [?|?].
Qed.

Lemma dict_set_Forall (P : K * V → Prop) k v d :
  P (k, v) → Forall P d → Forall P (dict_set k v d).
Proof.
  intros Hkv. induction 1 as [|[k' v'] d Hx Hd IH]; simpl.
  - by repeat constructor.
  - case_decide; constructor; auto.
Qed.

Lemma dict_del_Forall (P : K * V → Prop) k d :
  Forall P d → Forall P (dict_del k d).
Proof.
  induction 1 as [|[k' v'] d Hx Hd IH]; simpl; [done|].
  case_decide; [done|]. by constructor.
Qed.

Lemma dict_get_Forall (P : K * V → Prop) k v d :
  dict_get k d = Some v → Forall P d → P (k, v).
Proof.
  intros Hg Hall. apply dict_get_elem in Hg.
  by apply (proj1 (Forall_forall _ _) Hall).
Qed.

Lemma dict_keys_set_absent k v d :
  dict_get k d = None → dict_keys (dict_set k v d) = dict_keys d ++ [k].
Proof.
  unfold dict_keys. induction d as [|[k' v'] d IH]; simpl; [done|].
  case_decide; [done|]. intros Hd. simpl. f_equal. by apply IH.
Qed.

Lemma dict_set_NoDup k v d :
  NoDup (dict_keys d) → NoDup (dict_keys (dict_set k v d)).
Proof.
  intros Hd. destruct (dict_get k d) as [v'|] eqn:E.
  - by rewrite dict_keys_set_present by eauto.
  - rewrite dict_keys_set_absent by done. apply NoDup_app.
    split; [done|]. split; [|apply NoDup_singleton].
    intros k' Hin ->%list_elem_of_singleton.
    apply dict_get_keys in Hin as [? ?]. congruence.
Qed.

Lemma dict_del_NoDup k d :
  NoDup (dict_keys d) → NoDup (dict_keys (dict_del k d)).
Proof.
  unfold dict_keys. induction d as [|[k' v'] d IH]; simpl; [done|].
  intros [Hnin Hd]%NoDup_cons. case_decide; [by apply IH|].
  simpl. apply NoDup_cons. split; [|by apply IH].
  intros Hin. apply Hnin. by apply (dict_keys_del k' k d).
Qed.

Lemma dict_get_set k k' v d :
  dict_get k' (dict_set k v d)
  = if decide (k = k') then Some v else dict_get k' d.
Proof.
  case_decide as H; [subst; apply dict_get_set_eq|by apply dict_get_set_ne].
Qed.

(** Writing a value over itself changes nothing; writing twice is writing
    once. *)
Lemma dict_set_set k v v' d :
  dict_set k v (dict_set k v' d) = dict_set k v d.
Proof.
  induction d as [|[k2 v2] d IH]; simpl; repeat (case_decide; simpl);
    congruence.
Qed.

Lemma dict_set_absent k v d :
  dict_get k d = None → dict_set k v d = d ++ [(k, v)].
Proof.
  induction d as [|[k' v'] d IH]; simpl; [done|].
  case_decide; [done|]. intros Hd. f_equal. by apply IH.
Qed.

Lemma dict_del_absent k d : dict_get k d = None → dict_del k d = d.
Proof.
  induction d as [|[k' v'] d IH]; simpl; [done|].
  case_decide; [done|]. intros Hd. f_equal. by apply IH.
Qed.

Lemma dict_del_length k d : (length (dict_del k d) ≤ length d)%nat.
Proof.
  induction d as [|[k' v'] d IH]; simpl; [done|]. case_decide; simpl; lia.
Qed.
End dict_facts.


End PyFacts.

(** ** Facts about the connection-oriented server *)

Module TcpFacts.
Import Tcp PyFacts.

Lemma add_wire_nil w : add_wire [] w = w.
Proof. destruct w. unfold add_wire. simpl. by rewrite app_nil_r. Qed.

Lemma add_wire_add l1 l2 w : add_wire l2 (add_wire l1 w) = add_wire (l1 ++ l2) w.
Proof. unfold add_wire. simpl. by rewrite app_assoc. Qed.

Lemma sent_add_wire l w c p : sent (add_wire l w) c p = sent w c p.
Proof. done. Qed.

Lemma broadcast_writes_add_wire l w items p ex :
  broadcast_writes (add_wire l w) items p ex = broadcast_writes w items p ex.
Proof. induction items as [|[k c] items IH]; simpl; [done|]. by rewrite IH. Qed.

(** [send_message] never raises: it records one write and returns. *)
Lemma tcp_send_message_eq c p w :
  send_message c p w = (Ok tt, add_wire [sent w c p] w).
Proof.
  unfold send_message, try_except, sendall, sent, add_wire.
  by destruct (negb _).
Qed.

(** So the [except] branch of [broadcast_message] is never taken and
    [disconnected] stays empty. *)
Lemma tcp_broadcast_loop_eq items p ex w :
  broadcast_loop items p ex w
  = (Ok [], add_wire (broadcast_writes w items p ex) w).
Proof.
  revert w. induction items as [|[k c] items IH]; intros w; simpl.
  - by rewrite add_wire_nil.
  - munfold. case_decide.
    + rewrite IH. done.
    + rewrite tcp_send_message_eq, IH, add_wire_add.
      by rewrite broadcast_writes_add_wire.
Qed.

Lemma broadcast_with_eq remove p ex w :
  broadcast_with remove p ex w
  = (Ok tt, add_wire (broadcast_writes w (clients (self w)) p ex) w).
Proof. unfold broadcast_with. munfold. by rewrite tcp_broadcast_loop_eq. Qed.

Lemma tcp_broadcast_message_eq p ex w :
  broadcast_message p ex w
  = (Ok tt, add_wire (broadcast_writes w (clients (self w)) p ex) w).
Proof. unfold broadcast_message. munfold. apply broadcast_with_eq. Qed.

(** Every client of the snapshot other than the excluded one gets its
    write. *)
Lemma broadcast_writes_elem w items p ex k c :
  (k, c) ∈ items → Some k ≠ ex →
  sent w (conn c) p ∈ broadcast_writes w items p ex.
Proof.
  induction items as [|[k' c'] items IH]; simpl; [by intros ?%elem_of_nil|].
  intros [?|?]%elem_of_cons Hne; simplify_eq.
  - rewrite decide_False by done. left.
  - apply elem_of_app. right. by apply IH.
Qed.

Lemma broadcast_writes_inv w items p ex x :
  x ∈ broadcast_writes w items p ex →
  ∃ k c, (k, c) ∈ items ∧ Some k ≠ ex ∧ x = sent w (conn c) p.
Proof.
  induction items as [|[k' c'] items IH]; simpl; [by intros ?%elem_of_nil|].
  intros [Hx|Hx]%elem_of_app.
  - case_decide; [by apply elem_of_nil in Hx|].
    apply list_elem_of_singleton in Hx. exists k', c'. split; [left|done].
  - destruct (IH Hx) as (k & c & ? & ? & ?). exists k, c. split; [by right|done].
Qed.

Lemma lowest_conn_id_spec cs h :
  lowest_conn_id cs = Some h →
  h ∈ dict_keys cs ∧ ∀ k, k ∈ dict_keys cs → (h ≤ k)%nat.
Proof. apply head_sort_min. Qed.

Lemma lowest_conn_id_None cs : lowest_conn_id cs = None → cs = [].
Proof.
  intros H. destruct cs as [|kc cs]; [done|].
  destruct (head_sort_is_Some Nat.leb (dict_keys (kc :: cs))) as [h Hh]; [done|].
  unfold lowest_conn_id in H. congruence.
Qed.

(** [remove_client] with its nested broadcast resolved. *)
Lemma remove_client_rec_eq fuel conn_id w :
  remove_client_rec (S fuel) conn_id w =
  match dict_get conn_id (clients (self w)) with
  | None => (Ok tt, w)
  | Some c =>
      let w1 := World (set_clients (dict_del conn_id) (self w)) (wire w)
                  (dead w) (conn c :: closed w) (pool w) in
      if decide (host_conn_id (self w) = Some conn_id) then
        match lowest_conn_id (clients (self w1)) with
        | Some h' =>
            let w2 := set_self (set_host_conn_id (Some h')) w1 in
            match dict_get h' (clients (self w2)) with
            | Some nh =>
                (Ok tt,
                 add_wire (broadcast_writes w2 (clients (self w2))
                             (host_update (name nh)) None) w2)
            | None => (Raise KeyError, w2)
            end
        | None => (Ok tt, set_self (set_host_conn_id None) w1)
        end
      else (Ok tt, w1)
  end.
Proof.
  simpl. munfold. destruct (dict_get conn_id (clients (self w))) as [c|]; [|done].
  unfold close, modify. simpl.
  destruct (decide (host_conn_id (self w) = Some conn_id)) as [Hh|Hh]; [|done].
  destruct (dict_del conn_id (clients (self w))) as [|kc cs] eqn:Ed;
    [reflexivity|].
  cbv beta iota. rewrite <- Ed.
  destruct (lowest_conn_id _) as [h'|] eqn:El.
  - simpl. destruct (dict_get h' _) as [nh|]; [|done].
    by rewrite broadcast_with_eq.
  - apply lowest_conn_id_None in El. congruence.
Qed.

(** [remove_client] always returns: the recursion limit is never met and
    the new host is always found in the registry. *)
Lemma remove_client_returns conn_id w :
  ∃ w', remove_client conn_id w = (Ok tt, w').
Proof.
  unfold remove_client. munfold. rewrite remove_client_rec_eq.
  destruct (dict_get conn_id _) as [c|]; [|by eexists]. cbv zeta.
  case_decide; [|by eexists].
  destruct (lowest_conn_id _) as [h'|] eqn:E; [|by eexists].
  apply lowest_conn_id_spec in E as [Hin _].
  apply dict_get_keys in Hin as [nh Hnh]. simpl in *. rewrite Hnh. by eexists.
Qed.

(** Running a handler: unfold the monad and resolve every send. *)
Ltac run :=
  repeat first
    [ rewrite tcp_send_message_eq
    | rewrite tcp_broadcast_message_eq
    | progress munfold
    | progress simpl
    | match goal with
      | H : send_message _ _ _ = _ |- _ =>
          rewrite tcp_send_message_eq in H; simplify_eq/=
      | H : broadcast_message _ _ _ = _ |- _ =>
          rewrite tcp_broadcast_message_eq in H; simplify_eq/=
      end ].

Lemma remove_client_game_view conn_id w r w' :
  remove_client conn_id w = (r, w') → game_view w' = game_view w.
Proof.
  unfold remove_client. munfold. rewrite remove_client_rec_eq.
  repeat (case_match; simplify_eq/=); by intros [= <- <-].
Qed.

Lemma handle_client_open_game_view c a w r w' :
  handle_client_open c a w = (r, w') → game_view w' = game_view w.
Proof.
  unfold handle_client_open. run.
  repeat (case_match; simplify_eq/=); by intros [= <- <-].
Qed.

Lemma handle_client_register_game_view conn_id c n w r w' :
  handle_client_register conn_id c n w = (r, w') → game_view w' = game_view w.
Proof.
  unfold handle_client_register, update_client. run.
  repeat (case_match; simplify_eq/=; run); by intros [= <- <-].
Qed.

Lemma handle_client_answer_game_view conn_id c a now w r w' :
  handle_client_answer conn_id c a now w = (r, w') → game_view w' = game_view w.
Proof.
  unfold handle_client_answer. run.
  repeat (case_match; simplify_eq/=; run); by intros [= <- <-].
Qed.

Lemma handle_request_start_game_self conn_id c w r w' :
  handle_request_start_game conn_id c w = (r, w') →
  self w' = self w ∧ (pool w' = pool w ∨ pool w' = pool w ++ [StartGameThread]).
Proof.
  unfold handle_request_start_game, spawn. run.
  repeat (case_match; simplify_eq/=; run); intros [= <- <-]; auto.
Qed.

Lemma handle_client_register_keys_host conn_id c n w r w' :
  handle_client_register conn_id c n w = (r, w') → keys_host w' = keys_host w.
Proof.
  unfold handle_client_register, update_client. run.
  repeat (case_match; simplify_eq/=; run); intros [= <- <-]; try done.
  all: unfold keys_host; simpl; by rewrite dict_keys_set_present by eauto.
Qed.

Lemma handle_client_answer_keys_host conn_id c a now w r w' :
  handle_client_answer conn_id c a now w = (r, w') → keys_host w' = keys_host w.
Proof.
  unfold handle_client_answer. run.
  repeat (case_match; simplify_eq/=; run); intros [= <- <-]; try done.
  all: unfold keys_host; simpl; by rewrite dict_keys_set_present by eauto.
Qed.

(** One handled line: the timeline fields stay, at most a [start_game]
    thread is started, and nobody enters or leaves the registry. *)
Lemma handle_client_message_effect conn_id c req now w r w' :
  handle_client_message conn_id c req now w = (r, w') →
  questions (self w') = questions (self w)
  ∧ active_game (self w') = active_game (self w)
  ∧ current_question_index (self w') = current_question_index (self w)
  ∧ question_start_time (self w') = question_start_time (self w)
  ∧ (pool w' = pool w ∨ pool w' = pool w ++ [StartGameThread])
  ∧ keys_host w' = keys_host w.
Proof.
  unfold handle_client_message, try_except. destruct req.
  - destruct (handle_client_register _ _ _ _) as [r1 w1] eqn:E.
    pose proof (handle_client_register_game_view _ _ _ _ _ _ E) as Hg.
    pose proof (handle_client_register_keys_host _ _ _ _ _ _ E) as Hk.
    unfold game_view in Hg. injection Hg as ? ? ? ? ?.
    destruct r1; intros [= <- <-]; auto 10.
  - destruct (handle_client_answer _ _ _ _ _) as [r1 w1] eqn:E.
    pose proof (handle_client_answer_game_view _ _ _ _ _ _ _ E) as Hg.
    pose proof (handle_client_answer_keys_host _ _ _ _ _ _ _ E) as Hk.
    unfold game_view in Hg. injection Hg as ? ? ? ? ?.
    destruct r1; intros [= <- <-]; auto 10.
  - destruct (handle_request_start_game _ _ _) as [r1 w1] eqn:E.
    destruct (handle_request_start_game_self _ _ _ _ _ E) as [Hs Hp].
    unfold keys_host.
    destruct r1; intros [= <- <-]; rewrite Hs; auto 10.
  - run. intros [= <- <-]. auto 10.
  - run. intros [= <- <-]. auto 10.
  - run. intros [= <- <-]. auto 10.
Qed.

(** *** Invariants of the transition system *)

Lemma tcp_loops_app ts1 ts2 : loops (ts1 ++ ts2) = loops ts1 ++ loops ts2.
Proof. apply omap_app. Qed.

Lemma tcp_loops_elem pc ts : pc ∈ loops ts ↔ GameLoopThread pc ∈ ts.
Proof.
  unfold loops. rewrite list_elem_of_omap. split.
  - intros (t & Ht & Hpc). destruct t; by simplify_eq.
  - intros H. by exists (GameLoopThread pc).
Qed.

Lemma tcp_start_game_timeline w r w' :
  loops (pool w) = [] → active_game (self w) = false →
  start_game w = (r, w') → timeline_inv w'.
Proof.
  intros Hl Ha. unfold start_game, spawn. run. rewrite Ha.
  destruct (length (clients (self w)) =? 0)%nat; run; intros [= <- <-];
    unfold timeline_inv; simpl; rewrite ?tcp_loops_app, Hl; simpl; auto.
Qed.

Lemma tcp_start_game_noop w :
  active_game (self w) = true → start_game w = (Ok tt, w).
Proof.
  intros Ha. unfold start_game. run. rewrite Ha.
  by destruct (length (clients (self w)) =? 0)%nat.
Qed.

Lemma start_game_keys_host w r w' :
  start_game w = (r, w') → keys_host w' = keys_host w.
Proof.
  unfold start_game, spawn. run.
  repeat (case_match; simplify_eq/=; run); intros [= <- <-]; try done.
  unfold keys_host, dict_keys. simpl. f_equal.
  rewrite <- list_fmap_compose. by apply list_fmap_ext.
Qed.

Lemma game_loop_step_keys_host pc now w r w' :
  game_loop_step pc now w = (r, w') → keys_host w' = keys_host w.
Proof.
  destruct pc; unfold game_loop_step, end_game; run;
    repeat (case_match; simplify_eq/=; run); by intros [= <- <-].
Qed.

(** From a state that matches its program point the [game_loop] thread
    never raises, and the state it leaves matches the next program point. *)
Lemma tcp_game_loop_step_inv pc now w :
  active_game (self w) = true → pc_inv pc (self w) →
  ∃ next w', game_loop_step pc now w = (Ok next, w')
    ∧ pool w' = pool w
    ∧ match next with
      | Some pc' => active_game (self w') = true ∧ pc_inv pc' (self w')
      | None => active_game (self w') = false
      end.
Proof.
  intros Ha Hpc. destruct pc as [i|i|i|i|]; unfold game_loop_step.
  - run. rewrite Ha. destruct (questions (self w) !! i) eqn:E.
    + apply lookup_lt_Some in E. eexists _, _. split; [done|].
      split; [done|]. split; [done|]. destruct i; simpl in *; auto.
    + apply lookup_ge_None in E. eexists _, _. split; [done|].
      split; [done|]. split; [done|]. destruct i; simpl in *.
      * left. split; [|done]. destruct (questions (self w)); simpl in *; [done|lia].
      * right. destruct Hpc as (Hi & ? & ?). unfold round_open.
        rewrite Hi. done.
  - run. eexists _, _. split; [done|]. split; [done|]. split; [done|].
    unfold round_open. destruct i; simpl in *; intuition (done || lia).
  - simpl in Hpc. destruct Hpc as (Hi & Hlt & Hst).
    destruct (lookup_lt_is_Some_2 _ _ Hlt) as [q Hq]. run. rewrite Hq. run.
    eexists _, _. split; [done|]. done.
  - simpl in Hpc. destruct Hpc as (Hi & Hlt & Hst).
    destruct (lookup_lt_is_Some_2 _ _ Hlt) as [q Hq]. run. rewrite Hq, Ha. run.
    eexists _, _. split; [done|]. done.
  - unfold end_game. run. eexists _, _. split; [done|]. done.
Qed.

Lemma tcp_pc_inv_ext pc s s' :
  questions s' = questions s →
  current_question_index s' = current_question_index s →
  question_start_time s' = question_start_time s →
  pc_inv pc s → pc_inv pc s'.
Proof.
  intros Hq Hi Ht. unfold pc_inv, round_open. rewrite Hq, Hi, Ht.
  by destruct pc as [[|i]|[|i]|i|i|].
Qed.

Lemma tcp_timeline_inv_ext w w' :
  questions (self w') = questions (self w) →
  active_game (self w') = active_game (self w) →
  current_question_index (self w') = current_question_index (self w) →
  question_start_time (self w') = question_start_time (self w) →
  loops (pool w') = loops (pool w) →
  timeline_inv w → timeline_inv w'.
Proof.
  intros Hq Ha Hi Ht Hl. unfold timeline_inv. rewrite Hl, Ha.
  destruct (loops (pool w)) as [|pc [|? ?]]; [done| |done].
  intros [? ?]. split; [done|]. by apply (tcp_pc_inv_ext pc (self w)).
Qed.

Lemma timeline_inv_game_view w w' :
  game_view w' = game_view w → timeline_inv w → timeline_inv w'.
Proof.
  unfold game_view. intros [= Hq Ha Hi Ht Hp].
  apply tcp_timeline_inv_ext; auto. by rewrite Hp.
Qed.

Lemma host_inv_ext w w' : keys_host w' = keys_host w → host_inv w → host_inv w'.
Proof. unfold keys_host, host_inv. intros [= -> ->]. done. Qed.

Lemma handle_client_open_host_inv c a w r w' :
  handle_client_open c a w = (r, w') → host_inv w → host_inv w'.
Proof.
  unfold handle_client_open. run. unfold host_inv.
  destruct (host_conn_id (self w)) as [h|] eqn:E; run; rewrite ?E;
    intros [= <- <-] Hh; simpl; rewrite ?E; apply dict_keys_set; auto.
Qed.

Lemma remove_client_host_inv conn_id w r w' :
  remove_client conn_id w = (r, w') → host_inv w → host_inv w'.
Proof.
  unfold remove_client. munfold. rewrite remove_client_rec_eq. unfold host_inv.
  destruct (dict_get conn_id _) as [c|]; [|by intros [= <- <-]]. cbv zeta.
  case_decide as Hh.
  - destruct (lowest_conn_id _) as [h'|] eqn:E; simpl in E.
    + apply lowest_conn_id_spec in E as [Hin _].
      destruct (dict_get h' _); by intros [= <- <-].
    + apply lowest_conn_id_None in E. intros [= <- <-] _. simpl. by rewrite E.
  - intros [= <- <-]. simpl. destruct (host_conn_id (self w)) as [h|]; intros Hi.
    + apply dict_keys_del. split; [done|congruence].
    + destruct (clients (self w)) as [|[k v] cs]; [done|discriminate].
Qed.

Lemma keys_host_set_pool ts w : keys_host (set_pool ts w) = keys_host w.
Proof. done. Qed.

Lemma run_thread_keys_host t now w r w' :
  run_thread t now w = (r, w') → keys_host w' = keys_host w.
Proof.
  destruct t as [|pc]; simpl; [apply start_game_keys_host|].
  munfold. destruct (game_loop_step pc now w) as [[next|e] w1] eqn:E;
    apply game_loop_step_keys_host in E.
  - destruct next; unfold spawn, modify; by intros [= <- <-].
  - by intros [= <- <-].
Qed.

Lemma tcp_loops_singleton ts1 ts2 pc pcs :
  loops (ts1 ++ GameLoopThread pc :: ts2) = [pcs] →
  pcs = pc ∧ loops (ts1 ++ ts2) = [].
Proof.
  rewrite !tcp_loops_app. simpl. intros H.
  destruct (loops ts1) as [|x l1]; simpl in *.
  - injection H as -> H. by rewrite H.
  - injection H as -> H. by destruct l1.
Qed.

Lemma tcp_run_thread_timeline t ts1 ts2 now w r w' :
  pool w = ts1 ++ t :: ts2 → timeline_inv w →
  run_thread t now (set_pool (ts1 ++ ts2) w) = (r, w') → timeline_inv w'.
Proof.
  intros Hp Hinv. destruct t as [|pc]; simpl.
  - assert (Hl : loops (ts1 ++ ts2) = loops (pool w)).
    { by rewrite Hp, !tcp_loops_app. }
    destruct (active_game (self w)) eqn:Ha.
    + rewrite tcp_start_game_noop by done. intros [= <- <-].
      by apply (tcp_timeline_inv_ext w).
    + apply tcp_start_game_timeline; simpl; [|done].
      unfold timeline_inv in Hinv. rewrite Hl.
      destruct (loops (pool w)) as [|? [|? ?]]; [done| |done].
      destruct Hinv; congruence.
  - unfold timeline_inv in Hinv. rewrite Hp in Hinv.
    destruct (loops (ts1 ++ _ :: ts2)) as [|pcs [|? ?]] eqn:El;
      [|destruct Hinv as [Ha Hpc]|done].
    { rewrite tcp_loops_app in El. simpl in El. by destruct (loops ts1). }
    apply tcp_loops_singleton in El as [-> Hrest].
    destruct (tcp_game_loop_step_inv pc now (set_pool (ts1 ++ ts2) w) Ha Hpc)
      as (next & w1 & Hstep & Hpool & Hnext).
    munfold. rewrite Hstep. simpl in Hpool.
    destruct next as [pc'|]; unfold spawn, modify; intros [= <- <-];
      unfold timeline_inv; simpl; rewrite ?tcp_loops_app, Hpool, Hrest; done.
Qed.

(** Every step keeps both invariants. *)
Lemma step_inv w w' :
  step w w' → host_inv w ∧ timeline_inv w → host_inv w' ∧ timeline_inv w'.
Proof.
  intros Hstep [Hh Ht]. destruct Hstep as
    [c a w r w' H|conn_id c req now w r w' H|conn_id w r w' H|c w
    |t ts1 ts2 now w r w' Hp H].
  - split; [by eapply handle_client_open_host_inv|].
    eapply timeline_inv_game_view; [|done].
    by eapply handle_client_open_game_view.
  - apply handle_client_message_effect in H
      as (Hq & Ha & Hi & Hs & Hp & Hk).
    split; [by eapply host_inv_ext|].
    eapply tcp_timeline_inv_ext; eauto.
    destruct Hp as [->| ->]; [done|]. rewrite tcp_loops_app. simpl. apply app_nil_r.
  - split; [by eapply remove_client_host_inv|].
    eapply timeline_inv_game_view; [|done].
    by eapply remove_client_game_view.
  - done.
  - split; [|by eapply tcp_run_thread_timeline].
    eapply host_inv_ext; [|exact Hh].
    by rewrite (run_thread_keys_host _ _ _ _ _ H).
Qed.

Lemma reachable_inv qs w : reachable qs w → host_inv w ∧ timeline_inv w.
Proof.
  unfold reachable. revert w. apply rtc_ind_r.
  - split; [done|]. by unfold timeline_inv.
  - intros w1 w2 _ Hstep IH. by eapply step_inv.
Qed.

(** *** The answer handler *)

(** An answer that passes the three guards is recorded, scored and
    acknowledged. *)
Lemma tcp_handle_client_answer_accepted conn_id c data now w cl q started :
  dict_get conn_id (clients (self w)) = Some cl →
  active_game (self w) = true →
  questions (self w) !! current_question_index (self w) = Some q →
  (length (answers cl) ≤ current_question_index (self w))%nat →
  question_start_time (self w) = Some started →
  let answer := strip (upper (default "" data)) in
  let is_correct := bool_decide (answer = strip (q_answer q)) in
  let time_taken := (now - started)%Q in
  let points := if is_correct then speed_points time_taken else 0 in
  let cl' := Client (conn cl) (addr cl) (name cl) (score cl + points)
               (answers cl ++ [answer]) (answer_times cl ++ [time_taken]) in
  handle_client_answer conn_id c data now w
  = (Ok tt,
     add_wire [sent w c (answer_result is_correct (strip (q_answer q)) points
                           (score cl + points) time_taken)]
       (set_self (set_clients (dict_set conn_id cl')) w)).
Proof.
  intros Hcl Ha Hq Hlen Hst. unfold handle_client_answer. run.
  rewrite Hcl, Ha, Hq, Hst. simpl.
  pose proof (lookup_lt_Some _ _ _ Hq) as Hlt.
  destruct (length (questions (self w)) <=? _)%nat eqn:E1;
    [apply Nat.leb_le in E1; lia|].
  destruct (_ <? length (answers cl))%nat eqn:E2;
    [apply Nat.ltb_lt in E2; lia|].
  by run.
Qed.

(** An answer from a client whose answer list is already longer than the
    round index changes nothing and is not acknowledged. *)
Lemma tcp_handle_client_answer_dropped conn_id c data now w cl :
  dict_get conn_id (clients (self w)) = Some cl →
  (current_question_index (self w) < length (answers cl))%nat →
  handle_client_answer conn_id c data now w = (Ok tt, w).
Proof.
  intros Hcl Hlen. unfold handle_client_answer. run. rewrite Hcl.
  destruct (negb _ || _); [done|].
  destruct (_ <? length (answers cl))%nat eqn:E2; [done|].
  apply Nat.ltb_ge in E2. lia.
Qed.

(** Either the answer leaves the world as it was, or it passed the guards. *)
Lemma tcp_handle_client_answer_cases conn_id c data now w :
  (∃ r, handle_client_answer conn_id c data now w = (r, w))
  ∨ (∃ cl q started,
       dict_get conn_id (clients (self w)) = Some cl
       ∧ active_game (self w) = true
       ∧ questions (self w) !! current_question_index (self w) = Some q
       ∧ (length (answers cl) ≤ current_question_index (self w))%nat
       ∧ question_start_time (self w) = Some started).
Proof.
  unfold handle_client_answer. run.
  destruct (dict_get conn_id (clients (self w))) as [cl|] eqn:Hcl;
    [|left; by eexists].
  destruct (active_game (self w)) eqn:Ha; simpl; [|left; by eexists].
  destruct (length (questions (self w)) <=? _)%nat eqn:E1; [left; by eexists|].
  destruct (_ <? length (answers cl))%nat eqn:E2; [left; by eexists|].
  apply Nat.leb_gt in E1. apply Nat.ltb_ge in E2.
  destruct (lookup_lt_is_Some_2 _ _ E1) as [q Hq]. rewrite Hq.
  destruct (question_start_time (self w)) as [started|] eqn:Hst;
    [|left; by eexists].
  right. by exists cl, q, started.
Qed.

(** What an answer does when it cannot be taken. *)
Lemma tcp_handle_client_answer_unknown conn_id c data now w :
  dict_get conn_id (clients (self w)) = None →
  handle_client_answer conn_id c data now w = (Ok tt, w).
Proof. intros H. unfold handle_client_answer. run. by rewrite H. Qed.

Lemma tcp_handle_client_answer_inactive conn_id c data now w :
  active_game (self w) = false →
  handle_client_answer conn_id c data now w = (Ok tt, w).
Proof.
  intros H. unfold handle_client_answer. run. rewrite H. simpl.
  by destruct (dict_get conn_id _).
Qed.

Lemma tcp_handle_client_answer_unstamped conn_id c data now w cl q :
  dict_get conn_id (clients (self w)) = Some cl →
  active_game (self w) = true →
  questions (self w) !! current_question_index (self w) = Some q →
  (length (answers cl) ≤ current_question_index (self w))%nat →
  question_start_time (self w) = None →
  handle_client_answer conn_id c data now w = (Raise TypeError, w).
Proof.
  intros Hcl Ha Hq Hlen Hst. unfold handle_client_answer. run.
  rewrite Hcl, Ha, Hq, Hst. simpl.
  pose proof (lookup_lt_Some _ _ _ Hq) as Hlt.
  destruct (length (questions (self w)) <=? _)%nat eqn:E1;
    [apply Nat.leb_le in E1; lia|].
  destruct (_ <? length (answers cl))%nat eqn:E2;
    [apply Nat.ltb_lt in E2; lia|].
  done.
Qed.

(** When the client has answered every earlier round, the guard does its
    job: once an answer is recorded, the next one is dropped. *)
Lemma tcp_second_answer_dropped conn_id c data now data2 now2 w cl q started :
  dict_get conn_id (clients (self w)) = Some cl →
  active_game (self w) = true →
  questions (self w) !! current_question_index (self w) = Some q →
  length (answers cl) = current_question_index (self w) →
  question_start_time (self w) = Some started →
  ∃ w', handle_client_answer conn_id c data now w = (Ok tt, w')
        ∧ handle_client_answer conn_id c data2 now2 w' = (Ok tt, w').
Proof.
  intros Hcl Ha Hq Hlen Hst. eexists. split.
  - apply (tcp_handle_client_answer_accepted conn_id c data now w cl q started);
      [done..|lia|done].
  - eapply tcp_handle_client_answer_dropped.
    + simpl. apply dict_get_set_eq.
    + simpl. rewrite length_app. simpl. lia.
Qed.

(** The points of a correct answer. *)
Lemma tcp_speed_points_in_time (e : Q) :
  (0 <= e)%Q → (e <= inject_Z QUESTION_TIME_LIMIT)%Q →
  speed_points e
  = Z.max 1 (Qfloor ((inject_Z QUESTION_TIME_LIMIT - e) / 5) + 1).
Proof.
  intros _ He. unfold speed_points. rewrite py_int_floor; [done|].
  apply Qdiv5_nonneg. by apply (proj1 (Qle_minus_iff _ _)).
Qed.

Lemma tcp_speed_points_late (e : Q) :
  (inject_Z QUESTION_TIME_LIMIT < e)%Q → speed_points e = 1.
Proof.
  intros He. unfold speed_points.
  assert (H : py_int ((inject_Z QUESTION_TIME_LIMIT - e) / 5) <= 0).
  { by apply py_int_neg, Qdiv5_neg, Qminus_neg. }
  lia.
Qed.

Lemma tcp_speed_points_pos (e : Q) : 1 <= speed_points e.
Proof. unfold speed_points. lia. Qed.

(** A broadcast to everybody writes once to each socket of the registry,
    in registry order, and always the same message. *)
Lemma broadcast_writes_all w items p :
  map w_conn (broadcast_writes w items p None) = map (λ kc, conn kc.2) items
  ∧ Forall (λ x, w_msg x = p) (broadcast_writes w items p None).
Proof.
  induction items as [|[k c] items [IH1 IH2]]; simpl; [by split|].
  split; [by rewrite IH1|]. by constructor.
Qed.

Lemma broadcast_writes_set_self f w items p ex :
  broadcast_writes (set_self f w) items p ex = broadcast_writes w items p ex.
Proof. induction items as [|[k c] items IH]; simpl; [done|]. by rewrite IH. Qed.

(** [end_game] resolved. *)
Lemma tcp_end_game_eq w :
  end_game w
  = (Ok tt,
     set_self (set_current_question_index 0)
       (add_wire
          (broadcast_writes w (clients (self w))
             (game_end (make_leaderboard (clients (self w))) "Game finished!")
             None)
          (set_self (set_active_game false) w))).
Proof. unfold end_game. run. by rewrite broadcast_writes_set_self. Qed.

(** The leaderboard is in descending order of score and is a
    rearrangement of the entries of the registry. *)
Lemma tcp_make_leaderboard_sorted cs :
  StronglySorted (λ x y, e_score y <= e_score x) (make_leaderboard cs).
Proof.
  unfold make_leaderboard.
  apply (StronglySorted_weaken (λ x y, by_score_desc x y = true)).
  { unfold by_score_desc. intros x y H. by apply Z.leb_le. }
  apply Sorted_StronglySorted.
  { unfold by_score_desc. intros x y z H1 H2.
    apply Z.leb_le. apply Z.leb_le in H1, H2. lia. }
  apply py_sort_sorted.
  unfold by_score_desc. intros x y H. apply Z.leb_le. apply Z.leb_gt in H. lia.
Qed.

Lemma tcp_make_leaderboard_perm cs :
  Permutation (make_leaderboard cs) (map (λ kc, entry_of kc.2) cs).
Proof. unfold make_leaderboard. symmetry. apply py_sort_perm. Qed.

(** *** Registration *)

Lemma tcp_register_rejected conn_id c data_name w :
  active_game (self w) = true →
  handle_client_register conn_id c data_name w
  = (Ok tt, add_wire [sent w c (error "Game already in progress")] w).
Proof. intros Ha. unfold handle_client_register. run. rewrite Ha. by run. Qed.

Lemma tcp_register_accepted conn_id c data_name w cl :
  active_game (self w) = false →
  dict_get conn_id (clients (self w)) = Some cl →
  let player_name := default ("Player_" +:+ pretty conn_id) data_name in
  let cl' := Client (conn cl) (addr cl) (Some player_name) 0 [] [] in
  let cs' := dict_set conn_id cl' (clients (self w)) in
  handle_client_register conn_id c data_name w
  = (Ok tt,
     add_wire
       (sent w c
          (registered ("Welcome " +:+ player_name +:+ "!") (length cs')
             (bool_decide (Some conn_id = host_conn_id (self w))))
        :: broadcast_writes w cs' (player_joined player_name (length cs'))
             (Some conn_id))
       (set_self (set_clients (dict_set conn_id cl')) w)).
Proof.
  intros Ha Hcl. unfold handle_client_register, update_client. run.
  rewrite Ha, Hcl. run. rewrite add_wire_add. simpl.
  by rewrite broadcast_writes_add_wire, broadcast_writes_set_self.
Qed.

(** *** Removing the host *)



(** *** What each operation does to the server object *)

Lemma tcp_handle_client_open_eq c a w :
  let conn_id := connection_counter (self w) in
  let s1 := set_clients (dict_set conn_id (Client c a None 0 [] []))
              (set_connection_counter (conn_id + 1) (self w)) in
  handle_client_open c a w
  = (Ok conn_id,
     set_self (λ _, match host_conn_id (self w) with
                    | None => set_host_conn_id (Some conn_id) s1
                    | Some _ => s1
                    end) w).
Proof.
  unfold handle_client_open. run.
  destruct (host_conn_id (self w)) eqn:E; by run.
Qed.

(** A handled line leaves the server object as it was, or registers the
    sender, or records one answer of the sender. *)
Lemma tcp_handle_client_message_self conn_id c req now w r w' :
  handle_client_message conn_id c req now w = (r, w') →
  self w' = self w
  ∨ (∃ cl n,
       active_game (self w) = false
       ∧ dict_get conn_id (clients (self w)) = Some cl
       ∧ self w'
         = set_clients
             (dict_set conn_id (Client (conn cl) (addr cl) (Some n) 0 [] []))
             (self w))
  ∨ (∃ cl q started answer points,
       dict_get conn_id (clients (self w)) = Some cl
       ∧ active_game (self w) = true
       ∧ questions (self w) !! current_question_index (self w) = Some q
       ∧ (length (answers cl) ≤ current_question_index (self w))%nat
       ∧ question_start_time (self w) = Some started
       ∧ 0 <= points
       ∧ self w'
         = set_clients
             (dict_set conn_id
                (Client (conn cl) (addr cl) (name cl) (score cl + points)
                   (answers cl ++ [answer])
                   (answer_times cl ++ [(now - started)%Q])))
             (self w)).
Proof.
  unfold handle_client_message, try_except. destruct req as [n|data| | | |].
  - destruct (active_game (self w)) eqn:Ha.
    + rewrite tcp_register_rejected by done. intros [= <- <-]. by left.
    + destruct (dict_get conn_id (clients (self w))) as [cl|] eqn:Hcl.
      * rewrite (tcp_register_accepted conn_id c n w cl Ha Hcl).
        intros [= <- <-]. right. left. by eexists cl, _.
      * unfold handle_client_register, update_client. run.
        rewrite Ha, Hcl. intros [= <- <-]. by left.
  - destruct (tcp_handle_client_answer_cases conn_id c data now w)
      as [[r1 Hr]|(cl & q & started & Hcl & Ha & Hq & Hlen & Hst)].
    + rewrite Hr. destruct r1; intros [= <- <-]; by left.
    + rewrite (tcp_handle_client_answer_accepted conn_id c data now w cl q
                 started) by done.
      intros [= <- <-]. right. right.
      exists cl, q, started, (strip (upper (default "" data))),
        (if bool_decide (strip (upper (default "" data)) = strip (q_answer q))
         then speed_points (now - started) else 0).
      repeat (split; [done|]).
      split; [|done]. case_bool_decide; [|done].
      pose proof (tcp_speed_points_pos (now - started)). lia.
  - destruct (handle_request_start_game _ _ _) as [r1 w1] eqn:E.
    destruct (handle_request_start_game_self _ _ _ _ _ E) as [Hs _].
    destruct r1; intros [= <- <-]; by left.
  - run. intros [= <- <-]. by left.
  - run. intros [= <- <-]. by left.
  - run. intros [= <- <-]. by left.
Qed.

Lemma tcp_remove_client_self conn_id w r w' :
  remove_client conn_id w = (r, w') →
  ∃ h, self w'
       = set_host_conn_id h (set_clients (dict_del conn_id) (self w)).
Proof.
  unfold remove_client. munfold. rewrite remove_client_rec_eq.
  destruct (dict_get conn_id (clients (self w))) as [cl|] eqn:Hcl.
  - cbv zeta. case_decide.
    + destruct (lowest_conn_id _) as [h'|].
      * simpl. destruct (dict_get h' _); intros [= <- <-]; by eexists.
      * intros [= <- <-]. by eexists.
    + intros [= <- <-]. exists (host_conn_id (self w)). by destruct (self w).
  - intros [= <- <-]. exists (host_conn_id (self w)).
    unfold set_clients. rewrite dict_del_absent by done. by destruct (self w).
Qed.

Lemma tcp_start_game_empty w :
  clients (self w) = [] → start_game w = (Ok tt, w).
Proof. intros H. unfold start_game. run. by rewrite H. Qed.

Lemma tcp_start_game_eq w :
  active_game (self w) = false → clients (self w) ≠ [] →
  let s1 := set_clients (map (λ kc, (kc.1, reset_client kc.2)))
              (set_current_question_index 0
                 (set_active_game true (self w))) in
  start_game w
  = (Ok tt,
     World s1
       (wire w
        ++ broadcast_writes w (clients s1)
             (game_start "Game starting!" (length (questions (self w)))) None)
       (dead w) (closed w) (pool w ++ [GameLoopThread (Head 0)])).
Proof.
  intros Ha Hne. unfold start_game, spawn. run. rewrite Ha.
  assert ((length (clients (self w)) =? 0)%nat = false) as ->.
  { by destruct (clients (self w)). }
  run. unfold add_wire. simpl. by rewrite !broadcast_writes_set_self.
Qed.

Lemma tcp_game_loop_step_self pc now w r w' :
  game_loop_step pc now w = (r, w') →
  self w'
  = match pc with
    | Begin i =>
        set_question_start_time (Some now)
          (set_current_question_index i (self w))
    | Finish =>
        set_current_question_index 0 (set_active_game false (self w))
    | _ => self w
    end.
Proof.
  destruct pc; unfold game_loop_step, end_game; run;
    repeat (case_match; simplify_eq/=; run); by intros [= <- <-].
Qed.

Lemma client_ok_ext s s' c :
  questions s' = questions s → active_game s' = active_game s →
  current_question_index s' = current_question_index s →
  client_ok s c → client_ok s' c.
Proof. unfold client_ok. by intros -> -> ->. Qed.

Lemma players_ext (s s' : server) cs :
  questions s' = questions s → active_game s' = active_game s →
  current_question_index s' = current_question_index s →
  Forall (λ kc : nat * client, client_ok s kc.2) cs →
  Forall (λ kc : nat * client, client_ok s' kc.2) cs.
Proof.
  intros Hq Ha Hi H. eapply Forall_impl; [exact H|].
  intros kc. by apply client_ok_ext.
Qed.

(** *** Invariants of the data *)

Lemma tcp_timeline_inv_thread w ts1 pc ts2 :
  pool w = ts1 ++ GameLoopThread pc :: ts2 → timeline_inv w →
  active_game (self w) = true ∧ pc_inv pc (self w).
Proof.
  intros Hp Hinv. unfold timeline_inv in Hinv. rewrite Hp in Hinv.
  destruct (loops (ts1 ++ _ :: ts2)) as [|pcs [|? ?]] eqn:El; [|  |done].
  - rewrite tcp_loops_app in El. simpl in El. by destruct (loops ts1).
  - by apply tcp_loops_singleton in El as [-> _].
Qed.

Lemma data_inv_self qs w w' : self w' = self w → data_inv qs w → data_inv qs w'.
Proof.
  unfold data_inv, ids_inv, players_inv. by intros ->.
Qed.

Lemma tcp_open_data_inv qs c a w r w' :
  handle_client_open c a w = (r, w') → data_inv qs w → data_inv qs w'.
Proof.
  rewrite tcp_handle_client_open_eq. intros [= <- <-] (Hq & [Hnd Hlt] & Hpl).
  unfold data_inv, ids_inv, players_inv.
  destruct (host_conn_id (self w)); simpl.
  all: split; [done|]; split; [split|].
  all: try by apply dict_set_NoDup.
  all: try (apply Forall_forall; intros k [->|Hk]%dict_keys_set; [lia|];
            pose proof (proj1 (Forall_forall _ _) Hlt k Hk); simpl in *; lia).
  all: apply dict_set_Forall;
    [unfold client_ok; simpl; repeat split; lia
    |by eapply players_ext; [..|exact Hpl]].
Qed.

Lemma tcp_message_data_inv qs conn_id c req now w r w' :
  handle_client_message conn_id c req now w = (r, w') →
  data_inv qs w → data_inv qs w'.
Proof.
  intros H (Hq & [Hnd Hlt] & Hpl).
  apply tcp_handle_client_message_self in H
    as [Hs|[(cl & n & Ha & Hcl & Hs)
           |(cl & q & started & answer & pts & Hcl & Ha & Hqi & Hlen & Hst
             & Hpts & Hs)]].
  - by apply (data_inv_self qs w).
  - unfold data_inv, ids_inv, players_inv. rewrite Hs. simpl.
    split; [done|]. split; [split|].
    + by apply dict_set_NoDup.
    + by rewrite dict_keys_set_present by eauto.
    + apply dict_set_Forall.
      * unfold client_ok. simpl. repeat split; lia.
      * by eapply players_ext; [..|exact Hpl].
  - unfold data_inv, ids_inv, players_inv. rewrite Hs. simpl.
    split; [done|]. split; [split|].
    + by apply dict_set_NoDup.
    + by rewrite dict_keys_set_present by eauto.
    + pose proof (dict_get_Forall _ _ _ _ Hcl Hpl) as (H0 & Hl & _ & _).
      pose proof (lookup_lt_Some _ _ _ Hqi) as Hlt'.
      apply dict_set_Forall.
      * unfold client_ok. simpl in *. rewrite !length_app. simpl.
        repeat split; lia.
      * by eapply players_ext; [..|exact Hpl].
Qed.

Lemma tcp_close_data_inv qs conn_id w r w' :
  remove_client conn_id w = (r, w') → data_inv qs w → data_inv qs w'.
Proof.
  intros [h Hs]%tcp_remove_client_self (Hq & [Hnd Hlt] & Hpl).
  unfold data_inv, ids_inv, players_inv. rewrite Hs. simpl.
  split; [done|]. split; [split|].
  - by apply dict_del_NoDup.
  - apply Forall_forall. intros k [Hk _]%dict_keys_del.
    by apply (proj1 (Forall_forall _ _) Hlt).
  - apply dict_del_Forall. by eapply players_ext; [..|exact Hpl].
Qed.

Lemma tcp_start_data_inv qs w r w' :
  start_game w = (r, w') → data_inv qs w → data_inv qs w'.
Proof.
  destruct (active_game (self w)) eqn:Ha.
  { rewrite tcp_start_game_noop by done. by intros [= <- <-]. }
  destruct (decide (clients (self w) = [])) as [He|He].
  { rewrite tcp_start_game_empty by done. by intros [= <- <-]. }
  rewrite tcp_start_game_eq by done. intros [= <- <-] (Hq & [Hnd Hlt] & Hpl).
  assert (Hk : dict_keys (map (λ kc : nat * client, (kc.1, reset_client kc.2))
                            (clients (self w)))
               = dict_keys (clients (self w))).
  { unfold dict_keys. rewrite <- list_fmap_compose. by apply list_fmap_ext. }
  unfold data_inv, ids_inv, players_inv. simpl. rewrite Hk.
  split; [done|]. split; [done|].
  apply Forall_fmap. eapply Forall_impl; [exact Hpl|].
  intros kc _. unfold client_ok. simpl. repeat split; lia.
Qed.

Lemma tcp_loop_data_inv qs pc now w r w' :
  active_game (self w) = true → pc_inv pc (self w) →
  game_loop_step pc now w = (r, w') → data_inv qs w → data_inv qs w'.
Proof.
  intros Ha Hpc Hs%tcp_game_loop_step_self (Hq & [Hnd Hlt] & Hpl).
  unfold data_inv, ids_inv, players_inv. rewrite Hs.
  destruct pc as [i|i|i|i|]; simpl; try done.
  - split; [done|]. split; [done|].
    eapply Forall_impl; [exact Hpl|]. intros kc (H0 & Hl & Hn & Hi).
    unfold client_ok. simpl. repeat split; try done.
    intros _. specialize (Hi Ha).
    destruct i; simpl in Hpc; unfold round_open in Hpc; lia.
  - split; [done|]. split; [done|].
    eapply Forall_impl; [exact Hpl|]. intros kc (H0 & Hl & Hn & Hi).
    unfold client_ok. simpl. repeat split; done.
Qed.

Lemma tcp_step_data_inv qs w w' :
  step w w' → timeline_inv w → data_inv qs w → data_inv qs w'.
Proof.
  intros Hstep Ht. destruct Hstep as
    [c a w r w' H|conn_id c req now w r w' H|conn_id w r w' H|c w
    |t ts1 ts2 now w r w' Hp H].
  - by eapply tcp_open_data_inv.
  - by eapply tcp_message_data_inv.
  - by eapply tcp_close_data_inv.
  - done.
  - destruct t as [|pc]; simpl in H.
    + intros Hd. by eapply tcp_start_data_inv; [exact H|].
    + destruct (tcp_timeline_inv_thread w ts1 pc ts2 Hp Ht) as [Ha Hpc].
      revert H. munfold.
      destruct (game_loop_step pc now _) as [[next|e] w1] eqn:E.
      * intros Hsp Hd.
        assert (Hd1 : data_inv qs w1).
        { by eapply (tcp_loop_data_inv qs pc now (set_pool (ts1 ++ ts2) w));
            [..|exact E|]. }
        destruct next; unfold spawn, modify in Hsp; by simplify_eq.
      * intros [= <- <-] Hd.
        by eapply (tcp_loop_data_inv qs pc now (set_pool (ts1 ++ ts2) w));
          [..|exact E|].
Qed.

(** In every reachable state the host, timeline and data invariants hold. *)
Lemma tcp_reachable_all_inv qs w :
  reachable qs w → host_inv w ∧ timeline_inv w ∧ data_inv qs w.
Proof.
  unfold reachable. revert w. apply rtc_ind_r.
  - split; [done|]. split; [by unfold timeline_inv|].
    split; [done|]. split; [split|]; constructor.
  - intros w1 w2 _ Hstep (Hh & Ht & Hd).
    destruct (step_inv w1 w2 Hstep (conj Hh Ht)) as [Hh2 Ht2].
    split; [done|]. split; [done|]. by eapply tcp_step_data_inv.
Qed.

(** *** Start requests, and removals that change little *)

Lemma tcp_request_start_accepted conn_id c w :
  host_conn_id (self w) = Some conn_id →
  is_Some (dict_get conn_id (clients (self w))) →
  active_game (self w) = false →
  handle_request_start_game conn_id c w
  = (Ok tt, set_pool (pool w ++ [StartGameThread]) w).
Proof.
  intros Hh Hin Ha. unfold handle_request_start_game, spawn, dict_mem. run.
  rewrite Hh, Ha. rewrite bool_decide_eq_false_2 by (intros [?|?]; done).
  rewrite bool_decide_eq_true_2 by done. simpl.
  destruct Hin as [cl Hcl]. destruct (clients (self w)); [done|]. done.
Qed.

Lemma tcp_request_start_rejected conn_id c w :
  ¬ (host_conn_id (self w) = Some conn_id
     ∧ is_Some (dict_get conn_id (clients (self w)))
     ∧ active_game (self w) = false) →
  ∃ message,
    handle_request_start_game conn_id c w
    = (Ok tt, add_wire [sent w c (error message)] w)
    ∧ message ∈ ["Only the host can start the game"; "Not registered";
                 "Cannot start game now"]%string.
Proof.
  intros Hn. unfold handle_request_start_game, spawn, dict_mem. run.
  case_bool_decide as Hh; run.
  { exists "Only the host can start the game"%string. split; [done|]. left. }
  case_bool_decide as Hin; simpl; run.
  2:{ exists "Not registered"%string. split; [done|]. right. left. }
  destruct (active_game (self w)) eqn:Ha; simpl; run.
  { exists "Cannot start game now"%string. split; [done|]. do 2 right. left. }
  destruct Hn. split; [|done].
  destruct (host_conn_id (self w)) as [h|]; [|by destruct Hh; left].
  destruct (decide (h = conn_id)) as [->|Hne]; [done|].
  destruct Hh. right. congruence.
Qed.

Lemma tcp_remove_client_unknown conn_id w :
  dict_get conn_id (clients (self w)) = None →
  remove_client conn_id w = (Ok tt, w).
Proof.
  intros H. unfold remove_client. munfold. by rewrite remove_client_rec_eq, H.
Qed.

Lemma tcp_remove_client_not_host conn_id w cl :
  dict_get conn_id (clients (self w)) = Some cl →
  host_conn_id (self w) ≠ Some conn_id →
  remove_client conn_id w
  = (Ok tt,
     World (set_clients (dict_del conn_id) (self w)) (wire w) (dead w)
       (conn cl :: closed w) (pool w)).
Proof.
  intros H Hh. unfold remove_client. munfold.
  rewrite remove_client_rec_eq, H. cbv zeta. by rewrite decide_False.
Qed.

Lemma tcp_remove_client_gone conn_id w r w' :
  remove_client conn_id w = (r, w') →
  dict_get conn_id (clients (self w')) = None.
Proof.
  intros [h Hs]%tcp_remove_client_self. rewrite Hs. simpl.
  apply dict_get_del_eq.
Qed.

Lemma tcp_start_game_twice w r w' :
  start_game w = (r, w') → start_game w' = (Ok tt, w').
Proof.
  destruct (active_game (self w)) eqn:Ha.
  { rewrite tcp_start_game_noop by done. intros [= <- <-].
    by apply tcp_start_game_noop. }
  destruct (decide (clients (self w) = [])) as [He|He].
  { rewrite tcp_start_game_empty by done. intros [= <- <-].
    by apply tcp_start_game_empty. }
  rewrite tcp_start_game_eq by done. intros [= <- <-].
  by apply tcp_start_game_noop.
Qed.

(** What the timeline invariant says of an active session. *)
Lemma tcp_timeline_inv_active w :
  timeline_inv w → active_game (self w) = true →
  (questions (self w) ≠ [] →
   (current_question_index (self w) < length (questions (self w)))%nat)
  ∧ (first_round_pending w = false →
     (current_question_index (self w) < length (questions (self w)))%nat
     ∧ question_start_time (self w) ≠ None).
Proof.
  unfold timeline_inv. intros Hinv Ha.
  destruct (loops (pool w)) as [|pc [|? ?]] eqn:E; [congruence| |done].
  destruct Hinv as [_ Hpc].
  assert (Hpend : first_round_pending w = false →
                  before_first_round (questions (self w)) pc = false).
  { unfold first_round_pending. rewrite E. simpl. by intros [? _]%orb_false_elim. }
  assert (Hlen : questions (self w) ≠ [] → (0 < length (questions (self w)))%nat).
  { destruct (questions (self w)); [done|simpl; lia]. }
  unfold round_open in *.
  destruct pc as [[|i]|[|i]|i|i|]; simpl in *; unfold round_open in *.
  - split; [intros ?%Hlen; lia|].
    by intros ?%Hpend.
  - destruct Hpc as (-> & ? & ?). done.
  - split; [intros ?%Hlen; lia|].
    by intros ?%Hpend.
  - destruct Hpc as ((-> & ? & ?) & ?). done.
  - destruct Hpc as (-> & ? & ?). done.
  - destruct Hpc as (-> & ? & ?). done.
  - destruct Hpc as [[Hq Hi]|(_ & ? & ?)]; [|done].
    split; [done|]. intros Hb%Hpend. by apply bool_decide_eq_false in Hb.
Qed.

(** A script that plays is a run of the transition system. *)
Lemma tcp_act_step a w w' : act a w = Some w' → step w w'.
Proof.
  destruct a as [c a|conn_id c req now|conn_id|c|i now]; simpl.
  - intros [= <-]. eapply (step_open c a). apply surjective_pairing.
  - intros [= <-]. eapply (step_message conn_id c req now).
    apply surjective_pairing.
  - intros [= <-]. eapply (step_close conn_id). apply surjective_pairing.
  - intros [= <-]. apply step_peer_gone.
  - destruct (pool w !! i) as [t|] eqn:E; [|done]. intros [= <-].
    eapply (step_thread t (take i (pool w)) (drop (S i) (pool w)) now).
    + symmetry. by apply take_drop_middle.
    + rewrite <- delete_take_drop. apply surjective_pairing.
Qed.

Lemma tcp_play_rtc script w w' : play script w = Some w' → rtc step w w'.
Proof.
  revert w. induction script as [|a script IH]; intros w; simpl.
  - by intros [= <-].
  - destruct (act a w) as [w1|] eqn:E; [|done]. intros H.
    eapply rtc_l; [exact (tcp_act_step a w w1 E)|by apply IH].
Qed.

Lemma tcp_play_reachable qs script w :
  play script (init qs) = Some w → reachable qs w.
Proof. apply tcp_play_rtc. Qed.

(** *** The host is the earliest connection *)









(** *** The timeline thread makes progress *)



End TcpFacts.

(** ** Facts about the connectionless server *)

Module UdpFacts.
Import Udp PyFacts.

Lemma udp_send_message_eq a p w : send_message a p w = (Ok tt, after_send a p w).
Proof.
  unfold send_message, _next_seq, sendto, after_send, sent. munfold. simpl.
  by destruct (negb _).
Qed.

Lemma udp_broadcast_loop_eq keys p ex w :
  broadcast_loop keys p ex w = (Ok tt, after_broadcast keys p ex w).
Proof.
  revert w. induction keys as [|a keys IH]; intros w; simpl; [done|].
  munfold. case_decide.
  - apply IH.
  - rewrite udp_send_message_eq. apply IH.
Qed.

Lemma udp_broadcast_message_eq p ex w :
  broadcast_message p ex w
  = (Ok tt, after_broadcast (dict_keys (clients (self w))) p ex w).
Proof. unfold broadcast_message. munfold. apply udp_broadcast_loop_eq. Qed.

(** A property kept by one send is kept by a broadcast. *)
Lemma after_broadcast_ind (P : world → Prop) keys p ex w :
  (∀ a w, P w → P (after_send a p w)) → P w → P (after_broadcast keys p ex w).
Proof.
  intros Hs. revert w. induction keys as [|a keys IH]; intros w Hw; simpl; [done|].
  apply IH. case_decide; auto.
Qed.

Lemma preserves_send_message (P : world → Prop) a p :
  (∀ a p w, P w → P (after_send a p w)) → preserves P (send_message a p).
Proof. intros H w r w'. rewrite udp_send_message_eq. intros [= <- <-]. apply H. Qed.

Lemma preserves_broadcast_message (P : world → Prop) p ex :
  (∀ a p w, P w → P (after_send a p w)) → preserves P (broadcast_message p ex).
Proof.
  intros H w r w'. rewrite udp_broadcast_message_eq. intros [= <- <-].
  apply after_broadcast_ind. intros; by apply H.
Qed.

(** Proving that a handler keeps a property: walk down its code, leaving
    the updates of the state to [tac]. *)
Ltac pres tac :=
  repeat first
    [ apply preserves_ret
    | apply preserves_raise
    | apply preserves_get
    | apply preserves_send_message; [tac]
    | apply preserves_broadcast_message; [tac]
    | apply preserves_bind; [|intros ?]
    | apply preserves_try; [|intros ?]
    | apply preserves_modify; [tac]
    | case_match ].

Lemma udp_loops_app ts1 ts2 : loops (ts1 ++ ts2) = loops ts1 ++ loops ts2.
Proof. apply omap_app. Qed.

Lemma udp_loops_elem pc ts : pc ∈ loops ts ↔ GameLoopThread pc ∈ ts.
Proof.
  unfold loops. rewrite list_elem_of_omap. split.
  - intros (t & Ht & Hpc). destruct t; by simplify_eq.
  - intros H. by exists (GameLoopThread pc).
Qed.

Ltac view_tac :=
  intros; unfold timeline_view in *; simpl in *;
  rewrite ?udp_loops_app in *; simpl in *; rewrite ?app_nil_r in *; done.

(** *** Sequence numbers *)








(** *** The timeline *)

(** A broadcast touches the sequence counter and the wire only. *)
Lemma after_broadcast_fields keys p ex w :
  let w' := after_broadcast keys p ex w in
  questions (self w') = questions (self w)
  ∧ clients (self w') = clients (self w)
  ∧ active_game (self w') = active_game (self w)
  ∧ current_question_index (self w') = current_question_index (self w)
  ∧ question_start_time (self w') = question_start_time (self w)
  ∧ pool w' = pool w ∧ cfg w' = cfg w ∧ unreachable w' = unreachable w.
Proof. simpl. apply after_broadcast_ind; [|done]. intros a w1 H. exact H. Qed.

Ltac run :=
  repeat first
    [ rewrite udp_send_message_eq
    | rewrite udp_broadcast_message_eq
    | progress munfold
    | progress simpl ].

Lemma udp_pc_inv_ext pc s s' :
  questions s' = questions s →
  current_question_index s' = current_question_index s →
  question_start_time s' = question_start_time s →
  pc_inv pc s → pc_inv pc s'.
Proof.
  intros Hq Hi Ht. unfold pc_inv, round_open. rewrite Hq, Hi, Ht.
  by destruct pc as [[|i]|[|i]|i|i ?|i|].
Qed.

Lemma udp_timeline_inv_ext w w' :
  timeline_view w' = timeline_view w → timeline_inv w → timeline_inv w'.
Proof.
  unfold timeline_view. intros [= Hq Ha Hi Ht Hl].
  unfold timeline_inv. rewrite Hl, Ha.
  destruct (loops (pool w)) as [|pc [|? ?]]; [done| |done].
  intros [? ?]. split; [done|]. by apply (udp_pc_inv_ext pc (self w)).
Qed.

Lemma handle_datagram_view g a req now :
  preserves (λ w, timeline_view w = g) (handle_datagram a req now).
Proof.
  unfold handle_datagram, handle_client_register, handle_client_answer,
    handle_request_start_game, spawn.
  destruct req; pres view_tac.
Qed.

Lemma heartbeat_tick_view g now :
  preserves (λ w, timeline_view w = g) (heartbeat_tick now).
Proof. unfold heartbeat_tick. pres view_tac. Qed.

Lemma udp_start_game_timeline w r w' :
  loops (pool w) = [] → active_game (self w) = false →
  start_game w = (r, w') → timeline_inv w'.
Proof.
  intros Hl Ha. unfold start_game, spawn. run. rewrite Ha.
  destruct (length (clients (self w)) =? 0)%nat; run; intros [= <- <-];
    unfold timeline_inv; simpl; [by rewrite Hl|].
  match goal with
  | |- context [after_broadcast ?k ?p ?e ?w0] =>
      destruct (after_broadcast_fields k p e w0)
        as (Hq & Hc & Hac & Hi & Ht & Hp & _)
  end.
  rewrite udp_loops_app, Hp. simpl. rewrite Hl. simpl.
  split; [by rewrite Hac|]. unfold pc_inv. by rewrite Hi.
Qed.

Lemma udp_start_game_noop w :
  active_game (self w) = true → start_game w = (Ok tt, w).
Proof.
  intros Ha. unfold start_game. run. rewrite Ha.
  by destruct (length (clients (self w)) =? 0)%nat.
Qed.

Lemma pc_inv_after_broadcast pc keys p ex w :
  pc_inv pc (self w) → pc_inv pc (self (after_broadcast keys p ex w)).
Proof.
  destruct (after_broadcast_fields keys p ex w) as (? & ? & ? & ? & ? & _).
  by apply udp_pc_inv_ext.
Qed.

Lemma active_after_broadcast keys p ex w :
  active_game (self (after_broadcast keys p ex w)) = active_game (self w).
Proof. by destruct (after_broadcast_fields keys p ex w) as (? & ? & ? & _). Qed.

Lemma pool_after_broadcast keys p ex w :
  pool (after_broadcast keys p ex w) = pool w.
Proof. by destruct (after_broadcast_fields keys p ex w) as (_&_&_&_&_&?&_). Qed.

(** From a state that matches its program point the [game_loop] thread
    never raises, and the state it leaves matches the next program point. *)
Lemma udp_game_loop_step_inv pc now w :
  active_game (self w) = true → pc_inv pc (self w) →
  ∃ next w', game_loop_step pc now w = (Ok next, w')
    ∧ pool w' = pool w
    ∧ match next with
      | Some pc' => active_game (self w') = true ∧ pc_inv pc' (self w')
      | None => active_game (self w') = false
      end.
Proof.
  intros Ha Hpc. destruct pc as [i|i|i|i start|i|]; unfold game_loop_step.
  - run. rewrite Ha. destruct (questions (self w) !! i) eqn:E.
    + apply lookup_lt_Some in E. eexists _, _. split; [done|].
      split; [done|]. split; [done|]. destruct i; simpl in *; auto.
    + apply lookup_ge_None in E. eexists _, _. split; [done|].
      split; [done|]. split; [done|]. destruct i; simpl in *.
      * left. split; [|done]. destruct (questions (self w)); simpl in *; [done|lia].
      * right. destruct Hpc as (Hi & ? & ?). unfold round_open.
        rewrite Hi. done.
  - run. eexists _, _. split; [done|]. split; [done|]. split; [done|].
    unfold round_open. destruct i; simpl in *; intuition (done || lia).
  - simpl in Hpc. destruct (Hpc) as (Hi & Hlt & Hst).
    destruct (lookup_lt_is_Some_2 _ _ Hlt) as [q Hq]. run. rewrite Hq. run.
    eexists _, _. split; [done|]. simpl.
    rewrite pool_after_broadcast, active_after_broadcast.
    split; [done|]. split; [done|].
    apply (pc_inv_after_broadcast (Send i)) with (w := w). exact Hpc.
  - simpl in Hpc. destruct (Hpc) as (Hi & Hlt & Hst).
    destruct (lookup_lt_is_Some_2 _ _ Hlt) as [q Hq]. run. rewrite Hq.
    destruct (Qle_bool _ (now - start)); run.
    { eexists _, _. split; [done|]. done. }
    destruct (Qle_bool _ _); run; eexists _, _; (split; [done|]); simpl;
      rewrite ?pool_after_broadcast, ?active_after_broadcast;
      (split; [done|]); (split; [done|]); [|done].
    apply (pc_inv_after_broadcast (Send i)) with (w := w). exact Hpc.
  - simpl in Hpc. destruct (Hpc) as (Hi & Hlt & Hst).
    destruct (lookup_lt_is_Some_2 _ _ Hlt) as [q Hq]. run. rewrite Hq, Ha. run.
    eexists _, _. split; [done|].
    rewrite pool_after_broadcast, active_after_broadcast.
    split; [done|]. split; [done|].
    apply (pc_inv_after_broadcast (Send i)) with (w := w). exact Hpc.
  - unfold end_game. run. eexists _, _. split; [done|]. simpl.
    rewrite pool_after_broadcast. split; [done|].
    match goal with
    | |- context [after_broadcast ?k ?p ?e ?w0] =>
        apply (active_after_broadcast k p e w0)
    end.
Qed.

Lemma udp_loops_singleton ts1 ts2 pc pcs :
  loops (ts1 ++ GameLoopThread pc :: ts2) = [pcs] →
  pcs = pc ∧ loops (ts1 ++ ts2) = [].
Proof.
  rewrite !udp_loops_app. simpl. intros H.
  destruct (loops ts1) as [|x l1]; simpl in *.
  - injection H as -> H. by rewrite H.
  - injection H as -> H. by destruct l1.
Qed.

Lemma udp_run_thread_timeline t ts1 ts2 now w r w' :
  pool w = ts1 ++ t :: ts2 → timeline_inv w →
  run_thread t now (set_pool (ts1 ++ ts2) w) = (r, w') → timeline_inv w'.
Proof.
  intros Hp Hinv. destruct t as [|pc]; simpl.
  - assert (Hl : loops (ts1 ++ ts2) = loops (pool w)).
    { by rewrite Hp, !udp_loops_app. }
    destruct (active_game (self w)) eqn:Ha.
    + rewrite udp_start_game_noop by done. intros [= <- <-].
      apply (udp_timeline_inv_ext w); [|done]. unfold timeline_view. simpl.
      by rewrite Hl.
    + apply udp_start_game_timeline; simpl; [|done].
      unfold timeline_inv in Hinv. rewrite Hl.
      destruct (loops (pool w)) as [|? [|? ?]]; [done| |done].
      destruct Hinv; congruence.
  - unfold timeline_inv in Hinv. rewrite Hp in Hinv.
    destruct (loops (ts1 ++ _ :: ts2)) as [|pcs [|? ?]] eqn:El;
      [|destruct Hinv as [Ha Hpc]|done].
    { rewrite udp_loops_app in El. simpl in El. by destruct (loops ts1). }
    apply udp_loops_singleton in El as [-> Hrest].
    destruct (udp_game_loop_step_inv pc now (set_pool (ts1 ++ ts2) w) Ha Hpc)
      as (next & w1 & Hstep & Hpool & Hnext).
    munfold. rewrite Hstep. simpl in Hpool.
    destruct next as [pc'|]; unfold spawn, modify; intros [= <- <-];
      unfold timeline_inv; simpl; rewrite ?udp_loops_app, Hpool, Hrest; done.
Qed.

Lemma step_timeline w w' : step w w' → timeline_inv w → timeline_inv w'.
Proof.
  intros [now w1 r w2 H|a req now w1 r w2 H|l w1|t ts1 ts2 now w1 r w2 Hp H] Hi.
  - eapply udp_timeline_inv_ext; [|done].
    by eapply (heartbeat_tick_view (timeline_view w1)).
  - eapply udp_timeline_inv_ext; [|done].
    by eapply (handle_datagram_view (timeline_view w1)).
  - done.
  - by eapply udp_run_thread_timeline.
Qed.

Lemma reachable_timeline c qs w : reachable c qs w → timeline_inv w.
Proof.
  unfold reachable. revert w. apply rtc_ind_r.
  - by unfold timeline_inv.
  - intros w1 w2 _ Hstep IH. by eapply step_timeline.
Qed.

(** *** The answer handler *)

Lemma udp_handle_client_answer_accepted a data now w cl q started :
  dict_get a (clients (self w)) = Some cl →
  active_game (self w) = true →
  questions (self w) !! current_question_index (self w) = Some q →
  (length (answers cl) ≤ current_question_index (self w))%nat →
  question_start_time (self w) = Some started →
  let answer := strip (upper (default "" data)) in
  let is_correct := bool_decide (answer = strip (q_answer q)) in
  let time_taken := (now - started)%Q in
  let points := if is_correct then speed_points time_taken else 0 in
  let cl' := Client (name cl) (score cl + points)
               (answers cl ++ [answer]) (answer_times cl ++ [time_taken]) in
  handle_client_answer a data now w
  = (Ok tt,
     after_send a (answer_result is_correct (strip (q_answer q)) points
                     (score cl + points) time_taken)
       (set_self (set_clients (dict_set a cl')) w)).
Proof.
  intros Hcl Ha Hq Hlen Hst. unfold handle_client_answer. run.
  rewrite Hcl, Ha, Hq, Hst. simpl.
  pose proof (lookup_lt_Some _ _ _ Hq) as Hlt.
  destruct (length (questions (self w)) <=? _)%nat eqn:E1;
    [apply Nat.leb_le in E1; lia|].
  destruct (_ <? length (answers cl))%nat eqn:E2;
    [apply Nat.ltb_lt in E2; lia|].
  by run.
Qed.

Lemma udp_handle_client_answer_dropped a data now w cl :
  dict_get a (clients (self w)) = Some cl →
  (current_question_index (self w) < length (answers cl))%nat →
  handle_client_answer a data now w = (Ok tt, w).
Proof.
  intros Hcl Hlen. unfold handle_client_answer. run. rewrite Hcl.
  destruct (negb _ || _); [done|].
  destruct (_ <? length (answers cl))%nat eqn:E2; [done|].
  apply Nat.ltb_ge in E2. lia.
Qed.

Lemma udp_second_answer_dropped a data now data2 now2 w cl q started :
  dict_get a (clients (self w)) = Some cl →
  active_game (self w) = true →
  questions (self w) !! current_question_index (self w) = Some q →
  length (answers cl) = current_question_index (self w) →
  question_start_time (self w) = Some started →
  ∃ w', handle_client_answer a data now w = (Ok tt, w')
        ∧ handle_client_answer a data2 now2 w' = (Ok tt, w').
Proof.
  intros Hcl Ha Hq Hlen Hst. eexists. split.
  - apply (udp_handle_client_answer_accepted a data now w cl q started);
      [done..|lia|done].
  - eapply udp_handle_client_answer_dropped.
    + simpl. apply dict_get_set_eq.
    + simpl. rewrite length_app. simpl. lia.
Qed.

Lemma udp_speed_points_in_time (e : Q) :
  (0 <= e)%Q → (e <= inject_Z QUESTION_TIME_LIMIT)%Q →
  speed_points e
  = Z.max 1 (Qfloor ((inject_Z QUESTION_TIME_LIMIT - e) / 5) + 1).
Proof.
  intros _ He. unfold speed_points. rewrite py_int_floor; [done|].
  apply Qdiv5_nonneg. by apply (proj1 (Qle_minus_iff _ _)).
Qed.

Lemma udp_speed_points_late (e : Q) :
  (inject_Z QUESTION_TIME_LIMIT < e)%Q → speed_points e = 1.
Proof.
  intros He. unfold speed_points.
  assert (H : py_int ((inject_Z QUESTION_TIME_LIMIT - e) / 5) <= 0).
  { by apply py_int_neg, Qdiv5_neg, Qminus_neg. }
  lia.
Qed.

Lemma udp_speed_points_pos (e : Q) : 1 <= speed_points e.
Proof. unfold speed_points. lia. Qed.

(** A broadcast to everybody hands one datagram per registered address to
    the socket, in registry order, and always the same message. *)
Lemma after_broadcast_wire keys p w :
  ∃ news, wire (after_broadcast keys p None w) = wire w ++ news
          ∧ map d_to news = keys
          ∧ Forall (λ d, d_msg d = p) news.
Proof.
  revert w. induction keys as [|a keys IH]; intros w; simpl.
  - exists []. by rewrite app_nil_r.
  - destruct (IH (after_send a p w)) as (news & Hw & Hto & Hmsg).
    exists (sent w a (seq (self w) + 1) p :: news).
    split; [by rewrite Hw; simpl; rewrite <- app_assoc|].
    split; [simpl; by rewrite Hto|]. by constructor.
Qed.

Lemma udp_end_game_eq w :
  end_game w
  = (Ok tt,
     set_self (set_current_question_index 0)
       (after_broadcast (dict_keys (clients (self w)))
          (game_end (make_leaderboard (clients (self w))) "Game finished!")
          None (set_self (set_active_game false) w))).
Proof. unfold end_game. by run. Qed.

Lemma udp_make_leaderboard_sorted cs :
  StronglySorted (λ x y, e_score y <= e_score x) (make_leaderboard cs).
Proof.
  unfold make_leaderboard.
  apply (StronglySorted_weaken (λ x y, by_score_desc x y = true)).
  { unfold by_score_desc. intros x y H. by apply Z.leb_le. }
  apply Sorted_StronglySorted.
  { unfold by_score_desc. intros x y z H1 H2.
    apply Z.leb_le. apply Z.leb_le in H1, H2. lia. }
  apply py_sort_sorted.
  unfold by_score_desc. intros x y H. apply Z.leb_le. apply Z.leb_gt in H. lia.
Qed.

Lemma udp_make_leaderboard_perm cs :
  Permutation (make_leaderboard cs) (map entry_of cs).
Proof. unfold make_leaderboard. symmetry. apply py_sort_perm. Qed.

(** *** Registration and unknown addresses *)

Lemma udp_register_rejected a data_name w :
  active_game (self w) = true →
  handle_client_register a data_name w
  = (Ok tt, after_send a (error "Game already in progress") w).
Proof. intros Ha. unfold handle_client_register. run. rewrite Ha. by run. Qed.

Lemma udp_register_accepted a data_name w :
  active_game (self w) = false →
  let player_name := default ("Player_" +:+ pretty a.2) data_name in
  let cs' := dict_set a (Client player_name 0 [] []) (clients (self w)) in
  handle_client_register a data_name w
  = (Ok tt,
     after_send a
       (registered ("Welcome " +:+ player_name +:+ "!") (length cs'))
       (set_self (set_clients (dict_set a (Client player_name 0 [] []))) w)).
Proof. intros Ha. unfold handle_client_register. run. rewrite Ha. by run. Qed.

Lemma udp_answer_unregistered a data now w :
  dict_get a (clients (self w)) = None →
  handle_datagram a (Answer data) now w = (Ok tt, w).
Proof.
  intros Hc. unfold handle_datagram, handle_client_answer. run. by rewrite Hc.
Qed.

Lemma udp_start_unregistered a now w :
  dict_get a (clients (self w)) = None →
  handle_datagram a StartGame now w
  = (Ok tt, after_send a (error "Not registered") w).
Proof.
  intros Hc. unfold handle_datagram, handle_request_start_game, dict_mem. run.
  rewrite Hc. rewrite bool_decide_eq_false_2 by (by intros [? ?]). by run.
Qed.

(** Nobody ever leaves the registry. *)
Ltac keys_tac :=
  first
    [ by intros
    | intros; simpl; apply dict_keys_set; by right
    | intros; unfold dict_keys in *; simpl;
      rewrite <- list_fmap_compose; simpl; done ].

Lemma heartbeat_tick_keys a now :
  preserves (λ w, a ∈ dict_keys (clients (self w))) (heartbeat_tick now).
Proof. unfold heartbeat_tick. pres keys_tac. Qed.

Lemma handle_datagram_keys a b req now :
  preserves (λ w, a ∈ dict_keys (clients (self w))) (handle_datagram b req now).
Proof.
  unfold handle_datagram, handle_client_register, handle_client_answer,
    handle_request_start_game, spawn.
  destruct req; pres keys_tac.
Qed.

Lemma run_thread_keys a t now :
  preserves (λ w, a ∈ dict_keys (clients (self w))) (run_thread t now).
Proof.
  destruct t as [|pc]; simpl.
  - unfold start_game, spawn. pres keys_tac.
  - destruct pc; unfold game_loop_step, end_game, spawn; pres keys_tac.
Qed.

Lemma step_keeps_registered a w w' :
  step w w' →
  a ∈ dict_keys (clients (self w)) → a ∈ dict_keys (clients (self w')).
Proof.
  intros [now w1 r w2 H|b req now w1 r w2 H|l w1|t ts1 ts2 now w1 r w2 Hp H].
  - revert H. apply (heartbeat_tick_keys a).
  - revert H. apply (handle_datagram_keys a).
  - done.
  - intros Hin. by eapply (run_thread_keys a t now); [exact H|].
Qed.

(** *** What each operation does to the session state *)

Lemma core_after_send a p w : core (self (after_send a p w)) = core (self w).
Proof. done. Qed.

Lemma core_after_broadcast keys p ex w :
  core (self (after_broadcast keys p ex w)) = core (self w).
Proof. apply after_broadcast_ind; [|done]. by intros. Qed.

Lemma udp_handle_client_answer_cases a data now w :
  (∃ r, handle_client_answer a data now w = (r, w))
  ∨ (∃ cl q started,
       dict_get a (clients (self w)) = Some cl
       ∧ active_game (self w) = true
       ∧ questions (self w) !! current_question_index (self w) = Some q
       ∧ (length (answers cl) ≤ current_question_index (self w))%nat
       ∧ question_start_time (self w) = Some started).
Proof.
  unfold handle_client_answer. run.
  destruct (dict_get a (clients (self w))) as [cl|] eqn:Hcl;
    [|left; by eexists].
  destruct (active_game (self w)) eqn:Ha; simpl; [|left; by eexists].
  destruct (length (questions (self w)) <=? _)%nat eqn:E1; [left; by eexists|].
  destruct (_ <? length (answers cl))%nat eqn:E2; [left; by eexists|].
  apply Nat.leb_gt in E1. apply Nat.ltb_ge in E2.
  destruct (lookup_lt_is_Some_2 _ _ E1) as [q Hq]. rewrite Hq.
  destruct (question_start_time (self w)) as [started|] eqn:Hst;
    [|left; by eexists].
  right. by exists cl, q, started.
Qed.

Lemma udp_handle_client_answer_inactive a data now w :
  active_game (self w) = false →
  handle_client_answer a data now w = (Ok tt, w).
Proof.
  intros H. unfold handle_client_answer. run. rewrite H. simpl.
  by destruct (dict_get a _).
Qed.

Lemma udp_handle_client_answer_unstamped a data now w cl q :
  dict_get a (clients (self w)) = Some cl →
  active_game (self w) = true →
  questions (self w) !! current_question_index (self w) = Some q →
  (length (answers cl) ≤ current_question_index (self w))%nat →
  question_start_time (self w) = None →
  handle_client_answer a data now w = (Raise TypeError, w).
Proof.
  intros Hcl Ha Hq Hlen Hst. unfold handle_client_answer. run.
  rewrite Hcl, Ha, Hq, Hst. simpl.
  pose proof (lookup_lt_Some _ _ _ Hq) as Hlt.
  destruct (length (questions (self w)) <=? _)%nat eqn:E1;
    [apply Nat.leb_le in E1; lia|].
  destruct (_ <? length (answers cl))%nat eqn:E2;
    [apply Nat.ltb_lt in E2; lia|].
  done.
Qed.

Lemma udp_handle_request_start_game_core a w r w' :
  handle_request_start_game a w = (r, w') → core (self w') = core (self w).
Proof.
  unfold handle_request_start_game, spawn. run.
  repeat (case_match; simplify_eq/=; run); by intros [= <- <-].
Qed.

(** A handled datagram leaves the session state as it was, or registers
    the sender, or records one answer of the sender. *)
Lemma udp_handle_datagram_core a req now w r w' :
  handle_datagram a req now w = (r, w') →
  core (self w') = core (self w)
  ∨ (∃ n,
       active_game (self w) = false
       ∧ core (self w')
         = core (set_clients (dict_set a (Client n 0 [] [])) (self w)))
  ∨ (∃ cl q started answer points,
       dict_get a (clients (self w)) = Some cl
       ∧ active_game (self w) = true
       ∧ questions (self w) !! current_question_index (self w) = Some q
       ∧ (length (answers cl) ≤ current_question_index (self w))%nat
       ∧ question_start_time (self w) = Some started
       ∧ 0 <= points
       ∧ core (self w')
         = core (set_clients
                   (dict_set a
                      (Client (name cl) (score cl + points)
                         (answers cl ++ [answer])
                         (answer_times cl ++ [(now - started)%Q])))
                   (self w))).
Proof.
  unfold handle_datagram, try_except. destruct req as [n|data| | | |].
  - destruct (active_game (self w)) eqn:Ha.
    + rewrite udp_register_rejected by done. intros [= <- <-]. by left.
    + rewrite (udp_register_accepted a n w Ha).
      intros [= <- <-]. right. left. by eexists.
  - destruct (udp_handle_client_answer_cases a data now w)
      as [[r1 Hr]|(cl & q & started & Hcl & Ha & Hq & Hlen & Hst)].
    + rewrite Hr. destruct r1; [|rewrite udp_send_message_eq];
        intros [= <- <-]; by left.
    + rewrite (udp_handle_client_answer_accepted a data now w cl q started)
        by done.
      intros [= <- <-]. right. right.
      exists cl, q, started, (strip (upper (default "" data))),
        (if bool_decide (strip (upper (default "" data)) = strip (q_answer q))
         then speed_points (now - started) else 0).
      repeat (split; [done|]).
      split; [|done]. case_bool_decide; [|done].
      pose proof (udp_speed_points_pos (now - started)). lia.
  - destruct (handle_request_start_game a w) as [r1 w1] eqn:E.
    apply udp_handle_request_start_game_core in E.
    destruct r1; [|rewrite udp_send_message_eq]; intros [= <- <-]; by left.
  - run. intros [= <- <-]. by left.
  - run. intros [= <- <-]. by left.
  - run. intros [= <- <-]. by left.
Qed.

Lemma udp_heartbeat_tick_core now w r w' :
  heartbeat_tick now w = (r, w') → core (self w') = core (self w).
Proof.
  unfold heartbeat_tick. run. destruct (_ && _); run; intros [= <- <-]; [|done].
  simpl. apply core_after_broadcast.
Qed.

Lemma udp_start_game_empty w :
  clients (self w) = [] → start_game w = (Ok tt, w).
Proof. intros H. unfold start_game. run. by rewrite H. Qed.

Lemma udp_start_game_core w r w' :
  active_game (self w) = false → clients (self w) ≠ [] →
  start_game w = (r, w') →
  r = Ok tt
  ∧ pool w' = pool w ++ [GameLoopThread (Head 0)]
  ∧ core (self w')
    = core (set_clients (map (λ kc, (kc.1, reset_client kc.2)))
              (set_current_question_index 0
                 (set_active_game true (self w)))).
Proof.
  intros Ha Hne. unfold start_game, spawn. run. rewrite Ha.
  assert ((length (clients (self w)) =? 0)%nat = false) as ->.
  { by destruct (clients (self w)). }
  run. intros [= <- <-]. split; [done|]. simpl.
  rewrite pool_after_broadcast. split; [done|].
  match goal with
  | |- context [after_broadcast ?k ?p ?e ?w0] =>
      apply (core_after_broadcast k p e w0)
  end.
Qed.

Lemma udp_game_loop_step_core pc now w r w' :
  game_loop_step pc now w = (r, w') →
  core (self w')
  = core match pc with
         | Begin i =>
             set_question_start_time (Some now)
               (set_current_question_index i (self w))
         | Finish =>
             set_current_question_index 0 (set_active_game false (self w))
         | _ => self w
         end.
Proof.
  destruct pc; unfold game_loop_step, end_game; run;
    repeat (case_match; simplify_eq/=; run;
            repeat match goal with
            | H : broadcast_message _ _ _ = _ |- _ =>
                rewrite udp_broadcast_message_eq in H; simplify_eq/=
            end);
    intros [= <- <-]; try done; simpl;
    repeat match goal with
    | |- context [after_broadcast ?k ?p ?e ?w0] =>
        rewrite (core_after_broadcast k p e w0)
    | |- context [core (set_last_rebroadcast ?t ?s0)] =>
        change (core (set_last_rebroadcast t s0)) with (core s0)
    end; try done.
  unfold core. simpl.
  match goal with
  | |- context [after_broadcast ?k ?p ?e ?w0] =>
      destruct (after_broadcast_fields k p e w0)
        as (Hq & Hc & Ha & _ & Ht & _)
  end.
  by rewrite Hq, Hc, Ha, Ht.
Qed.

(** *** Invariants of the data *)

Lemma udp_data_inv_core qs w' s :
  core (self w') = core s →
  questions s = qs ∧ NoDup (dict_keys (clients s))
  ∧ Forall (λ kc : address * client, client_ok s kc.2) (clients s) →
  data_inv qs w'.
Proof.
  unfold core. intros [= Hq Hc Ha Hi Ht] (Hqs & Hnd & Hpl).
  unfold data_inv, players_inv. rewrite Hq, Hc. split; [done|]. split; [done|].
  eapply Forall_impl; [exact Hpl|]. intros kc.
  unfold client_ok. by rewrite Hq, Ha, Hi.
Qed.

Lemma udp_timeline_inv_thread w ts1 pc ts2 :
  pool w = ts1 ++ GameLoopThread pc :: ts2 → timeline_inv w →
  active_game (self w) = true ∧ pc_inv pc (self w).
Proof.
  intros Hp Hinv. unfold timeline_inv in Hinv. rewrite Hp in Hinv.
  destruct (loops (ts1 ++ _ :: ts2)) as [|pcs [|? ?]] eqn:El; [|  |done].
  - rewrite udp_loops_app in El. simpl in El. by destruct (loops ts1).
  - by apply udp_loops_singleton in El as [-> _].
Qed.

Lemma udp_datagram_data_inv qs a req now w r w' :
  handle_datagram a req now w = (r, w') → data_inv qs w → data_inv qs w'.
Proof.
  intros H (Hq & Hnd & Hpl).
  apply udp_handle_datagram_core in H
    as [Hs|[(n & Ha & Hs)
           |(cl & q & started & answer & pts & Hcl & Ha & Hqi & Hlen & Hst
             & Hpts & Hs)]].
  - by apply (udp_data_inv_core qs w' (self w)).
  - apply (udp_data_inv_core qs w' _ Hs). simpl.
    split; [done|]. split; [by apply dict_set_NoDup|].
    apply dict_set_Forall; [|done].
    unfold client_ok. simpl. repeat split; lia.
  - apply (udp_data_inv_core qs w' _ Hs). simpl.
    split; [done|]. split; [by apply dict_set_NoDup|].
    pose proof (dict_get_Forall _ _ _ _ Hcl Hpl) as (H0 & Hl & _ & _).
    pose proof (lookup_lt_Some _ _ _ Hqi) as Hlt'.
    apply dict_set_Forall; [|done].
    unfold client_ok. simpl in *. rewrite !length_app. simpl.
    repeat split; lia.
Qed.

Lemma udp_start_data_inv qs w r w' :
  start_game w = (r, w') → data_inv qs w → data_inv qs w'.
Proof.
  destruct (active_game (self w)) eqn:Ha.
  { rewrite udp_start_game_noop by done. by intros [= <- <-]. }
  destruct (decide (clients (self w) = [])) as [He|He].
  { rewrite udp_start_game_empty by done. by intros [= <- <-]. }
  intros (_ & _ & Hs)%udp_start_game_core (Hq & Hnd & Hpl); [|done..].
  apply (udp_data_inv_core qs w' _ Hs). simpl. split; [done|].
  assert (Hk : dict_keys (map (λ kc : address * client,
                                 (kc.1, reset_client kc.2))
                            (clients (self w)))
               = dict_keys (clients (self w))).
  { unfold dict_keys. rewrite <- list_fmap_compose. by apply list_fmap_ext. }
  rewrite Hk. split; [done|].
  apply Forall_fmap. eapply Forall_impl; [exact Hpl|].
  intros kc _. unfold client_ok. simpl. repeat split; lia.
Qed.

Lemma udp_loop_data_inv qs pc now w r w' :
  active_game (self w) = true → pc_inv pc (self w) →
  game_loop_step pc now w = (r, w') → data_inv qs w → data_inv qs w'.
Proof.
  intros Ha Hpc Hs%udp_game_loop_step_core (Hq & Hnd & Hpl).
  apply (udp_data_inv_core qs w' _ Hs).
  destruct pc as [i|i|i|i ?|i|]; simpl; try done.
  - split; [done|]. split; [done|].
    eapply Forall_impl; [exact Hpl|]. intros kc (H0 & Hl & Hn & Hi).
    unfold client_ok. simpl. repeat split; try done.
    intros _. specialize (Hi Ha).
    destruct i; simpl in Hpc; unfold round_open in Hpc; lia.
  - split; [done|]. split; [done|].
    eapply Forall_impl; [exact Hpl|]. intros kc (H0 & Hl & Hn & Hi).
    unfold client_ok. simpl. repeat split; done.
Qed.

Lemma udp_step_data_inv qs w w' :
  step w w' → timeline_inv w → data_inv qs w → data_inv qs w'.
Proof.
  intros Hstep Ht. destruct Hstep as
    [now w r w' H|a req now w r w' H|l w|t ts1 ts2 now w r w' Hp H].
  - intros Hd. apply udp_heartbeat_tick_core in H.
    by apply (udp_data_inv_core qs w' (self w)).
  - by eapply udp_datagram_data_inv.
  - done.
  - destruct t as [|pc]; simpl in H.
    + intros Hd. by eapply udp_start_data_inv; [exact H|].
    + destruct (udp_timeline_inv_thread w ts1 pc ts2 Hp Ht) as [Ha Hpc].
      revert H. munfold.
      destruct (game_loop_step pc now _) as [[next|e] w1] eqn:E.
      * intros Hsp Hd.
        assert (Hd1 : data_inv qs w1).
        { by eapply (udp_loop_data_inv qs pc now (set_pool (ts1 ++ ts2) w));
            [..|exact E|]. }
        destruct next; unfold spawn, modify in Hsp; by simplify_eq.
      * intros [= <- <-] Hd.
        by eapply (udp_loop_data_inv qs pc now (set_pool (ts1 ++ ts2) w));
          [..|exact E|].
Qed.

Lemma udp_reachable_all_inv c qs w :
  reachable c qs w → timeline_inv w ∧ data_inv qs w.
Proof.
  unfold reachable. revert w. apply rtc_ind_r.
  - split; [by unfold timeline_inv|]. split; [done|]. split; constructor.
  - intros w1 w2 _ Hstep (Ht & Hd).
    split; [by eapply step_timeline|]. by eapply udp_step_data_inv.
Qed.

(** *** Start requests, repeated starts, heartbeats *)

Lemma udp_request_start_accepted a w :
  is_Some (dict_get a (clients (self w))) →
  active_game (self w) = false →
  handle_request_start_game a w
  = (Ok tt, set_pool (pool w ++ [StartGameThread]) w).
Proof.
  intros Hin Ha. unfold handle_request_start_game, spawn, dict_mem. run.
  rewrite Ha. rewrite bool_decide_eq_true_2 by done. simpl.
  destruct Hin as [cl Hcl]. destruct (clients (self w)); [done|]. done.
Qed.

Lemma udp_request_start_active a w :
  is_Some (dict_get a (clients (self w))) →
  active_game (self w) = true →
  handle_request_start_game a w
  = (Ok tt, after_send a (error "Cannot start game now") w).
Proof.
  intros Hin Ha. unfold handle_request_start_game, spawn, dict_mem. run.
  rewrite Ha. rewrite bool_decide_eq_true_2 by done. by run.
Qed.

Lemma udp_start_game_twice w r w' :
  start_game w = (r, w') → start_game w' = (Ok tt, w').
Proof.
  destruct (active_game (self w)) eqn:Ha.
  { rewrite udp_start_game_noop by done. intros [= <- <-].
    by apply udp_start_game_noop. }
  destruct (decide (clients (self w) = [])) as [He|He].
  { rewrite udp_start_game_empty by done. intros [= <- <-].
    by apply udp_start_game_empty. }
  intros H. apply udp_start_game_noop.
  apply udp_start_game_core in H as (_ & _ & Hc); [|done..].
  unfold core in Hc. by injection Hc.
Qed.

Lemma udp_heartbeat_tick_eq now w :
  heartbeat_tick now w
  = (Ok tt,
     if Qle_bool (HEARTBEAT_INTERVAL (cfg w)) (now - _last_heartbeat (self w))
        && (0 <? length (clients (self w)))%nat
     then set_self (set_last_heartbeat now)
            (after_broadcast (dict_keys (clients (self w)))
               (heartbeat "server heartbeat") None w)
     else w).
Proof. unfold heartbeat_tick. run. by destruct (_ && _); run. Qed.

Lemma cfg_after_broadcast keys p ex w : cfg (after_broadcast keys p ex w) = cfg w.
Proof. by destruct (after_broadcast_fields keys p ex w) as (_&_&_&_&_&_&?&_). Qed.

(** What the timeline invariant says of an active session. *)
Lemma udp_timeline_inv_active w :
  timeline_inv w → active_game (self w) = true →
  (questions (self w) ≠ [] →
   (current_question_index (self w) < length (questions (self w)))%nat)
  ∧ (first_round_pending w = false →
     (current_question_index (self w) < length (questions (self w)))%nat
     ∧ question_start_time (self w) ≠ None).
Proof.
  unfold timeline_inv. intros Hinv Ha.
  destruct (loops (pool w)) as [|pc [|? ?]] eqn:E; [congruence| |done].
  destruct Hinv as [_ Hpc].
  assert (Hpend : first_round_pending w = false →
                  before_first_round (questions (self w)) pc = false).
  { unfold first_round_pending. rewrite E. simpl. by intros [? _]%orb_false_elim. }
  assert (Hlen : questions (self w) ≠ [] → (0 < length (questions (self w)))%nat).
  { destruct (questions (self w)); [done|simpl; lia]. }
  unfold round_open in *.
  destruct pc as [[|i]|[|i]|i|i ?|i|]; simpl in *; unfold round_open in *.
  - split; [intros ?%Hlen; lia|].
    by intros ?%Hpend.
  - destruct Hpc as (-> & ? & ?). done.
  - split; [intros ?%Hlen; lia|].
    by intros ?%Hpend.
  - destruct Hpc as ((-> & ? & ?) & ?). done.
  - destruct Hpc as (-> & ? & ?). done.
  - destruct Hpc as (-> & ? & ?). done.
  - destruct Hpc as (-> & ? & ?). done.
  - destruct Hpc as [[Hq Hi]|(_ & ? & ?)]; [|done].
    split; [done|]. intros Hb%Hpend. by apply bool_decide_eq_false in Hb.
Qed.

(** A script that plays is a run of the transition system. *)
Lemma udp_act_step a w w' : act a w = Some w' → step w w'.
Proof.
  destruct a as [now|a req now|l|i now]; simpl.
  - intros [= <-]. eapply (step_heartbeat now). apply surjective_pairing.
  - intros [= <-]. eapply (step_datagram a req now). apply surjective_pairing.
  - intros [= <-]. apply step_network.
  - destruct (pool w !! i) as [t|] eqn:E; [|done]. intros [= <-].
    eapply (step_thread t (take i (pool w)) (drop (S i) (pool w)) now).
    + symmetry. by apply take_drop_middle.
    + rewrite <- delete_take_drop. apply surjective_pairing.
Qed.

Lemma udp_play_rtc script w w' : play script w = Some w' → rtc step w w'.
Proof.
  revert w. induction script as [|a script IH]; intros w; simpl.
  - by intros [= <-].
  - destruct (act a w) as [w1|] eqn:E; [|done]. intros H.
    eapply rtc_l; [exact (udp_act_step a w w1 E)|by apply IH].
Qed.

Lemma udp_play_reachable c qs script w :
  play script (init c qs) = Some w → reachable c qs w.
Proof. apply udp_play_rtc. Qed.

(** [start_game] resolved, for a lobby with somebody in it. *)
Lemma udp_start_game_eq w :
  active_game (self w) = false → clients (self w) ≠ [] →
  let w1 := set_self (set_clients (map (λ kc, (kc.1, reset_client kc.2))))
              (set_self (set_current_question_index 0)
                 (set_self (set_active_game true) w)) in
  let w2 := after_broadcast (dict_keys (clients (self w1)))
              (game_start "Game starting!" (length (questions (self w))))
              None w1 in
  start_game w
  = (Ok tt, set_pool (pool w2 ++ [GameLoopThread (Head 0)]) w2).
Proof.
  intros Ha Hne. unfold start_game, spawn. run. rewrite Ha.
  assert ((length (clients (self w)) =? 0)%nat = false) as ->.
  { by destruct (clients (self w)). }
  by run.
Qed.

(** One turn of the question window resolved. *)
Lemma udp_window_eq i start now w :
  game_loop_step (Window i start) now w
  = if Qle_bool (inject_Z QUESTION_TIME_LIMIT) (now - start)
    then (Ok (Some (Close i)), w)
    else match questions (self w) !! i with
         | None => (Raise IndexError, w)
         | Some q =>
             (Ok (Some (Window i start)),
              if Qle_bool (REBROADCAST_INTERVAL (cfg w))
                   (now - start - _last_rebroadcast (self w))
              then set_self (set_last_rebroadcast (now - start)%Q)
                     (after_broadcast (dict_keys (clients (self w)))
                        (question_msg (i + 1) (length (questions (self w)))
                           (q_question q) (q_options q) QUESTION_TIME_LIMIT)
                        None w)
              else w)
         end.
Proof.
  unfold game_loop_step. run. cbv zeta.
  destruct (Qle_bool (inject_Z QUESTION_TIME_LIMIT) (now - start)); [by run|].
  destruct (questions (self w) !! i) as [q|]; [|by run].
  destruct (Qle_bool (REBROADCAST_INTERVAL (cfg w)) _); by run.
Qed.

(** *** Sequence numbers have no gaps *)








End UdpFacts.

(** ** Facts about the text clients *)

Module ClientFacts.

(** The four answer letters are what both normalisations leave alone. *)
Lemma letter_fixed (l : string) :
  l ∈ ["A"; "B"; "C"; "D"]%string → strip l = l ∧ upper l = l.
Proof.
  rewrite !elem_of_cons, elem_of_nil.
  intros [->|[->|[->|[->|[]]]]]; by vm_compute.
Qed.

(** The only answer a turn of the input loop can send is the typed line,
    normalised, and then it is one of the four letters. *)
Lemma tcp_command_answer raw now s a :
  Tcp.Answer a ∈ (TcpClient.command raw now s).1 →
  upper (lower (strip raw)) ∈ ["A"; "B"; "C"; "D"]%string
  ∧ a = Some (upper (lower (strip raw)))
  ∧ (TcpClient.command raw now s).1 = [Tcp.Answer a]
  ∧ ∃ q, TcpClient.current_question s = Some q
         ∧ TcpClient.answered q = false
         ∧ TcpClient.current_question (TcpClient.command raw now s).2
           = Some (TcpClient.Shown (TcpClient.question_number q)
                     (TcpClient.total_questions q) (TcpClient.text q)
                     (TcpClient.options q) (TcpClient.time_limit q) true).
Proof.
  unfold TcpClient.command, TcpClient.submit_answer. cbv zeta.
  repeat case_match; simpl; intros Hin;
    repeat (apply elem_of_cons in Hin as [Hin|Hin]; [try done|]);
    try by apply elem_of_nil in Hin.
  injection Hin as ->.
  match goal with
  | H : _ && _ = true |- _ =>
      apply andb_true_iff in H as [_ Hl%bool_decide_eq_true]
  end.
  destruct (letter_fixed _ Hl) as [-> _]. eauto 10.
Qed.

Lemma udp_command_answer raw now s a :
  Udp.Answer a ∈ (UdpClient.command raw now s).1 →
  upper (lower (strip raw)) ∈ ["A"; "B"; "C"; "D"]%string
  ∧ a = Some (upper (lower (strip raw)))
  ∧ (UdpClient.command raw now s).1 = [Udp.Answer a]
  ∧ UdpClient.current_question (UdpClient.command raw now s).2 = None.
Proof.
  unfold UdpClient.command, UdpClient.submit_answer. cbv zeta.
  repeat case_match; simpl; intros Hin;
    repeat (apply elem_of_cons in Hin as [Hin|Hin]; [try done|]);
    try by apply elem_of_nil in Hin.
  injection Hin as ->.
  match goal with
  | H : _ && _ = true |- _ =>
      apply andb_true_iff in H as [_ Hl%bool_decide_eq_true]
  end.
  destruct (letter_fixed _ Hl) as [-> _]. eauto 10.
Qed.

(** The state a turn of the input loop leaves differs from the one it found
    at most in [running] and in the question having been answered. *)
Lemma tcp_command_state raw now s :
  (TcpClient.command raw now s).1 = []
  → TcpClient.current_question (TcpClient.command raw now s).2
    = TcpClient.current_question s.
Proof.
  unfold TcpClient.command, TcpClient.submit_answer. cbv zeta.
  repeat case_match; simpl; done.
Qed.


(** One event sends an answer only by using up a pending question, and
    only a [question] message makes one pending. *)
Lemma tcp_client_react_budget e s :
  (length (List.filter TcpClient.is_answer (TcpClient.react e s).1)
   + Nat.b2n (TcpClient.pending (TcpClient.react e s).2)
   ≤ Nat.b2n (TcpClient.pending s) + Nat.b2n (TcpClient.is_question e))%nat.
Proof.
  destruct e as [m now|raw now]; simpl.
  - destruct m; simpl; unfold TcpClient.pending; simpl;
      repeat case_match; simpl; lia.
  - unfold TcpClient.command, TcpClient.submit_answer, TcpClient.pending.
    cbv zeta.
    repeat (case_match; simplify_eq/=);
      repeat match goal with
      | H : _ = _ |- _ => rewrite H
      end; simpl; try lia.
Qed.

Lemma tcp_client_session_budget evs s :
  (length (List.filter TcpClient.is_answer (TcpClient.session evs s).1)
   + Nat.b2n (TcpClient.pending (TcpClient.session evs s).2)
   ≤ Nat.b2n (TcpClient.pending s)
     + length (List.filter TcpClient.is_question evs))%nat.
Proof.
  revert s. induction evs as [|e evs IH]; intros s; simpl; [lia|].
  rewrite List.filter_app, length_app.
  pose proof (tcp_client_react_budget e s) as He.
  pose proof (IH (TcpClient.react e s).2) as Hs.
  destruct (TcpClient.is_question e); simpl in *; lia.
Qed.

(** One event sends an answer only by using up a pending question, and
    only a [question] message makes one pending. *)
Lemma udp_client_react_budget e s :
  (length (List.filter UdpClient.is_answer (UdpClient.react e s).1)
   + Nat.b2n (UdpClient.pending (UdpClient.react e s).2)
   ≤ Nat.b2n (UdpClient.pending s) + Nat.b2n (UdpClient.is_question e))%nat.
Proof.
  destruct e as [m now|raw now]; simpl.
  - destruct m; simpl; unfold UdpClient.pending; simpl;
      repeat case_match; simpl; lia.
  - unfold UdpClient.command, UdpClient.submit_answer, UdpClient.pending. cbv zeta.
    repeat (case_match; simplify_eq/=);
      repeat match goal with
      | H : _ = _ |- _ => rewrite H
      end; simpl; try lia.
Qed.

Lemma udp_client_session_budget evs s :
  (length (List.filter UdpClient.is_answer (UdpClient.session evs s).1)
   + Nat.b2n (UdpClient.pending (UdpClient.session evs s).2)
   ≤ Nat.b2n (UdpClient.pending s)
     + length (List.filter UdpClient.is_question evs))%nat.
Proof.
  revert s. induction evs as [|e evs IH]; intros s; simpl; [lia|].
  rewrite List.filter_app, length_app.
  pose proof (udp_client_react_budget e s) as He.
  pose proof (IH (UdpClient.react e s).2) as Hs.
  destruct (UdpClient.is_question e); simpl in *; lia.
Qed.

End ClientFacts.

(** ** The claims *)

Lemma tcp_script_reachable qs script w :
  Tcp.play script (Tcp.init qs) = Some w → Tcp.reachable qs w.
Proof. apply TcpFacts.tcp_play_reachable. Qed.

Lemma udp_script_reachable c qs script w :
  Udp.play script (Udp.init c qs) = Some w → Udp.reachable c qs w.
Proof. apply UdpFacts.udp_play_reachable. Qed.

(** C8, as stated, fails: right after [start_game] the session is active
    while no round start has been stamped yet. *)
Lemma C8_active_without_round_start :
  let w := Tcp.run_script Scenario.tcp_bank Scenario.tcp_started in
  Tcp.reachable Scenario.tcp_bank w
  ∧ Tcp.active_game (Tcp.self w) = true
  ∧ Tcp.question_start_time (Tcp.self w) = None.
Proof.
  cbv zeta. split; [|by vm_compute].
  apply (tcp_script_reachable _ Scenario.tcp_started). by vm_compute.
Qed.

(** C8, amended: in every reachable state of either server with an active
    session, the round index is below the number of questions if the bank
    is not empty, and once the timeline thread has stamped its first round
    the index is below the number of questions and the round start is set. *)
Theorem C8_active_session_invariant qs w c uqs uw :
  Tcp.reachable qs w → Udp.reachable c uqs uw →
  (Tcp.active_game (Tcp.self w) = true →
     (Tcp.questions (Tcp.self w) ≠ [] →
      (Tcp.current_question_index (Tcp.self w)
       < length (Tcp.questions (Tcp.self w)))%nat)
     ∧ (Tcp.first_round_pending w = false →
        (Tcp.current_question_index (Tcp.self w)
         < length (Tcp.questions (Tcp.self w)))%nat
        ∧ Tcp.question_start_time (Tcp.self w) ≠ None))
  ∧ (Udp.active_game (Udp.self uw) = true →
     (Udp.questions (Udp.self uw) ≠ [] →
      (Udp.current_question_index (Udp.self uw)
       < length (Udp.questions (Udp.self uw)))%nat)
     ∧ (Udp.first_round_pending uw = false →
        (Udp.current_question_index (Udp.self uw)
         < length (Udp.questions (Udp.self uw)))%nat
        ∧ Udp.question_start_time (Udp.self uw) ≠ None)).
Proof.
  intros Ht Hu. split.
  - apply TcpFacts.tcp_timeline_inv_active. by apply (TcpFacts.reachable_inv qs).
  - apply UdpFacts.udp_timeline_inv_active. by apply (UdpFacts.reachable_timeline c uqs).
Qed.

(** C8 at work: both servers after round 0 has been stamped. *)
Lemma C8_active_session_invariant_witness :
  let w := Tcp.run_script Scenario.tcp_bank Scenario.tcp_round0 in
  let uw :=
    Udp.run_script Scenario.udp_config Scenario.udp_bank Scenario.udp_round0 in
  ((Tcp.current_question_index (Tcp.self w)
    < length (Tcp.questions (Tcp.self w)))%nat
   ∧ Tcp.question_start_time (Tcp.self w) ≠ None)
  ∧ ((Udp.current_question_index (Udp.self uw)
      < length (Udp.questions (Udp.self uw)))%nat
     ∧ Udp.question_start_time (Udp.self uw) ≠ None).
Proof.
  cbv zeta.
  destruct (C8_active_session_invariant Scenario.tcp_bank
              (Tcp.run_script Scenario.tcp_bank Scenario.tcp_round0)
              Scenario.udp_config Scenario.udp_bank
              (Udp.run_script Scenario.udp_config Scenario.udp_bank
                 Scenario.udp_round0)) as [Ht Hu].
  - apply (tcp_script_reachable _ Scenario.tcp_round0). vm_compute. reflexivity.
  - apply (udp_script_reachable _ _ Scenario.udp_round0). vm_compute. reflexivity.
  - split.
    + apply Ht; vm_compute; reflexivity.
    + apply Hu; vm_compute; reflexivity.
Defined.



(** C1, on the code: Bob let round 0 pass without answering.  In round 1
    (index 1) his answer list is empty, so the guard
    [len(client['answers']) > current_question_index] lets two submissions
    through: both are recorded and both are scored, in either server. *)
Lemma C1_two_answers_accepted_in_one_round :
  let w0 := Tcp.run_script Scenario.tcp_bank Scenario.tcp_round1 in
  let w1 := Tcp.run_script Scenario.tcp_bank
              (Scenario.tcp_round1
               ++ [Tcp.Message 1 11 (Tcp.Answer (Some "A")) 113]) in
  let w2 := Tcp.run_script Scenario.tcp_bank
              (Scenario.tcp_round1
               ++ [Tcp.Message 1 11 (Tcp.Answer (Some "A")) 113;
                   Tcp.Message 1 11 (Tcp.Answer (Some "A")) 114]) in
  let u0 := Udp.run_script Scenario.udp_config Scenario.udp_bank
              Scenario.udp_round1 in
  let u1 := Udp.run_script Scenario.udp_config Scenario.udp_bank
              (Scenario.udp_round1
               ++ [Udp.Receive Scenario.bob (Udp.Answer (Some "A")) 113]) in
  let u2 := Udp.run_script Scenario.udp_config Scenario.udp_bank
              (Scenario.udp_round1
               ++ [Udp.Receive Scenario.bob (Udp.Answer (Some "A")) 113;
                   Udp.Receive Scenario.bob (Udp.Answer (Some "A")) 114]) in
  (Tcp.reachable Scenario.tcp_bank w2
   ∧ Tcp.current_question_index (Tcp.self w0) = 1%nat
   ∧ Tcp.current_question_index (Tcp.self w2) = 1%nat
   ∧ Tcp.score <$> dict_get 1%nat (Tcp.clients (Tcp.self w0)) = Some 0
   ∧ Tcp.score <$> dict_get 1%nat (Tcp.clients (Tcp.self w1)) = Some 2
   ∧ Tcp.score <$> dict_get 1%nat (Tcp.clients (Tcp.self w2)) = Some 4
   ∧ Tcp.answers <$> dict_get 1%nat (Tcp.clients (Tcp.self w2))
     = Some ["A"; "A"]%string)
  ∧ (Udp.reachable Scenario.udp_config Scenario.udp_bank u2
     ∧ Udp.current_question_index (Udp.self u0) = 1%nat
     ∧ Udp.current_question_index (Udp.self u2) = 1%nat
     ∧ Udp.score <$> dict_get Scenario.bob (Udp.clients (Udp.self u0)) = Some 0
     ∧ Udp.score <$> dict_get Scenario.bob (Udp.clients (Udp.self u1)) = Some 2
     ∧ Udp.score <$> dict_get Scenario.bob (Udp.clients (Udp.self u2)) = Some 4
     ∧ Udp.answers <$> dict_get Scenario.bob (Udp.clients (Udp.self u2))
       = Some ["A"; "A"]%string).
Proof.
  cbv zeta. split.
  - split; [|by vm_compute].
    match goal with
    | |- Tcp.reachable _ (Tcp.run_script _ ?s) =>
        apply (tcp_script_reachable _ s); by vm_compute
    end.
  - split; [|by vm_compute].
    match goal with
    | |- Udp.reachable _ _ (Udp.run_script _ _ ?s) =>
        apply (udp_script_reachable _ _ s); by vm_compute
    end.
Qed.

(** C2, as stated, fails on late answers: round 0 was stamped at 100 and
    closed at 110; Bob's correct answer at 112, 12 seconds in, is accepted
    and earns 1 point, in either server. *)
Lemma C2_late_correct_answer_scores :
  let w := Tcp.run_script Scenario.tcp_bank Scenario.tcp_round0_closed in
  let w' := Tcp.run_script Scenario.tcp_bank
              (Scenario.tcp_round0_closed
               ++ [Tcp.Message 1 11 (Tcp.Answer (Some "B")) 112]) in
  let u := Udp.run_script Scenario.udp_config Scenario.udp_bank
             Scenario.udp_round0_closed in
  let u' := Udp.run_script Scenario.udp_config Scenario.udp_bank
              (Scenario.udp_round0_closed
               ++ [Udp.Receive Scenario.bob (Udp.Answer (Some "B")) 112]) in
  (Tcp.reachable Scenario.tcp_bank w'
   ∧ Tcp.question_start_time (Tcp.self w) = Some 100%Q
   ∧ Tcp.score <$> dict_get 1%nat (Tcp.clients (Tcp.self w)) = Some 0
   ∧ Tcp.score <$> dict_get 1%nat (Tcp.clients (Tcp.self w')) = Some 1
   ∧ last (Tcp.wire w')
     = Some (Tcp.Sendall 11 (Tcp.answer_result true "B" 1 1 (112 - 100)%Q) true))
  ∧ (Udp.reachable Scenario.udp_config Scenario.udp_bank u'
     ∧ Udp.question_start_time (Udp.self u) = Some 100%Q
     ∧ Udp.score <$> dict_get Scenario.bob (Udp.clients (Udp.self u)) = Some 0
     ∧ Udp.score <$> dict_get Scenario.bob (Udp.clients (Udp.self u')) = Some 1
     ∧ Udp.d_msg <$> last (Udp.wire u')
       = Some (Udp.answer_result true "B" 1 1 (112 - 100)%Q)).
Proof.
  cbv zeta. split.
  - split; [|by vm_compute].
    match goal with
    | |- Tcp.reachable _ (Tcp.run_script _ ?s) =>
        apply (tcp_script_reachable _ s); by vm_compute
    end.
  - split; [|by vm_compute].
    match goal with
    | |- Udp.reachable _ _ (Udp.run_script _ _ ?s) =>
        apply (udp_script_reachable _ _ s); by vm_compute
    end.
Qed.

(** C2, amended: an answer that passes the guards of [handle_client_answer]
    (known client, active game, no more recorded answers than the round
    index) is always recorded and acknowledged, and with [e] the time since
    the round start: a correct answer with [0 <= e <= 10] earns
    [max(1, floor((10 - e) / 5) + 1)] points, a correct answer with
    [e > 10] earns 1 point, an incorrect answer earns 0; the points are
    added to the player's score.  There is no time bar.  Both servers. *)
Theorem C2_scoring_rule
    (w : Tcp.world) conn_id c data now cl q started
    (u : Udp.world) a udata unow ucl uq ustarted :
  dict_get conn_id (Tcp.clients (Tcp.self w)) = Some cl →
  Tcp.active_game (Tcp.self w) = true →
  Tcp.questions (Tcp.self w) !! Tcp.current_question_index (Tcp.self w)
    = Some q →
  (length (Tcp.answers cl) ≤ Tcp.current_question_index (Tcp.self w))%nat →
  Tcp.question_start_time (Tcp.self w) = Some started →
  dict_get a (Udp.clients (Udp.self u)) = Some ucl →
  Udp.active_game (Udp.self u) = true →
  Udp.questions (Udp.self u) !! Udp.current_question_index (Udp.self u)
    = Some uq →
  (length (Udp.answers ucl) ≤ Udp.current_question_index (Udp.self u))%nat →
  Udp.question_start_time (Udp.self u) = Some ustarted →
  (let e := (now - started)%Q in
   let ok := bool_decide (strip (upper (default "" data))
                          = strip (Tcp.q_answer q)) in
   ∃ pts w',
     Tcp.handle_client_answer conn_id c data now w = (Ok tt, w')
     ∧ Tcp.score <$> dict_get conn_id (Tcp.clients (Tcp.self w'))
       = Some (Tcp.score cl + pts)
     ∧ Tcp.wire w'
       = Tcp.wire w
         ++ [Tcp.sent w c
               (Tcp.answer_result ok (strip (Tcp.q_answer q)) pts
                  (Tcp.score cl + pts) e)]
     ∧ (ok = true → (0 <= e)%Q → (e <= 10)%Q →
        pts = Z.max 1 (Qfloor ((10 - e) / 5) + 1))
     ∧ (ok = true → (10 < e)%Q → pts = 1)
     ∧ (ok = false → pts = 0))
  ∧ (let e := (unow - ustarted)%Q in
     let ok := bool_decide (strip (upper (default "" udata))
                            = strip (Udp.q_answer uq)) in
     ∃ pts u',
       Udp.handle_client_answer a udata unow u = (Ok tt, u')
       ∧ Udp.score <$> dict_get a (Udp.clients (Udp.self u'))
         = Some (Udp.score ucl + pts)
       ∧ Udp.wire u'
         = Udp.wire u
           ++ [Udp.sent u a (Udp.seq (Udp.self u) + 1)
                 (Udp.answer_result ok (strip (Udp.q_answer uq)) pts
                    (Udp.score ucl + pts) e)]
       ∧ (ok = true → (0 <= e)%Q → (e <= 10)%Q →
          pts = Z.max 1 (Qfloor ((10 - e) / 5) + 1))
       ∧ (ok = true → (10 < e)%Q → pts = 1)
       ∧ (ok = false → pts = 0)).
Proof.
  intros Hcl Ha Hq Hlen Hst Hucl Hua Huq Hulen Hust. split; cbv zeta.
  - eexists _, _. split.
    { by apply (TcpFacts.tcp_handle_client_answer_accepted
                  conn_id c data now w cl q started). }
    split; [simpl; by rewrite PyFacts.dict_get_set_eq|].
    split; [done|]. split; [|split].
    + intros -> H0 H10. by apply TcpFacts.tcp_speed_points_in_time.
    + intros -> H10. by apply TcpFacts.tcp_speed_points_late.
    + by intros ->.
  - eexists _, _. split.
    { by apply (UdpFacts.udp_handle_client_answer_accepted
                  a udata unow u ucl uq ustarted). }
    split; [simpl; by rewrite PyFacts.dict_get_set_eq|].
    split; [done|]. split; [|split].
    + intros -> H0 H10. by apply UdpFacts.udp_speed_points_in_time.
    + intros -> H10. by apply UdpFacts.udp_speed_points_late.
    + by intros ->.
Qed.

(** C2 at work: Alice answers round 0 correctly after 2 seconds and gets
    2 points. *)
Lemma C2_scoring_rule_witness :
  let w := Tcp.run_script Scenario.tcp_bank Scenario.tcp_round0 in
  let u := Udp.run_script Scenario.udp_config Scenario.udp_bank
             Scenario.udp_round0 in
  (∃ w', Tcp.handle_client_answer 0 10 (Some " b") 102 w = (Ok tt, w')
         ∧ Tcp.score <$> dict_get 0%nat (Tcp.clients (Tcp.self w')) = Some 2)
  ∧ (∃ u', Udp.handle_client_answer Scenario.alice (Some " b") 102 u
           = (Ok tt, u')
           ∧ Udp.score <$> dict_get Scenario.alice (Udp.clients (Udp.self u'))
             = Some 2).
Proof.
  cbv zeta.
  destruct (C2_scoring_rule
              (Tcp.run_script Scenario.tcp_bank Scenario.tcp_round0)
              0%nat 10%nat (Some " b"%string) 102%Q
              (Tcp.Client 10 ("10.0.0.1"%string, 5000%N) (Some "Alice"%string)
                 0 [] [])
              (Tcp.Question "2 + 2 = ?" ["A) 3"; "B) 4"]%string "B") 100%Q
              (Udp.run_script Scenario.udp_config Scenario.udp_bank
                 Scenario.udp_round0)
              Scenario.alice (Some " b"%string) 102%Q
              (Udp.Client "Alice" 0 [] [])
              (Udp.Question "2 + 2 = ?" ["A) 3"; "B) 4"]%string "B") 100%Q)
    as [(pts & w' & Hrun & Hsc & _ & Hin & _ & _)
        (upts & u' & Hurun & Husc & _ & Huin & _ & _)];
    try (vm_compute; reflexivity); try (vm_compute; lia).
  split.
  - exists w'. split; [exact Hrun|]. rewrite Hsc, Hin.
    + vm_compute. reflexivity.
    + vm_compute. reflexivity.
    + vm_compute. discriminate.
    + vm_compute. discriminate.
  - exists u'. split; [exact Hurun|]. rewrite Husc, Huin.
    + vm_compute. reflexivity.
    + vm_compute. reflexivity.
    + vm_compute. discriminate.
    + vm_compute. discriminate.
Defined.





(** C3, on the code: Alice's peer goes away just before [start_game]
    broadcasts [game_start].  The write to her socket fails, the write to
    Bob's socket still goes through, and Alice is still in the registry
    afterwards: [send_message] swallows the failure, so the [except]
    branch of [broadcast_message] that collects clients to remove never
    runs. *)
Lemma C3_failed_write_keeps_client :
  let w := Tcp.run_script Scenario.tcp_bank
             (Scenario.tcp_lobby
              ++ [Tcp.Message 0 10 Tcp.StartGame 3; Tcp.PeerGone 10;
                  Tcp.Run 0 4]) in
  Tcp.reachable Scenario.tcp_bank w
  ∧ Tcp.dead w = [10%nat]
  ∧ drop 4 (Tcp.wire w)
    = [Tcp.Sendall 10 (Tcp.game_start "Game starting!" 2) false;
       Tcp.Sendall 11 (Tcp.game_start "Game starting!" 2) true]
  ∧ dict_keys (Tcp.clients (Tcp.self w)) = [0%nat; 1%nat]
  ∧ Tcp.conn <$> dict_get 0%nat (Tcp.clients (Tcp.self w)) = Some 10%nat.
Proof.
  cbv zeta. split; [|by vm_compute].
  match goal with
  | |- Tcp.reachable _ (Tcp.run_script _ ?s) =>
      apply (tcp_script_reachable _ s); by vm_compute
  end.
Qed.

(** C5, as stated, fails in the connection-oriented server: Bob registered
    and played, a third connection never registered, Bob hung up before the
    end.  The final leaderboard has no entry for Bob and has one, without a
    name, for the connection that never registered. *)
Lemma C5_leaderboard_misses_registered_player :
  let w := Tcp.run_script Scenario.tcp_bank
             (Scenario.tcp_round1
              ++ [Tcp.Open 12 ("10.0.0.3"%string, 5002%N); Tcp.Hangup 1;
                  Tcp.Run 0 122; Tcp.Run 0 122; Tcp.Run 0 122]) in
  Tcp.reachable Scenario.tcp_bank w
  ∧ Tcp.Sendall 11 (Tcp.registered "Welcome Bob!" 2 false) true ∈ Tcp.wire w
  ∧ Tcp.active_game (Tcp.self w) = false
  ∧ last (Tcp.wire w)
    = Some (Tcp.Sendall 12
              (Tcp.game_end [Tcp.Entry (Some "Alice"%string) 0;
                             Tcp.Entry None 0] "Game finished!") true).
Proof.
  cbv zeta. split; [|split; [|by vm_compute]].
  - match goal with
    | |- Tcp.reachable _ (Tcp.run_script _ ?s) =>
        apply (tcp_script_reachable _ s); by vm_compute
    end.
  - vm_compute. do 2 right. left.
Qed.

(** C5, amended: [end_game] sends every client of the registry one
    [game_end] message whose leaderboard is in descending order of score
    and holds exactly one entry per client that is in the registry when the
    game ends.  In the connectionless server no step ever takes an address
    out of the registry, so these are all the addresses that registered. *)
Theorem C5_final_leaderboard (w : Tcp.world) (u : Udp.world) :
  (let board := Tcp.make_leaderboard (Tcp.clients (Tcp.self w)) in
   ∃ w' news,
     Tcp.end_game w = (Ok tt, w')
     ∧ Tcp.active_game (Tcp.self w') = false
     ∧ Tcp.wire w' = Tcp.wire w ++ news
     ∧ map Tcp.w_conn news
       = map (λ kc, Tcp.conn kc.2) (Tcp.clients (Tcp.self w))
     ∧ Forall (λ x, Tcp.w_msg x = Tcp.game_end board "Game finished!") news
     ∧ StronglySorted (λ x y, Tcp.e_score y <= Tcp.e_score x) board
     ∧ Permutation board
         (map (λ kc, Tcp.entry_of kc.2) (Tcp.clients (Tcp.self w))))
  ∧ (let board := Udp.make_leaderboard (Udp.clients (Udp.self u)) in
     ∃ u' news,
       Udp.end_game u = (Ok tt, u')
       ∧ Udp.active_game (Udp.self u') = false
       ∧ Udp.wire u' = Udp.wire u ++ news
       ∧ map Udp.d_to news = dict_keys (Udp.clients (Udp.self u))
       ∧ Forall (λ d, Udp.d_msg d = Udp.game_end board "Game finished!") news
       ∧ StronglySorted (λ x y, Udp.e_score y <= Udp.e_score x) board
       ∧ Permutation board (map Udp.entry_of (Udp.clients (Udp.self u))))
  ∧ (∀ a u2, Udp.step u u2 →
       a ∈ dict_keys (Udp.clients (Udp.self u)) →
       a ∈ dict_keys (Udp.clients (Udp.self u2))).
Proof.
  split; [|split].
  - cbv zeta. rewrite TcpFacts.tcp_end_game_eq.
    destruct (TcpFacts.broadcast_writes_all w (Tcp.clients (Tcp.self w))
                (Tcp.game_end (Tcp.make_leaderboard (Tcp.clients (Tcp.self w)))
                   "Game finished!")) as [Hc Hm].
    eexists _, _. split; [done|]. split; [done|]. split; [done|].
    split; [exact Hc|]. split; [exact Hm|].
    split; [apply TcpFacts.tcp_make_leaderboard_sorted|].
    apply TcpFacts.tcp_make_leaderboard_perm.
  - cbv zeta. rewrite UdpFacts.udp_end_game_eq.
    destruct (UdpFacts.after_broadcast_wire
                (dict_keys (Udp.clients (Udp.self u)))
                (Udp.game_end (Udp.make_leaderboard (Udp.clients (Udp.self u)))
                   "Game finished!")
                (Udp.set_self (Udp.set_active_game false) u))
      as (news & Hw & Hto & Hmsg).
    eexists _, news. split; [done|]. split.
    { simpl. apply UdpFacts.active_after_broadcast. }
    split; [exact Hw|]. split; [exact Hto|]. split; [exact Hmsg|].
    split; [apply UdpFacts.udp_make_leaderboard_sorted|].
    apply UdpFacts.udp_make_leaderboard_perm.
  - intros a u2. apply UdpFacts.step_keeps_registered.
Qed.

(** C6, as stated, fails in the connectionless server: Alice is registered
    when Bob registers, and the only datagram Bob's registration sends is
    his own acknowledgment; Alice gets no join notice. *)
Lemma C6_udp_no_join_notice :
  let u := Udp.run_script Scenario.udp_config Scenario.udp_bank
             [Udp.Receive Scenario.alice (Udp.Register (Some "Alice")) 1] in
  let u' := Udp.run_script Scenario.udp_config Scenario.udp_bank
              Scenario.udp_lobby in
  Udp.reachable Scenario.udp_config Scenario.udp_bank u'
  ∧ dict_keys (Udp.clients (Udp.self u)) = [Scenario.alice]
  ∧ Udp.wire u'
    = Udp.wire u
      ++ [Udp.Datagram Scenario.bob 2 (Udp.registered "Welcome Bob!" 2) true].
Proof.
  cbv zeta. split; [|by vm_compute].
  apply (udp_script_reachable _ _ Scenario.udp_lobby). by vm_compute.
Qed.

(** C6, amended: while a game is active, [register] changes nothing in
    the server object (connectionless: nothing but the sequence counter)
    and writes one [error] reply to the sender.  Otherwise the sender gets
    a [registered] reply carrying the size of the registry; in the
    connection-oriented server every other client of the registry then
    gets a [player_joined] notice, in the connectionless server no other
    datagram is sent. *)
Theorem C6_register
    (w : Tcp.world) conn_id c data_name cl (u : Udp.world) a udata_name :
  dict_get conn_id (Tcp.clients (Tcp.self w)) = Some cl →
  let player_name := default ("Player_" +:+ pretty conn_id) data_name in
  let cl' := Tcp.Client (Tcp.conn cl) (Tcp.addr cl) (Some player_name) 0 [] [] in
  let uname := default ("Player_" +:+ pretty a.2) udata_name in
  let ucs' := dict_set a (Udp.Client uname 0 [] []) (Udp.clients (Udp.self u)) in
  (Tcp.active_game (Tcp.self w) = true →
     Tcp.handle_client_register conn_id c data_name w
     = (Ok tt,
        Tcp.add_wire [Tcp.sent w c (Tcp.error "Game already in progress")] w))
  ∧ (Tcp.active_game (Tcp.self w) = false →
     ∃ w' joins,
       Tcp.handle_client_register conn_id c data_name w = (Ok tt, w')
       ∧ Tcp.clients (Tcp.self w')
         = dict_set conn_id cl' (Tcp.clients (Tcp.self w))
       ∧ Tcp.wire w'
         = Tcp.wire w
           ++ Tcp.sent w c
                (Tcp.registered ("Welcome " +:+ player_name +:+ "!")
                   (length (Tcp.clients (Tcp.self w')))
                   (bool_decide (Some conn_id = Tcp.host_conn_id (Tcp.self w))))
              :: joins
       ∧ (∀ k other, (k, other) ∈ Tcp.clients (Tcp.self w') → k ≠ conn_id →
            Tcp.sent w (Tcp.conn other)
              (Tcp.player_joined player_name
                 (length (Tcp.clients (Tcp.self w')))) ∈ joins)
       ∧ (∀ x, x ∈ joins →
            ∃ k other, (k, other) ∈ Tcp.clients (Tcp.self w') ∧ k ≠ conn_id
              ∧ x = Tcp.sent w (Tcp.conn other)
                      (Tcp.player_joined player_name
                         (length (Tcp.clients (Tcp.self w'))))))
  ∧ (Udp.active_game (Udp.self u) = true →
     Udp.handle_client_register a udata_name u
     = (Ok tt, Udp.after_send a (Udp.error "Game already in progress") u))
  ∧ (Udp.active_game (Udp.self u) = false →
     Udp.handle_client_register a udata_name u
     = (Ok tt,
        Udp.after_send a
          (Udp.registered ("Welcome " +:+ uname +:+ "!") (length ucs'))
          (Udp.set_self (Udp.set_clients (λ _, ucs')) u))).
Proof.
  intros Hcl. cbv zeta. split; [|split; [|split]].
  - apply TcpFacts.tcp_register_rejected.
  - intros Ha.
    rewrite (TcpFacts.tcp_register_accepted conn_id c data_name w cl Ha Hcl).
    eexists _, _. split; [done|]. split; [done|]. split; [done|]. split.
    + intros k other Hin Hne.
      apply (TcpFacts.broadcast_writes_elem w _ _ (Some conn_id) k other);
        [done|congruence].
    + intros x Hx. apply TcpFacts.broadcast_writes_inv in Hx
        as (k & other & Hin & Hne & ->).
      exists k, other. split; [done|]. split; [congruence|done].
  - apply UdpFacts.udp_register_rejected.
  - intros Ha. by rewrite (UdpFacts.udp_register_accepted a udata_name u Ha).
Qed.

(** C6 at work: Alice registers while Bob's connection is open. *)
Lemma C6_register_witness :
  let w := Tcp.run_script Scenario.tcp_bank
             [Tcp.Open 10 ("10.0.0.1"%string, 5000%N);
              Tcp.Open 11 ("10.0.0.2"%string, 5001%N)] in
  ∃ w', Tcp.handle_client_register 0 10 (Some "Alice"%string) w = (Ok tt, w')
        ∧ Tcp.wire w'
          = [Tcp.Sendall 10 (Tcp.registered "Welcome Alice!" 2 true) true;
             Tcp.Sendall 11 (Tcp.player_joined "Alice" 2) true].
Proof.
  cbv zeta.
  destruct (C6_register
              (Tcp.run_script Scenario.tcp_bank
                 [Tcp.Open 10 ("10.0.0.1"%string, 5000%N);
                  Tcp.Open 11 ("10.0.0.2"%string, 5001%N)])
              0%nat 10%nat (Some "Alice"%string)
              (Tcp.Client 10 ("10.0.0.1"%string, 5000%N) None 0 [] [])
              (Udp.init Scenario.udp_config Scenario.udp_bank)
              Scenario.alice (Some "Alice"%string))
    as (_ & Hacc & _ & _).
  { vm_compute. reflexivity. }
  destruct Hacc as (w' & joins & Hrun & _ & _ & _ & _).
  { vm_compute. reflexivity. }
  exists w'. split; [exact Hrun|].
  assert (E : Tcp.handle_client_register 0 10 (Some "Alice"%string)
                (Tcp.run_script Scenario.tcp_bank
                   [Tcp.Open 10 ("10.0.0.1"%string, 5000%N);
                    Tcp.Open 11 ("10.0.0.2"%string, 5001%N)])
              = (Ok tt, w')) by exact Hrun.
  vm_compute in E. injection E as <-. reflexivity.
Defined.

(** C7, as stated, fails for [start_game]: a start request from an address
    that never registered is answered with an [error] datagram. *)
Lemma C7_unregistered_start_gets_reply :
  let u := Udp.run_script Scenario.udp_config Scenario.udp_bank
             Scenario.udp_lobby in
  let u' := Udp.run_script Scenario.udp_config Scenario.udp_bank
              (Scenario.udp_lobby
               ++ [Udp.Receive Scenario.stranger Udp.StartGame 3]) in
  Udp.reachable Scenario.udp_config Scenario.udp_bank u'
  ∧ dict_get Scenario.stranger (Udp.clients (Udp.self u)) = None
  ∧ Udp.wire u'
    = Udp.wire u
      ++ [Udp.Datagram Scenario.stranger 3 (Udp.error "Not registered") true].
Proof.
  cbv zeta. split; [|by vm_compute].
  match goal with
  | |- Udp.reachable _ _ (Udp.run_script _ _ ?s) =>
      apply (udp_script_reachable _ _ s); by vm_compute
  end.
Qed.

(** C7, amended: in the connectionless server an [answer] from an address
    that is not in the registry changes nothing and sends nothing; a
    [start_game] from such an address changes neither the registry nor the
    game state, and is answered with one [error] datagram saying
    "Not registered" (which takes a sequence number). *)
Theorem C7_unregistered_address (u : Udp.world) a data now :
  dict_get a (Udp.clients (Udp.self u)) = None →
  Udp.handle_datagram a (Udp.Answer data) now u = (Ok tt, u)
  ∧ ∃ u', Udp.handle_datagram a Udp.StartGame now u = (Ok tt, u')
      ∧ Udp.wire u'
        = Udp.wire u
          ++ [Udp.sent u a (Udp.seq (Udp.self u) + 1)
                (Udp.error "Not registered")]
      ∧ Udp.seq (Udp.self u') = Udp.seq (Udp.self u) + 1
      ∧ Udp.clients (Udp.self u') = Udp.clients (Udp.self u)
      ∧ Udp.timeline_view u' = Udp.timeline_view u
      ∧ Udp.pool u' = Udp.pool u.
Proof.
  intros Hc. split; [by apply UdpFacts.udp_answer_unregistered|].
  rewrite UdpFacts.udp_start_unregistered by done. by eexists.
Qed.

(** C7 at work: an answer from an address nobody registered. *)
Lemma C7_unregistered_address_witness :
  let u := Udp.run_script Scenario.udp_config Scenario.udp_bank
             Scenario.udp_round0 in
  Udp.handle_datagram Scenario.stranger (Udp.Answer (Some "B")) 101 u
  = (Ok tt, u).
Proof.
  cbv zeta.
  apply (C7_unregistered_address
           (Udp.run_script Scenario.udp_config Scenario.udp_bank
              Scenario.udp_round0)
           Scenario.stranger (Some "B"%string) 101%Q).
  vm_compute. reflexivity.
Defined.

(** ** Further properties of the two servers *)

(** X1: every question [load_questions] returns has a text, at least one
    option and an answer, none of them empty, and its options and answer
    carry no surrounding whitespace; so the [strip] the answer handler
    applies to the stored answer changes nothing.  Both servers. *)
Theorem X1_loaded_questions_well_formed content
    (tq : Tcp.question) (uq : Udp.question) :
  tq ∈ Tcp.load_questions content → uq ∈ Udp.load_questions content →
  (Tcp.q_question tq ≠ ""%string ∧ Tcp.q_options tq ≠ []
   ∧ Forall (λ o, o ≠ ""%string ∧ strip o = o) (Tcp.q_options tq)
   ∧ Tcp.q_answer tq ≠ ""%string ∧ strip (Tcp.q_answer tq) = Tcp.q_answer tq)
  ∧ (Udp.q_question uq ≠ ""%string ∧ Udp.q_options uq ≠ []
     ∧ Forall (λ o, o ≠ ""%string ∧ strip o = o) (Udp.q_options uq)
     ∧ Udp.q_answer uq ≠ ""%string
     ∧ strip (Udp.q_answer uq) = Udp.q_answer uq).
Proof.
  unfold Tcp.load_questions, Udp.load_questions.
  intros ([[q opts] a] & -> & Ht)%list_elem_of_fmap
         ([[q' opts'] a'] & -> & Hu)%list_elem_of_fmap.
  split; simpl.
  - by apply (PyFacts.load_question_records_well_formed content).
  - by apply (PyFacts.load_question_records_well_formed content).
Qed.

(** X1 at work: a file of one block. *)
Lemma X1_loaded_questions_well_formed_witness :
  strip "B" = "B"%string.
Proof.
  apply (X1_loaded_questions_well_formed
           (Some ("Q?" +:+ newline +:+ " A) x " +:+ newline +:+ "ANSWER: B "))
           (Tcp.Question "Q?" ["A) x"]%string "B")
           (Udp.Question "Q?" ["A) x"]%string "B")).
  - vm_compute. left.
  - vm_compute. left.
Defined.

(** X2: with no file, or a file holding nothing but whitespace,
    [load_questions] returns no question.  Both servers. *)
Theorem X2_load_questions_nothing text :
  all_space text →
  Tcp.load_questions None = [] ∧ Tcp.load_questions (Some text) = []
  ∧ Udp.load_questions None = [] ∧ Udp.load_questions (Some text) = [].
Proof.
  intros H. unfold Tcp.load_questions, Udp.load_questions.
  by rewrite PyFacts.load_question_records_blank.
Qed.

Lemma X2_load_questions_nothing_witness :
  Tcp.load_questions (Some (" " +:+ newline +:+ newline +:+ " ")) = [].
Proof.
  apply (X2_load_questions_nothing (" " +:+ newline +:+ newline +:+ " ")).
  repeat constructor.
Defined.

(** X3: a file of one block whose lines are a question text, then option
    lines (not blank, not starting with [ANSWER:]), then one line
    [ANSWER:] followed by a text that holds no further [ANSWER:] and is not
    blank, loads as that one question, with options and answer stripped. *)
Theorem X3_load_questions_one_block text block q opts a :
  split (newline +:+ newline) (strip text) = [block] →
  split newline (strip block) = q :: opts ++ ["ANSWER:" +:+ a] →
  q ≠ ""%string → opts ≠ [] →
  Forall (λ o, String.prefix "ANSWER:" o = false ∧ strip o ≠ ""%string) opts →
  split "ANSWER:" a = [a] → strip a ≠ ""%string →
  Tcp.load_questions (Some text)
  = [Tcp.Question q (map strip opts) (strip a)]
  ∧ Udp.load_questions (Some text)
    = [Udp.Question q (map strip opts) (strip a)].
Proof.
  intros Hb Hl Hq Ho Hall Ha Hna.
  unfold Tcp.load_questions, Udp.load_questions. simpl. rewrite Hb. simpl.
  by rewrite (PyFacts.load_block_parses block q opts a).
Qed.

Lemma X3_load_questions_one_block_witness :
  Tcp.load_questions
    (Some ("2 + 2 = ?" +:+ newline +:+ "A) 3" +:+ newline +:+ " B) 4 "
           +:+ newline +:+ "ANSWER: B" +:+ newline))
  = [Tcp.Question "2 + 2 = ?" ["A) 3"; "B) 4"]%string "B"].
Proof.
  apply (X3_load_questions_one_block
           ("2 + 2 = ?" +:+ newline +:+ "A) 3" +:+ newline +:+ " B) 4 "
            +:+ newline +:+ "ANSWER: B" +:+ newline)
           ("2 + 2 = ?" +:+ newline +:+ "A) 3" +:+ newline +:+ " B) 4 "
            +:+ newline +:+ "ANSWER: B")
           "2 + 2 = ?" ["A) 3"; " B) 4 "]%string " B").
  - vm_compute. reflexivity.
  - vm_compute. reflexivity.
  - discriminate.
  - discriminate.
  - repeat constructor; vm_compute; discriminate.
  - vm_compute. reflexivity.
  - vm_compute. discriminate.
Defined.

(** X4: the points of an accepted correct answer as a function of the
    time [e] since the round start: 3 at [e = 0] (and at least 3 if the
    clock reading lies before the round start), 2 for [0 < e <= 5], 1 for
    every [e > 5], however late.  Both servers. *)
Theorem X4_points_table (e : Q) :
  ((e <= 0)%Q → 3 <= Tcp.speed_points e ∧ 3 <= Udp.speed_points e)
  ∧ ((e == 0)%Q → Tcp.speed_points e = 3 ∧ Udp.speed_points e = 3)
  ∧ ((0 < e)%Q → (e <= 5)%Q →
     Tcp.speed_points e = 2 ∧ Udp.speed_points e = 2)
  ∧ ((5 < e)%Q → Tcp.speed_points e = 1 ∧ Udp.speed_points e = 1).
Proof.
  destruct (PyFacts.points_table e) as (H1 & H2 & H3 & H4).
  unfold Tcp.speed_points, Udp.speed_points, Tcp.QUESTION_TIME_LIMIT,
    Udp.QUESTION_TIME_LIMIT.
  repeat split; auto.
Qed.

(** X4 at work: a correct answer after three and a half seconds. *)
Lemma X4_points_table_witness : Tcp.speed_points (7 # 2) = 2.
Proof.
  destruct (X4_points_table (7 # 2)) as (_ & _ & H & _).
  destruct H as [H _].
  - vm_compute. reflexivity.
  - vm_compute. discriminate.
  - exact H.
Defined.

(** X5: a slower correct answer never earns more points than a faster
    one.  Both servers. *)
Theorem X5_points_antitone (e1 e2 : Q) :
  (e1 <= e2)%Q →
  Tcp.speed_points e2 <= Tcp.speed_points e1
  ∧ Udp.speed_points e2 <= Udp.speed_points e1.
Proof.
  intros H. split; by apply PyFacts.points_antitone.
Qed.

Lemma X5_points_antitone_witness :
  Tcp.speed_points (7 # 2) <= Tcp.speed_points (1 # 2).
Proof.
  apply (X5_points_antitone (1 # 2) (7 # 2)). vm_compute. discriminate.
Defined.

(** X6: the leaderboard keeps ties in registry order: for every score,
    the entries with that score appear in the order of their clients in
    the registry.  Both servers. *)
Theorem X6_leaderboard_ties_in_registry_order
    (cs : list (nat * Tcp.client)) (ucs : list (Udp.address * Udp.client))
    (n : Z) :
  filter (λ e, Tcp.e_score e = n) (Tcp.make_leaderboard cs)
  = filter (λ e, Tcp.e_score e = n) (map (λ kc, Tcp.entry_of kc.2) cs)
  ∧ filter (λ e, Udp.e_score e = n) (Udp.make_leaderboard ucs)
    = filter (λ e, Udp.e_score e = n) (map Udp.entry_of ucs).
Proof.
  split.
  - unfold Tcp.make_leaderboard. apply PyFacts.py_sort_filter.
    intros x y Hx Hy. unfold Tcp.by_score_desc. apply Z.leb_le. lia.
  - unfold Udp.make_leaderboard. apply PyFacts.py_sort_filter.
    intros x y Hx Hy. unfold Udp.by_score_desc. apply Z.leb_le. lia.
Qed.

(** X7: the connection-oriented server starts a game on request exactly
    when the request comes from the host, the host is in the registry and no
    game is active: then a [start_game] thread is started and nothing is
    written; in every other case the only effect is one error reply on the
    requesting socket. *)
Theorem X7_tcp_start_request_gate (conn_id c : nat) (w : Tcp.world) :
  (Tcp.host_conn_id (Tcp.self w) = Some conn_id
   ∧ is_Some (dict_get conn_id (Tcp.clients (Tcp.self w)))
   ∧ Tcp.active_game (Tcp.self w) = false →
   Tcp.handle_request_start_game conn_id c w
   = (Ok tt, Tcp.set_pool (Tcp.pool w ++ [Tcp.StartGameThread]) w))
  ∧ (¬ (Tcp.host_conn_id (Tcp.self w) = Some conn_id
        ∧ is_Some (dict_get conn_id (Tcp.clients (Tcp.self w)))
        ∧ Tcp.active_game (Tcp.self w) = false) →
     ∃ message,
       Tcp.handle_request_start_game conn_id c w
       = (Ok tt, Tcp.add_wire [Tcp.sent w c (Tcp.error message)] w)
       ∧ message ∈ ["Only the host can start the game"; "Not registered";
                    "Cannot start game now"]%string).
Proof.
  split.
  - intros (Hh & Hin & Ha). by apply TcpFacts.tcp_request_start_accepted.
  - apply TcpFacts.tcp_request_start_rejected.
Qed.

(** X7 at work: Bob, who is not the host, asks for a start in the lobby. *)
Lemma X7_tcp_start_request_gate_witness :
  let w := Tcp.run_script Scenario.tcp_bank Scenario.tcp_lobby in
  ∃ message,
    Tcp.handle_request_start_game 1 11 w
    = (Ok tt, Tcp.add_wire [Tcp.sent w 11 (Tcp.error message)] w)
    ∧ message ∈ ["Only the host can start the game"; "Not registered";
                 "Cannot start game now"]%string.
Proof.
  cbv zeta.
  destruct (X7_tcp_start_request_gate 1 11
              (Tcp.run_script Scenario.tcp_bank Scenario.tcp_lobby))
    as [_ H].
  apply H. intros [Hh _]. vm_compute in Hh. discriminate.
Defined.

(** X8: the connectionless server has no host: a start request from any
    registered address starts a [start_game] thread while no game is
    active, and is answered with the error [Cannot start game now] while
    one is; session state is untouched in both cases. *)
Theorem X8_udp_start_request_gate (a : Udp.address) (w : Udp.world) :
  is_Some (dict_get a (Udp.clients (Udp.self w))) →
  Udp.handle_request_start_game a w
  = (Ok tt,
     if Udp.active_game (Udp.self w)
     then Udp.after_send a (Udp.error "Cannot start game now") w
     else Udp.set_pool (Udp.pool w ++ [Udp.StartGameThread]) w).
Proof.
  intros Hin. destruct (Udp.active_game (Udp.self w)) eqn:Ha.
  - by apply UdpFacts.udp_request_start_active.
  - by apply UdpFacts.udp_request_start_accepted.
Qed.

(** X8 at work: Bob, who is not the first to have registered, asks for a
    start in the lobby. *)
Lemma X8_udp_start_request_gate_witness :
  let w :=
    Udp.run_script Scenario.udp_config Scenario.udp_bank Scenario.udp_lobby in
  Udp.handle_request_start_game Scenario.bob w
  = (Ok tt, Udp.set_pool [Udp.StartGameThread] w).
Proof.
  cbv zeta.
  apply (X8_udp_start_request_gate Scenario.bob
           (Udp.run_script Scenario.udp_config Scenario.udp_bank
              Scenario.udp_lobby)).
  vm_compute. by eexists.
Defined.

(** X9: [start_game] in a lobby with somebody in it: the game becomes
    active at round index 0, every client of the registry keeps its key,
    position and name and has score 0 and no answers, one [game_start]
    message carrying the number of questions is sent to every client, in
    registry order, and one [game_loop] thread is started.  Both servers. *)
Theorem X9_start_game_resets_and_announces (w : Tcp.world) (uw : Udp.world) :
  Tcp.active_game (Tcp.self w) = false → Tcp.clients (Tcp.self w) ≠ [] →
  Udp.active_game (Udp.self uw) = false → Udp.clients (Udp.self uw) ≠ [] →
  (∃ w' news,
     Tcp.start_game w = (Ok tt, w')
     ∧ Tcp.active_game (Tcp.self w') = true
     ∧ Tcp.current_question_index (Tcp.self w') = 0%nat
     ∧ Tcp.clients (Tcp.self w')
       = map (λ kc, (kc.1, Tcp.Client (Tcp.conn kc.2) (Tcp.addr kc.2)
                             (Tcp.name kc.2) 0 [] []))
           (Tcp.clients (Tcp.self w))
     ∧ Tcp.pool w' = Tcp.pool w ++ [Tcp.GameLoopThread (Tcp.Head 0)]
     ∧ Tcp.wire w' = Tcp.wire w ++ news
     ∧ map Tcp.w_conn news
       = map (λ kc, Tcp.conn kc.2) (Tcp.clients (Tcp.self w))
     ∧ Forall (λ x, Tcp.w_msg x
                    = Tcp.game_start "Game starting!"
                        (length (Tcp.questions (Tcp.self w)))) news)
  ∧ (∃ uw' news,
       Udp.start_game uw = (Ok tt, uw')
       ∧ Udp.active_game (Udp.self uw') = true
       ∧ Udp.current_question_index (Udp.self uw') = 0%nat
       ∧ Udp.clients (Udp.self uw')
         = map (λ kc, (kc.1, Udp.Client (Udp.name kc.2) 0 [] []))
             (Udp.clients (Udp.self uw))
       ∧ Udp.pool uw' = Udp.pool uw ++ [Udp.GameLoopThread (Udp.Head 0)]
       ∧ Udp.wire uw' = Udp.wire uw ++ news
       ∧ map Udp.d_to news = dict_keys (Udp.clients (Udp.self uw))
       ∧ Forall (λ d, Udp.d_msg d
                      = Udp.game_start "Game starting!"
                          (length (Udp.questions (Udp.self uw)))) news).
Proof.
  intros Ha Hne Hua Hune. split.
  - rewrite TcpFacts.tcp_start_game_eq by done. cbv zeta.
    eexists _, _. split; [done|]. simpl.
    repeat (split; [done|]).
    match goal with
    | |- context [Tcp.broadcast_writes ?w0 ?items ?p None] =>
        destruct (TcpFacts.broadcast_writes_all w0 items p) as [H1 H2]
    end.
    split; [|done]. rewrite H1, map_map. done.
  - rewrite UdpFacts.udp_start_game_eq by done. cbv zeta.
    match goal with
    | |- context [Udp.after_broadcast ?k ?p None ?w0] =>
        destruct (UdpFacts.after_broadcast_wire k p w0)
          as (news & Hw & Hto & Hmsg);
        destruct (UdpFacts.after_broadcast_fields k p None w0)
          as (_ & Hc & Hact & Hi & _ & Hp & _)
    end.
    set (uw2 := Udp.after_broadcast _ _ None _) in *. clearbody uw2.
    eexists _, news. split; [done|]. simpl in *.
    rewrite Hact, Hi, Hc, Hp, Hw.
    repeat (split; [done|]). split; [|done].
    rewrite Hto. unfold dict_keys. simpl. by rewrite <- list_fmap_compose.
Qed.

(** X9 at work: the lobby of Alice and Bob. *)
Lemma X9_start_game_resets_and_announces_witness :
  ∃ w' news,
    Tcp.start_game (Tcp.run_script Scenario.tcp_bank Scenario.tcp_lobby)
    = (Ok tt, w')
    ∧ Tcp.active_game (Tcp.self w') = true
    ∧ map Tcp.w_conn news = [10; 11]%nat.
Proof.
  destruct (X9_start_game_resets_and_announces
              (Tcp.run_script Scenario.tcp_bank Scenario.tcp_lobby)
              (Udp.run_script Scenario.udp_config Scenario.udp_bank
                 Scenario.udp_lobby))
    as [(w' & news & H & Hact & _ & _ & _ & _ & Hto & _) _].
  - vm_compute. reflexivity.
  - vm_compute. discriminate.
  - vm_compute. reflexivity.
  - vm_compute. discriminate.
  - exists w', news. split; [exact H|]. split; [exact Hact|]. exact Hto.
Defined.

(** X10: [start_game] run a second time, whatever happened in between to
    the first one, changes nothing: after any [start_game] either a game is
    active or the registry is empty, and in both cases the next
    [start_game] returns at once.  Both servers. *)
Theorem X10_start_game_idempotent (w : Tcp.world) (uw : Udp.world) :
  Tcp.start_game (Tcp.start_game w).2 = (Ok tt, (Tcp.start_game w).2)
  ∧ Udp.start_game (Udp.start_game uw).2 = (Ok tt, (Udp.start_game uw).2).
Proof.
  split.
  - destruct (Tcp.start_game w) as [r w'] eqn:E. simpl.
    by apply (TcpFacts.tcp_start_game_twice w r).
  - destruct (Udp.start_game uw) as [r uw'] eqn:E. simpl.
    by apply (UdpFacts.udp_start_game_twice uw r).
Qed.





(** X13: no operation of either server changes the question bank: in every
    reachable state it is the list the server was created with. *)
Theorem X13_question_bank_fixed qs w c uqs uw :
  Tcp.reachable qs w → Udp.reachable c uqs uw →
  Tcp.questions (Tcp.self w) = qs ∧ Udp.questions (Udp.self uw) = uqs.
Proof.
  intros Ht Hu. split.
  - by apply TcpFacts.tcp_reachable_all_inv in Ht as (_ & _ & ? & _).
  - by apply UdpFacts.udp_reachable_all_inv in Hu as (_ & ? & _).
Qed.

Lemma X13_question_bank_fixed_witness :
  Tcp.questions
    (Tcp.self (Tcp.run_script Scenario.tcp_bank Scenario.tcp_round1))
  = Scenario.tcp_bank.
Proof.
  destruct (X13_question_bank_fixed Scenario.tcp_bank
              (Tcp.run_script Scenario.tcp_bank Scenario.tcp_round1)
              Scenario.udp_config Scenario.udp_bank
              (Udp.run_script Scenario.udp_config Scenario.udp_bank
                 Scenario.udp_round1)) as [Ht _].
  - apply (tcp_script_reachable _ Scenario.tcp_round1). vm_compute. reflexivity.
  - apply (udp_script_reachable _ _ Scenario.udp_round1). vm_compute. reflexivity.
  - exact Ht.
Defined.

(** X14: connection ids are never reused: in every reachable state of the
    connection-oriented server the keys of the registry are distinct and
    below the connection counter, so an accepted connection gets an id no
    client has and its record goes to the end of the registry, leaving
    every other record as it was. *)
Theorem X14_tcp_connection_ids_fresh qs w (c : nat) (a : string * N) :
  Tcp.reachable qs w →
  NoDup (dict_keys (Tcp.clients (Tcp.self w)))
  ∧ Forall (λ k, (k < Tcp.connection_counter (Tcp.self w))%nat)
      (dict_keys (Tcp.clients (Tcp.self w)))
  ∧ ∃ w', Tcp.handle_client_open c a w
          = (Ok (Tcp.connection_counter (Tcp.self w)), w')
          ∧ Tcp.clients (Tcp.self w')
            = Tcp.clients (Tcp.self w)
              ++ [(Tcp.connection_counter (Tcp.self w),
                   Tcp.Client c a None 0 [] [])]
          ∧ Tcp.connection_counter (Tcp.self w')
            = (Tcp.connection_counter (Tcp.self w) + 1)%nat.
Proof.
  intros Ht.
  apply TcpFacts.tcp_reachable_all_inv in Ht as (_ & _ & _ & [Hnd Hlt] & _).
  split; [done|]. split; [done|].
  rewrite TcpFacts.tcp_handle_client_open_eq. cbv zeta.
  eexists. split; [done|].
  assert (dict_get (Tcp.connection_counter (Tcp.self w))
            (Tcp.clients (Tcp.self w)) = None) as Hfresh.
  { apply eq_None_not_Some. intros Hin%PyFacts.dict_get_keys.
    apply (proj1 (Forall_forall _ _) Hlt) in Hin. lia. }
  destruct (Tcp.host_conn_id (Tcp.self w)); simpl;
    by rewrite PyFacts.dict_set_absent.
Qed.

Lemma X14_tcp_connection_ids_fresh_witness :
  NoDup (dict_keys
           (Tcp.clients
              (Tcp.self (Tcp.run_script Scenario.tcp_bank
                           Scenario.tcp_lobby)))).
Proof.
  destruct (X14_tcp_connection_ids_fresh Scenario.tcp_bank
              (Tcp.run_script Scenario.tcp_bank Scenario.tcp_lobby)
              12%nat ("10.0.0.3"%string, 5002%N)) as [H _].
  - apply (tcp_script_reachable _ Scenario.tcp_lobby). vm_compute. reflexivity.
  - exact H.
Defined.

(** X15: player records stay sound: in every reachable state of either
    server every client of the registry has a score that is not negative,
    as many answer times as answers, no more answers than there are
    questions and, while a game is active, no more answers than rounds
    begun. *)
Theorem X15_player_records_sound qs w c uqs uw :
  Tcp.reachable qs w → Udp.reachable c uqs uw →
  (∀ k cl, dict_get k (Tcp.clients (Tcp.self w)) = Some cl →
     0 <= Tcp.score cl
     ∧ length (Tcp.answers cl) = length (Tcp.answer_times cl)
     ∧ (length (Tcp.answers cl) ≤ length qs)%nat
     ∧ (Tcp.active_game (Tcp.self w) = true →
        (length (Tcp.answers cl)
         ≤ S (Tcp.current_question_index (Tcp.self w)))%nat))
  ∧ (∀ a cl, dict_get a (Udp.clients (Udp.self uw)) = Some cl →
       0 <= Udp.score cl
       ∧ length (Udp.answers cl) = length (Udp.answer_times cl)
       ∧ (length (Udp.answers cl) ≤ length uqs)%nat
       ∧ (Udp.active_game (Udp.self uw) = true →
          (length (Udp.answers cl)
           ≤ S (Udp.current_question_index (Udp.self uw)))%nat)).
Proof.
  intros Ht Hu. split.
  - apply TcpFacts.tcp_reachable_all_inv in Ht as (_ & _ & Hq & _ & Hp).
    intros k cl Hcl%PyFacts.dict_get_elem.
    apply (proj1 (Forall_forall _ _) Hp) in Hcl. simpl in Hcl.
    unfold Tcp.client_ok in Hcl. by rewrite Hq in Hcl.
  - apply UdpFacts.udp_reachable_all_inv in Hu as (_ & Hq & _ & Hp).
    intros a cl Hcl%PyFacts.dict_get_elem.
    apply (proj1 (Forall_forall _ _) Hp) in Hcl. simpl in Hcl.
    unfold Udp.client_ok in Hcl. by rewrite Hq in Hcl.
Qed.

Lemma X15_player_records_sound_witness :
  0 <= Tcp.score
         (Tcp.Client 10 ("10.0.0.1"%string, 5000%N) (Some "Alice"%string) 0
            [] []).
Proof.
  destruct (X15_player_records_sound Scenario.tcp_bank
              (Tcp.run_script Scenario.tcp_bank Scenario.tcp_round1)
              Scenario.udp_config Scenario.udp_bank
              (Udp.run_script Scenario.udp_config Scenario.udp_bank
                 Scenario.udp_round1)) as [Ht _].
  - apply (tcp_script_reachable _ Scenario.tcp_round1). vm_compute. reflexivity.
  - apply (udp_script_reachable _ _ Scenario.udp_round1). vm_compute. reflexivity.
  - apply (Ht 0%nat). vm_compute. reflexivity.
Defined.

(** X16: handling one message touches one record: whatever line arrives
    on connection [conn_id], and whatever datagram from address [a], the
    record of every other client is afterwards what it was; on the
    connection-oriented server the host is unchanged too. *)
Theorem X16_message_leaves_other_players_alone
    (conn_id c : nat) (req : Tcp.request) (a : Udp.address)
    (ureq : Udp.request) (now : Q) (w : Tcp.world) (uw : Udp.world) :
  ((∀ k, k ≠ conn_id →
      dict_get k
        (Tcp.clients
           (Tcp.self (Tcp.handle_client_message conn_id c req now w).2))
      = dict_get k (Tcp.clients (Tcp.self w)))
   ∧ Tcp.host_conn_id
       (Tcp.self (Tcp.handle_client_message conn_id c req now w).2)
     = Tcp.host_conn_id (Tcp.self w))
  ∧ (∀ b, b ≠ a →
       dict_get b
         (Udp.clients (Udp.self (Udp.handle_datagram a ureq now uw).2))
       = dict_get b (Udp.clients (Udp.self uw))).
Proof.
  split.
  - destruct (Tcp.handle_client_message conn_id c req now w) as [r w'] eqn:E.
    simpl. split.
    + intros k Hk.
      apply TcpFacts.tcp_handle_client_message_self in E
        as [->|[(cl & n & _ & _ & ->)
               |(cl & q & st & ans & pts & _ & _ & _ & _ & _ & _ & ->)]];
        [done| |]; simpl; by rewrite PyFacts.dict_get_set_ne.
    + apply TcpFacts.handle_client_message_effect in E
        as (_ & _ & _ & _ & _ & Hk).
      unfold Tcp.keys_host in Hk. by injection Hk.
  - destruct (Udp.handle_datagram a ureq now uw) as [r uw'] eqn:E.
    simpl. intros b Hb.
    apply UdpFacts.udp_handle_datagram_core in E
      as [H|[(n & _ & H)
            |(cl & q & st & ans & pts & _ & _ & _ & _ & _ & _ & H)]];
      unfold Udp.core in H; simpl in H; injection H as _ -> _ _ _;
      [done| |]; by rewrite PyFacts.dict_get_set_ne.
Qed.

(** X16 at work: Alice answers in round 0; Bob's record is what it was. *)
Lemma X16_message_leaves_other_players_alone_witness :
  let w := Tcp.run_script Scenario.tcp_bank Scenario.tcp_round0 in
  dict_get 1%nat
    (Tcp.clients
       (Tcp.self
          (Tcp.handle_client_message 0 10 (Tcp.Answer (Some "B"%string)) 101
             w).2))
  = dict_get 1%nat (Tcp.clients (Tcp.self w)).
Proof.
  cbv zeta.
  destruct (X16_message_leaves_other_players_alone 0 10
              (Tcp.Answer (Some "B"%string)) Scenario.alice
              (Udp.Answer (Some "B"%string)) 101
              (Tcp.run_script Scenario.tcp_bank Scenario.tcp_round0)
              (Udp.run_script Scenario.udp_config Scenario.udp_bank
                 Scenario.udp_round0)) as [[H _] _].
  apply (H 1%nat). discriminate.
Defined.

(** X17: [remove_client] at its edges: for a connection id that is not in
    the registry it does nothing; its result never holds the removed id, so
    a second removal of the same id does nothing; and a client that is not
    the host leaves without a word: nothing is written, its socket is
    closed, its record is deleted and the host stays. *)
Theorem X17_tcp_remove_client_edges (conn_id : nat) (w : Tcp.world) :
  (dict_get conn_id (Tcp.clients (Tcp.self w)) = None →
   Tcp.remove_client conn_id w = (Ok tt, w))
  ∧ dict_get conn_id
      (Tcp.clients (Tcp.self (Tcp.remove_client conn_id w).2)) = None
  ∧ Tcp.remove_client conn_id (Tcp.remove_client conn_id w).2
    = (Ok tt, (Tcp.remove_client conn_id w).2)
  ∧ (∀ cl, dict_get conn_id (Tcp.clients (Tcp.self w)) = Some cl →
       Tcp.host_conn_id (Tcp.self w) ≠ Some conn_id →
       Tcp.remove_client conn_id w
       = (Ok tt,
          Tcp.World (Tcp.set_clients (dict_del conn_id) (Tcp.self w))
            (Tcp.wire w) (Tcp.dead w) (Tcp.conn cl :: Tcp.closed w)
            (Tcp.pool w))).
Proof.
  assert (dict_get conn_id
            (Tcp.clients (Tcp.self (Tcp.remove_client conn_id w).2)) = None)
    as Hgone.
  { destruct (Tcp.remove_client conn_id w) as [r w'] eqn:E. simpl.
    by apply (TcpFacts.tcp_remove_client_gone conn_id w r). }
  split; [apply TcpFacts.tcp_remove_client_unknown|].
  split; [done|].
  split; [by apply TcpFacts.tcp_remove_client_unknown|].
  intros cl Hcl Hh. by apply TcpFacts.tcp_remove_client_not_host.
Qed.

(** X17 at work: Bob, who is not the host, leaves the lobby. *)
Lemma X17_tcp_remove_client_edges_witness :
  let w := Tcp.run_script Scenario.tcp_bank Scenario.tcp_lobby in
  Tcp.remove_client 1 w
  = (Ok tt,
     Tcp.World (Tcp.set_clients (dict_del 1%nat) (Tcp.self w)) (Tcp.wire w)
       (Tcp.dead w) (11%nat :: Tcp.closed w) (Tcp.pool w)).
Proof.
  cbv zeta.
  destruct (X17_tcp_remove_client_edges 1
              (Tcp.run_script Scenario.tcp_bank Scenario.tcp_lobby))
    as (_ & _ & _ & H).
  apply (H (Tcp.Client 11 ("10.0.0.2"%string, 5001%N) (Some "Bob"%string) 0
              [] [])).
  - vm_compute. reflexivity.
  - vm_compute. discriminate.
Defined.

(** X18: an answer that arrives while no game is active (in the lobby, or
    after the game has ended) has no effect on either server: no reply is
    sent and no state changes, whoever sent it. *)
Theorem X18_answer_outside_game_ignored
    (conn_id c : nat) (a : Udp.address) (data : option string) (now : Q)
    (w : Tcp.world) (uw : Udp.world) :
  Tcp.active_game (Tcp.self w) = false →
  Udp.active_game (Udp.self uw) = false →
  Tcp.handle_client_message conn_id c (Tcp.Answer data) now w = (Ok tt, w)
  ∧ Udp.handle_datagram a (Udp.Answer data) now uw = (Ok tt, uw).
Proof.
  intros Ht Hu. split.
  - unfold Tcp.handle_client_message, try_except.
    by rewrite TcpFacts.tcp_handle_client_answer_inactive.
  - unfold Udp.handle_datagram, try_except.
    by rewrite UdpFacts.udp_handle_client_answer_inactive.
Qed.

(** X18 at work: Bob answers in the lobby. *)
Lemma X18_answer_outside_game_ignored_witness :
  Tcp.handle_client_message 1 11 (Tcp.Answer (Some "A"%string)) 3
    (Tcp.run_script Scenario.tcp_bank Scenario.tcp_lobby)
  = (Ok tt, Tcp.run_script Scenario.tcp_bank Scenario.tcp_lobby).
Proof.
  destruct (X18_answer_outside_game_ignored 1 11 Scenario.bob
              (Some "A"%string) 3
              (Tcp.run_script Scenario.tcp_bank Scenario.tcp_lobby)
              (Udp.run_script Scenario.udp_config Scenario.udp_bank
                 Scenario.udp_lobby)) as [H _].
  - vm_compute. reflexivity.
  - vm_compute. reflexivity.
  - exact H.
Defined.

(** X19: an answer that passes the guards before the first round of the
    first game has been stamped fails on [time.time() - None] with nothing
    recorded.  The connection-oriented server only prints the exception: no
    reply, no state change.  The connectionless server sends the text of
    the exception back to the player as an [error] message. *)
Theorem X19_answer_before_first_stamp
    (conn_id c : nat) (cl : Tcp.client) (q : Tcp.question)
    (a : Udp.address) (ucl : Udp.client) (uq : Udp.question)
    (data : option string) (now : Q) (w : Tcp.world) (uw : Udp.world) :
  dict_get conn_id (Tcp.clients (Tcp.self w)) = Some cl →
  Tcp.active_game (Tcp.self w) = true →
  Tcp.questions (Tcp.self w) !! Tcp.current_question_index (Tcp.self w)
  = Some q →
  (length (Tcp.answers cl) ≤ Tcp.current_question_index (Tcp.self w))%nat →
  Tcp.question_start_time (Tcp.self w) = None →
  dict_get a (Udp.clients (Udp.self uw)) = Some ucl →
  Udp.active_game (Udp.self uw) = true →
  Udp.questions (Udp.self uw) !! Udp.current_question_index (Udp.self uw)
  = Some uq →
  (length (Udp.answers ucl) ≤ Udp.current_question_index (Udp.self uw))%nat →
  Udp.question_start_time (Udp.self uw) = None →
  Tcp.handle_client_message conn_id c (Tcp.Answer data) now w = (Ok tt, w)
  ∧ Udp.handle_datagram a (Udp.Answer data) now uw
    = (Ok tt,
       Udp.after_send a
         (Udp.error
            "unsupported operand type(s) for -: 'float' and 'NoneType'")
         uw).
Proof.
  intros H1 H2 H3 H4 H5 U1 U2 U3 U4 U5. split.
  - unfold Tcp.handle_client_message, try_except.
    by rewrite (TcpFacts.tcp_handle_client_answer_unstamped conn_id c data now
                  w cl q).
  - unfold Udp.handle_datagram, try_except.
    rewrite (UdpFacts.udp_handle_client_answer_unstamped a data now uw ucl uq)
      by done.
    by rewrite UdpFacts.udp_send_message_eq.
Qed.

(** X19 at work: [start_game] has run, [game_loop] has not stamped round 0,
    and Alice answers. *)
Lemma X19_answer_before_first_stamp_witness :
  Tcp.handle_client_message 0 10 (Tcp.Answer (Some "B"%string)) 5
    (Tcp.run_script Scenario.tcp_bank Scenario.tcp_started)
  = (Ok tt, Tcp.run_script Scenario.tcp_bank Scenario.tcp_started).
Proof.
  destruct (X19_answer_before_first_stamp 0 10
              (Tcp.Client 10 ("10.0.0.1"%string, 5000%N)
                 (Some "Alice"%string) 0 [] [])
              (Tcp.Question "2 + 2 = ?" ["A) 3"; "B) 4"]%string "B")
              Scenario.alice
              (Udp.Client "Alice" 0 [] [])
              (Udp.Question "2 + 2 = ?" ["A) 3"; "B) 4"]%string "B")
              (Some "B"%string) 5
              (Tcp.run_script Scenario.tcp_bank Scenario.tcp_started)
              (Udp.run_script Scenario.udp_config Scenario.udp_bank
                 Scenario.udp_started)) as [H _].
  - vm_compute. reflexivity.
  - vm_compute. reflexivity.
  - vm_compute. reflexivity.
  - vm_compute. lia.
  - vm_compute. reflexivity.
  - vm_compute. reflexivity.
  - vm_compute. reflexivity.
  - vm_compute. reflexivity.
  - vm_compute. lia.
  - vm_compute. reflexivity.
  - exact H.
Defined.

(** X20: registering again from an address that is already registered
    (possible only while no game is active) keeps the address at its place
    in the registry and the player count as it was, replaces the record by
    a fresh one with the new name, score 0 and no answers, leaves every
    other record alone, and is acknowledged like a first registration. *)
Theorem X20_udp_reregistration
    (a : Udp.address) (n : option string) (w : Udp.world) (cl : Udp.client) :
  Udp.active_game (Udp.self w) = false →
  dict_get a (Udp.clients (Udp.self w)) = Some cl →
  ∃ w',
    Udp.handle_client_register a n w = (Ok tt, w')
    ∧ dict_keys (Udp.clients (Udp.self w'))
      = dict_keys (Udp.clients (Udp.self w))
    ∧ dict_get a (Udp.clients (Udp.self w'))
      = Some (Udp.Client (default ("Player_" +:+ pretty a.2) n) 0 [] [])
    ∧ (∀ b, b ≠ a →
         dict_get b (Udp.clients (Udp.self w'))
         = dict_get b (Udp.clients (Udp.self w)))
    ∧ Udp.wire w'
      = Udp.wire w
        ++ [Udp.sent w a (Udp.seq (Udp.self w) + 1)
              (Udp.registered
                 ("Welcome " +:+ default ("Player_" +:+ pretty a.2) n +:+ "!")
                 (length (Udp.clients (Udp.self w))))].
Proof.
  intros Ha Hcl. rewrite UdpFacts.udp_register_accepted by done. cbv zeta.
  eexists. split; [done|]. simpl.
  assert (∀ v, dict_keys (dict_set a v (Udp.clients (Udp.self w)))
               = dict_keys (Udp.clients (Udp.self w))) as Hk.
  { intros v. apply PyFacts.dict_keys_set_present. by eexists. }
  split; [apply Hk|]. split; [apply PyFacts.dict_get_set_eq|].
  split; [intros b Hb; by apply PyFacts.dict_get_set_ne|].
  unfold Udp.sent. simpl. do 4 f_equal.
  rewrite <- (length_fmap fst (dict_set _ _ _)).
  rewrite <- (length_fmap fst (Udp.clients _)).
  f_equal. apply Hk.
Qed.

(** X20 at work: Alice registers a second time, as Alicia. *)
Lemma X20_udp_reregistration_witness :
  ∃ w',
    Udp.handle_client_register Scenario.alice (Some "Alicia"%string)
      (Udp.run_script Scenario.udp_config Scenario.udp_bank
         Scenario.udp_lobby)
    = (Ok tt, w')
    ∧ dict_keys (Udp.clients (Udp.self w')) = [Scenario.alice; Scenario.bob].
Proof.
  destruct (X20_udp_reregistration Scenario.alice (Some "Alicia"%string)
              (Udp.run_script Scenario.udp_config Scenario.udp_bank
                 Scenario.udp_lobby)
              (Udp.Client "Alice" 0 [] []))
    as (w' & H & Hk & _).
  - vm_compute. reflexivity.
  - vm_compute. reflexivity.
  - exists w'. split; [exact H|]. rewrite Hk. vm_compute. reflexivity.
Defined.

(** X21: the heartbeat is rate limited: when the heartbeat test passes at
    time [now] (the interval has elapsed and somebody is registered) one
    [heartbeat] datagram goes to every registered address, in registry
    order, session state is untouched, and a test at any later time
    [now'] less than one interval after [now] sends nothing. *)
Theorem X21_udp_heartbeat_rate_limit (now now' : Q) (w : Udp.world) :
  (Udp.HEARTBEAT_INTERVAL (Udp.cfg w)
   <= now - Udp._last_heartbeat (Udp.self w))%Q →
  Udp.clients (Udp.self w) ≠ [] →
  (now' - now < Udp.HEARTBEAT_INTERVAL (Udp.cfg w))%Q →
  ∃ w1 news,
    Udp.heartbeat_tick now w = (Ok tt, w1)
    ∧ Udp.wire w1 = Udp.wire w ++ news
    ∧ map Udp.d_to news = dict_keys (Udp.clients (Udp.self w))
    ∧ Forall (λ d, Udp.d_msg d = Udp.heartbeat "server heartbeat") news
    ∧ Udp.core (Udp.self w1) = Udp.core (Udp.self w)
    ∧ Udp.heartbeat_tick now' w1 = (Ok tt, w1).
Proof.
  intros Hdue Hne Hsoon.
  rewrite UdpFacts.udp_heartbeat_tick_eq.
  rewrite (proj2 (Qle_bool_iff _ _) Hdue).
  assert ((0 <? length (Udp.clients (Udp.self w)))%nat = true) as ->.
  { by destruct (Udp.clients (Udp.self w)). }
  simpl andb. cbv iota.
  destruct (UdpFacts.after_broadcast_wire
              (dict_keys (Udp.clients (Udp.self w)))
              (Udp.heartbeat "server heartbeat") w)
    as (news & Hw & Hto & Hmsg).
  pose proof (UdpFacts.core_after_broadcast
                (dict_keys (Udp.clients (Udp.self w)))
                (Udp.heartbeat "server heartbeat") None w) as Hcore.
  pose proof (UdpFacts.cfg_after_broadcast
                (dict_keys (Udp.clients (Udp.self w)))
                (Udp.heartbeat "server heartbeat") None w) as Hcfg.
  set (w2 := Udp.after_broadcast _ _ None w) in *. clearbody w2.
  eexists _, news. split; [done|]. simpl.
  repeat (split; [done|]).
  rewrite UdpFacts.udp_heartbeat_tick_eq. simpl. rewrite Hcfg.
  destruct (Qle_bool _ _) eqn:E; [|done].
  apply Qle_bool_iff in E. by apply Qlt_not_le in Hsoon.
Qed.

(** X21 at work: the lobby of Alice and Bob, interval 2, first heartbeat at
    time 3 and a second test at time 4. *)
Lemma X21_udp_heartbeat_rate_limit_witness :
  ∃ w1 news,
    Udp.heartbeat_tick 3
      (Udp.run_script Scenario.udp_config Scenario.udp_bank
         Scenario.udp_lobby)
    = (Ok tt, w1)
    ∧ map Udp.d_to news = [Scenario.alice; Scenario.bob]
    ∧ Udp.heartbeat_tick 4 w1 = (Ok tt, w1).
Proof.
  destruct (X21_udp_heartbeat_rate_limit 3 4
              (Udp.run_script Scenario.udp_config Scenario.udp_bank
                 Scenario.udp_lobby))
    as (w1 & news & H & _ & Hto & _ & _ & H2).
  - vm_compute. discriminate.
  - vm_compute. discriminate.
  - vm_compute. reflexivity.
  - exists w1, news. split; [exact H|]. split; [|exact H2].
    rewrite Hto. vm_compute. reflexivity.
Defined.

(** X22: the question window of the connectionless server: a turn of the
    window at which the rebroadcast interval has elapsed sends the question
    of the round once more to every registered address and leaves session
    state alone; a turn less than one interval later sends nothing; and a
    turn at or after [QUESTION_TIME_LIMIT] seconds from the window start
    leaves the window without sending. *)
Theorem X22_udp_question_window
    (i : nat) (start now now' : Q) (w : Udp.world) (q : Udp.question) :
  Udp.questions (Udp.self w) !! i = Some q →
  (now - start < inject_Z Udp.QUESTION_TIME_LIMIT)%Q →
  (Udp.REBROADCAST_INTERVAL (Udp.cfg w)
   <= now - start - Udp._last_rebroadcast (Udp.self w))%Q →
  (now' - start < inject_Z Udp.QUESTION_TIME_LIMIT)%Q →
  (now' - now < Udp.REBROADCAST_INTERVAL (Udp.cfg w))%Q →
  ∃ w1 news,
    Udp.game_loop_step (Udp.Window i start) now w
    = (Ok (Some (Udp.Window i start)), w1)
    ∧ Udp.wire w1 = Udp.wire w ++ news
    ∧ map Udp.d_to news = dict_keys (Udp.clients (Udp.self w))
    ∧ Forall (λ d, Udp.d_msg d
                   = Udp.question_msg (i + 1)
                       (length (Udp.questions (Udp.self w)))
                       (Udp.q_question q) (Udp.q_options q)
                       Udp.QUESTION_TIME_LIMIT) news
    ∧ Udp.core (Udp.self w1) = Udp.core (Udp.self w)
    ∧ Udp.game_loop_step (Udp.Window i start) now' w1
      = (Ok (Some (Udp.Window i start)), w1)
    ∧ (∀ t, (inject_Z Udp.QUESTION_TIME_LIMIT <= t - start)%Q →
         Udp.game_loop_step (Udp.Window i start) t w1
         = (Ok (Some (Udp.Close i)), w1)).
Proof.
  intros Hq Hin Hdue Hin' Hsoon.
  rewrite UdpFacts.udp_window_eq, Hq.
  destruct (Qle_bool (inject_Z Udp.QUESTION_TIME_LIMIT) (now - start)) eqn:E.
  { apply Qle_bool_iff in E. by apply Qlt_not_le in Hin. }
  rewrite (proj2 (Qle_bool_iff _ _) Hdue).
  set (p := Udp.question_msg _ _ _ _ _).
  destruct (UdpFacts.after_broadcast_wire
              (dict_keys (Udp.clients (Udp.self w))) p w)
    as (news & Hw & Hto & Hmsg).
  pose proof (UdpFacts.core_after_broadcast
                (dict_keys (Udp.clients (Udp.self w))) p None w) as Hcore.
  pose proof (UdpFacts.cfg_after_broadcast
                (dict_keys (Udp.clients (Udp.self w))) p None w) as Hcfg.
  set (w2 := Udp.after_broadcast _ _ None w) in *. clearbody w2.
  assert (Udp.questions (Udp.self w2) = Udp.questions (Udp.self w)) as Hqs.
  { unfold Udp.core in Hcore. by injection Hcore. }
  eexists _, news. split; [done|].
  split; [exact Hw|]. split; [exact Hto|]. split; [exact Hmsg|].
  split; [exact Hcore|]. split.
  - rewrite UdpFacts.udp_window_eq. simpl. rewrite Hqs, Hq, Hcfg.
    destruct (Qle_bool (inject_Z Udp.QUESTION_TIME_LIMIT) (now' - start))
      eqn:E'.
    { apply Qle_bool_iff in E'. by apply Qlt_not_le in Hin'. }
    destruct (Qle_bool (Udp.REBROADCAST_INTERVAL (Udp.cfg w)) _) eqn:E2;
      [|done].
    apply Qle_bool_iff in E2. exfalso. apply (Qlt_not_le _ _ Hsoon).
    lra.
  - intros t Ht. rewrite UdpFacts.udp_window_eq.
    by rewrite (proj2 (Qle_bool_iff _ _) Ht).
Qed.

(** X22 at work: the window of round 0 opened at time 100 with interval 2;
    turns at 102 and 103. *)
Lemma X22_udp_question_window_witness :
  ∃ w1 news,
    Udp.game_loop_step (Udp.Window 0 100) 102
      (Udp.run_script Scenario.udp_config Scenario.udp_bank
         Scenario.udp_round0)
    = (Ok (Some (Udp.Window 0 100)), w1)
    ∧ map Udp.d_to news = [Scenario.alice; Scenario.bob]
    ∧ Udp.game_loop_step (Udp.Window 0 100) 103 w1
      = (Ok (Some (Udp.Window 0 100)), w1).
Proof.
  destruct (X22_udp_question_window 0 100 102 103
              (Udp.run_script Scenario.udp_config Scenario.udp_bank
                 Scenario.udp_round0)
              (Udp.Question "2 + 2 = ?" ["A) 3"; "B) 4"]%string "B"))
    as (w1 & news & H & _ & Hto & _ & _ & H2 & _).
  - vm_compute. reflexivity.
  - vm_compute. reflexivity.
  - vm_compute. discriminate.
  - vm_compute. reflexivity.
  - vm_compute. reflexivity.
  - exists w1, news. split; [exact H|]. split; [|exact H2].
    rewrite Hto. vm_compute. reflexivity.
Defined.

(** X23: the end of a game reopens the lobby: [end_game] keeps the registry
    with the scores of the game, clears the active flag and the round
    index, and a start request that follows is accepted: from the host on
    the connection-oriented server, from any registered address on the
    connectionless one. *)
Theorem X23_game_end_reopens_lobby
    (h c : nat) (a : Udp.address) (w : Tcp.world) (uw : Udp.world) :
  Tcp.host_conn_id (Tcp.self w) = Some h →
  is_Some (dict_get h (Tcp.clients (Tcp.self w))) →
  is_Some (dict_get a (Udp.clients (Udp.self uw))) →
  ∃ w1 uw1,
    Tcp.end_game w = (Ok tt, w1) ∧ Udp.end_game uw = (Ok tt, uw1)
    ∧ (Tcp.clients (Tcp.self w1) = Tcp.clients (Tcp.self w)
       ∧ Tcp.active_game (Tcp.self w1) = false
       ∧ Tcp.current_question_index (Tcp.self w1) = 0%nat
       ∧ Tcp.handle_request_start_game h c w1
         = (Ok tt, Tcp.set_pool (Tcp.pool w1 ++ [Tcp.StartGameThread]) w1))
    ∧ (Udp.clients (Udp.self uw1) = Udp.clients (Udp.self uw)
       ∧ Udp.active_game (Udp.self uw1) = false
       ∧ Udp.current_question_index (Udp.self uw1) = 0%nat
       ∧ Udp.handle_request_start_game a uw1
         = (Ok tt, Udp.set_pool (Udp.pool uw1 ++ [Udp.StartGameThread]) uw1)).
Proof.
  intros Hh Hin Huin.
  rewrite TcpFacts.tcp_end_game_eq, UdpFacts.udp_end_game_eq.
  eexists _, _. split; [done|]. split; [done|]. split.
  - do 3 (split; [done|]).
    by apply TcpFacts.tcp_request_start_accepted.
  - match goal with
    | |- context [Udp.after_broadcast ?k ?p None ?w0] =>
        destruct (UdpFacts.after_broadcast_fields k p None w0)
          as (_ & Hc & Hact & _)
    end.
    set (uw2 := Udp.after_broadcast _ _ None _) in *. clearbody uw2.
    simpl in Hc, Hact. do 3 (split; [done|]).
    apply UdpFacts.udp_request_start_accepted; simpl; [by rewrite Hc|done].
Qed.

(** X23 at work: both servers at the end of round 1. *)
Lemma X23_game_end_reopens_lobby_witness :
  ∃ w1,
    Tcp.end_game (Tcp.run_script Scenario.tcp_bank Scenario.tcp_round1)
    = (Ok tt, w1)
    ∧ Tcp.handle_request_start_game 0 10 w1
      = (Ok tt, Tcp.set_pool (Tcp.pool w1 ++ [Tcp.StartGameThread]) w1).
Proof.
  destruct (X23_game_end_reopens_lobby 0 10 Scenario.bob
              (Tcp.run_script Scenario.tcp_bank Scenario.tcp_round1)
              (Udp.run_script Scenario.udp_config Scenario.udp_bank
                 Scenario.udp_round1))
    as (w1 & uw1 & H & _ & (_ & _ & _ & H2) & _).
  - vm_compute. reflexivity.
  - vm_compute. by eexists.
  - vm_compute. by eexists.
  - exists w1. split; [exact H|exact H2].
Defined.





(** X26: whatever line the player types, the only answer a text client
    ever sends is one of the letters [A], [B], [C], [D]: the typed line
    stripped, lower-cased and upper-cased again; and the normalisation the
    server applies to a received answer leaves it as it is, so the server
    compares exactly the letter the client sent.  Both clients. *)
Theorem X26_client_sends_a_letter
    (raw : string) (now : Q) (s : TcpClient.client) (us : UdpClient.client)
    (a : option string) :
  Tcp.Answer a ∈ (TcpClient.command raw now s).1
  ∨ Udp.Answer a ∈ (UdpClient.command raw now us).1 →
  ∃ l, a = Some l
       ∧ l = upper (lower (strip raw))
       ∧ l ∈ ["A"; "B"; "C"; "D"]%string
       ∧ strip (upper (default ""%string a)) = l.
Proof.
  intros H.
  assert (upper (lower (strip raw)) ∈ ["A"; "B"; "C"; "D"]%string
          ∧ a = Some (upper (lower (strip raw)))) as [Hl ->].
  { destruct H as [H|H].
    - by apply ClientFacts.tcp_command_answer in H as (? & ? & _).
    - by apply ClientFacts.udp_command_answer in H as (? & ? & _). }
  eexists. split; [done|]. split; [done|]. split; [done|]. simpl.
  destruct (ClientFacts.letter_fixed _ Hl) as [Hs Hu]. by rewrite Hu, Hs.
Qed.

(** X26 at work: a game has started, a question has arrived, and the
    player types a padded lower-case [b]. *)
Lemma X26_client_sends_a_letter_witness :
  ∃ l, Some "B"%string = Some l ∧ l ∈ ["A"; "B"; "C"; "D"]%string.
Proof.
  destruct (X26_client_sends_a_letter "  b " 103
              (TcpClient.handle_message
                 (Tcp.question_msg 1 2 "2 + 2 = ?" ["A) 3"; "B) 4"] 10) 100
                 (TcpClient.handle_message (Tcp.game_start "Game starting!" 2)
                    50 TcpClient.init))
              UdpClient.init (Some "B"%string))
    as (l & Hl & _ & Hin & _).
  - left. vm_compute. left.
  - exists l. split; [exact Hl|exact Hin].
Defined.

(** X27: a text client never sends more answers than it has received
    [question] messages: over any run of received messages and typed lines,
    from any state, the number of answers sent is at most the number of
    [question] messages received, plus one if a question was already
    waiting for its answer at the start.  Both clients. *)
Theorem X27_client_answers_bounded_by_questions
    (evs : list TcpClient.event) (s : TcpClient.client)
    (uevs : list UdpClient.event) (us : UdpClient.client) :
  (length (List.filter TcpClient.is_answer (TcpClient.session evs s).1)
   ≤ Nat.b2n (TcpClient.pending s)
     + length (List.filter TcpClient.is_question evs))%nat
  ∧ (length (List.filter UdpClient.is_answer (UdpClient.session uevs us).1)
     ≤ Nat.b2n (UdpClient.pending us)
       + length (List.filter UdpClient.is_question uevs))%nat.
Proof.
  pose proof (ClientFacts.tcp_client_session_budget evs s).
  pose proof (ClientFacts.udp_client_session_budget uevs us).
  lia.
Qed.

(** X28: a received [question] message arms the client and restarts its
    clock: in a client that knows the game is active, after a [question]
    message received at time [t0], a typed answer letter is sent exactly
    when no more than the message's time limit has passed since [t0],
    whatever the client held before, also a question it had answered.  On
    the connectionless side every rebroadcast of the question is such a
    message.  Both clients. *)
Theorem X28_client_question_arms_and_times
    (raw : string) (now t0 : Q) (n t : nat) (x : string) (o : list string)
    (limit : Z) (s : TcpClient.client) (us : UdpClient.client) :
  upper (lower (strip raw)) ∈ ["A"; "B"; "C"; "D"]%string →
  ¬ (t0 == 0)%Q →
  TcpClient.game_active s = true → UdpClient.game_active us = true →
  (TcpClient.command raw now
     (TcpClient.handle_message (Tcp.question_msg n t x o limit) t0 s)).1
  = (if Qle_bool (now - t0) (inject_Z limit)
     then [Tcp.Answer (Some (upper (lower (strip raw))))] else [])
  ∧ (UdpClient.command raw now
       (UdpClient.handle_message (Udp.question_msg n t x o limit) t0 us)).1
    = (if Qle_bool (now - t0) (inject_Z limit)
       then [Udp.Answer (Some (upper (lower (strip raw))))] else []).
Proof.
  intros Hl Ht0 Hs Hus.
  destruct (ClientFacts.letter_fixed _ Hl) as [Hstrip _].
  assert (Qeq_bool t0 0 = false) as Hz.
  { destruct (Qeq_bool t0 0) eqn:E; [|done]. by apply Qeq_bool_iff in E. }
  assert (bool_decide (lower (strip raw) = "quit"%string) = false
          ∧ bool_decide (lower (strip raw) = "start"%string) = false
          ∧ bool_decide (lower (strip raw) = "status"%string) = false
          ∧ bool_decide (lower (strip raw) = ""%string) = false)
    as (E1 & E2 & E3 & E4).
  { repeat split; apply bool_decide_eq_false; intros E; rewrite E in Hl;
      vm_compute in Hl; by repeat (apply elem_of_cons in Hl as [Hl|Hl];
                                   [done|]); apply elem_of_nil in Hl. }
  split.
  - unfold TcpClient.command, TcpClient.submit_answer. cbv zeta.
    rewrite E1, E2, E3, E4, (bool_decide_eq_true_2 _ Hl). simpl.
    rewrite Hs, Hz, Hstrip. simpl. by destruct (Qle_bool _ _).
  - unfold UdpClient.command, UdpClient.submit_answer. cbv zeta.
    rewrite E1, E2, E3, E4, (bool_decide_eq_true_2 _ Hl). simpl.
    rewrite Hus, Hz, Hstrip. simpl. by destruct (Qle_bool _ _).
Qed.

(** X28 at work: a question received at time 100 with limit 10, answered at
    time 103. *)
Lemma X28_client_question_arms_and_times_witness :
  (TcpClient.command "b" 103
     (TcpClient.handle_message
        (Tcp.question_msg 1 2 "2 + 2 = ?" ["A) 3"; "B) 4"] 10) 100
        (TcpClient.handle_message (Tcp.game_start "Game starting!" 2) 50
           TcpClient.init))).1
  = [Tcp.Answer (Some "B"%string)].
Proof.
  destruct (X28_client_question_arms_and_times "b" 103 100 1 2 "2 + 2 = ?"
              ["A) 3"; "B) 4"]%string 10
              (TcpClient.handle_message (Tcp.game_start "Game starting!" 2) 50
                 TcpClient.init)
              (UdpClient.handle_message (Udp.game_start "Game starting!" 2) 50
                 UdpClient.init)) as [H _].
  - vm_compute. right. left.
  - vm_compute. discriminate.
  - vm_compute. reflexivity.
  - vm_compute. reflexivity.
  - exact H.
Defined.
